(** * Thesis Draft Generator (run.py): a shallow embedding and its properties

    The program is a command-line front end: it parses its arguments,
    bootstraps a directory tree, writes or reads one JSON configuration
    file and prints static text.  The embedding follows run.py function by
    function.  The parts of the Python standard library that run.py calls
    (str.split, str.strip, json.dump, json.load, pathlib.Path.mkdir, open,
    argparse) are modelled from their CPython 3.11 sources, next to the
    functions that use them.

    Modelling conventions:
    - a Python [str] is the list of its code points, each a [Z];
    - a Python value that can live in the configuration is a [value];
    - the file system is a finite map from paths to nodes, files hold
      decoded text; permissions, links and text encodings are not modelled;
    - effects are threaded through a state-and-exception monad [M];
    - the standard output takes every text and the JSON encoder and
      decoder take every integer and every nesting; where CPython
      refuses (a surrogate code point on a UTF-8 output, more than 4300
      digits, the recursion limit) the properties say so in their
      hypotheses ([encodable], [short_int], [within_limits]). *)

From Stdlib Require Import ZArith List String Ascii Bool Lia.
From Stdlib Require DecimalFacts DecimalPos DecimalZ.
From stdpp Require Import gmap strings list.
Import ListNotations.

Local Open Scope Z_scope.

(** ** Python strings *)

Definition pystr := list Z.

(** The code points of an ASCII literal. *)
Definition str (s : string) : pystr :=
  map (fun a => Z.of_N (N_of_ascii a)) (list_ascii_of_string s).

#[global] Arguments str : simpl never.

Definition QUOTE : Z := 34.      (* the double quote *)
Definition COMMA : Z := 44.
Definition SPACE : Z := 32.
Definition NEWLINE : Z := 10.
Definition BACKSLASH : Z := 92.

Definition pystr_eqb (a b : pystr) : bool := bool_decide (a = b).

(** [str.isspace] of one character: the code points CPython 3.11 treats
    as white space ([Py_UNICODE_ISSPACE]). *)
Definition isspace (c : Z) : bool :=
  ((9 <=? c) && (c <=? 13)) || ((28 <=? c) && (c <=? 32))
  || (c =? 133) || (c =? 160) || (c =? 5760)
  || ((8192 <=? c) && (c <=? 8202))
  || (c =? 8232) || (c =? 8233) || (c =? 8239) || (c =? 8287) || (c =? 12288).

(** [s.lstrip()], [s.rstrip()], [s.strip()] *)
Fixpoint lstrip (s : pystr) : pystr :=
  match s with
  | c :: r => if isspace c then lstrip r else s
  | [] => []
  end.

Definition rstrip (s : pystr) : pystr := rev (lstrip (rev s)).

Definition strip (s : pystr) : pystr := rstrip (lstrip s).

(** [s.split(sep)] for a separator of one character.  The result always
    has at least one piece; the empty string gives one empty piece. *)
Fixpoint split (sep : Z) (s : pystr) : list pystr :=
  match s with
  | [] => [[]]
  | c :: r =>
      if c =? sep then [] :: split sep r
      else match split sep r with
           | w :: ws => (c :: w) :: ws
           | [] => [[c]]
           end
  end.

(** [sep.join(pieces)] *)
Fixpoint join (sep : pystr) (pieces : list pystr) : pystr :=
  match pieces with
  | [] => []
  | [p] => p
  | p :: ps => p ++ sep ++ join sep ps
  end.

(** [s.ljust(width)], which is what the format spec [:<width] does to a
    string: pad with spaces on the right up to [width] characters. *)
Definition ljust (width : nat) (s : pystr) : pystr :=
  s ++ repeat SPACE (width - length s).

(** ** run.py: parse_instruments *)

Definition parse_instruments (instruments_str : pystr) : list pystr :=
  map strip (split COMMA instruments_str).

(** ** Python values and exceptions *)

(** The values a configuration is made of: what [json.load] can return,
    floats excepted. *)
#[warnings="-register-all"]
Inductive value :=
  | PyNone
  | PyBool (b : bool)
  | PyInt (n : Z)
  | PyStr (s : pystr)
  | PyList (items : list value)
  | PyDict (items : list (pystr * value)).

Inductive errno := ENOENT | EEXIST | ENOTDIR | EISDIR.

#[global] Instance errno_eq_dec : EqDecision errno.
Proof. solve_decision. Defined.

(** The exceptions the program can meet.  [NotModelled] marks behaviour
    that lies outside this model (floats, [repr] of containers). *)
Inductive exn :=
  | FileNotFoundError (msg : pystr)
  | OSError (e : errno)
  | JSONDecodeError
  | KeyError
  | TypeError
  | AttributeError
  | RecursionError
  | SystemExit (code : Z)
  | NotModelled.

Inductive result (A : Type) :=
  | Ok (a : A)
  | Raise (e : exn).
Arguments Ok {A} a.
Arguments Raise {A} e.

Definition rbind {A B} (r : result A) (k : A -> result B) : result B :=
  match r with
  | Ok a => k a
  | Raise e => Raise e
  end.

(** A Python dict keeps its keys in insertion order; assigning to a key
    that is present replaces the value in place. *)
Fixpoint dict_set (d : list (pystr * value)) (k : pystr) (v : value)
  : list (pystr * value) :=
  match d with
  | [] => [(k, v)]
  | (k', v') :: d' =>
      if pystr_eqb k' k then (k', v) :: d' else (k', v') :: dict_set d' k v
  end.

Fixpoint dict_get (d : list (pystr * value)) (k : pystr) : option value :=
  match d with
  | [] => None
  | (k', v') :: d' => if pystr_eqb k' k then Some v' else dict_get d' k
  end.

(** [dict(pairs)], and the dict a comprehension builds. *)
Definition dict_of_pairs (pairs : list (pystr * value)) : list (pystr * value) :=
  fold_left (fun d kv => dict_set d (fst kv) (snd kv)) pairs [].

(** ** json.dump: the encoder (ensure_ascii=True, indent=2) *)

(** One lower-case hexadecimal digit. *)
Definition hex_digit (n : Z) : Z := if n <? 10 then 48 + n else 87 + n.

(** ['\\u{0:04x}'.format(n)] *)
Definition u_escape (n : Z) : pystr :=
  [BACKSLASH; 117;
   hex_digit (n / 4096 mod 16); hex_digit (n / 256 mod 16);
   hex_digit (n / 16 mod 16); hex_digit (n mod 16)].

(** The replacement of one character in [py_encode_basestring_ascii]:
    ESCAPE_DCT first, then printable ASCII unchanged, then a [\uXXXX]
    escape, two of them (a surrogate pair) above the basic plane. *)
Definition escape_char (c : Z) : pystr :=
  if c =? BACKSLASH then [BACKSLASH; BACKSLASH]
  else if c =? QUOTE then [BACKSLASH; QUOTE]
  else if c =? 8 then [BACKSLASH; 98]
  else if c =? 12 then [BACKSLASH; 102]
  else if c =? 10 then [BACKSLASH; 110]
  else if c =? 13 then [BACKSLASH; 114]
  else if c =? 9 then [BACKSLASH; 116]
  else if (32 <=? c) && (c <=? 126) then [c]
  else if c <? 65536 then u_escape c
  else
    let n := c - 65536 in
    let s1 := Z.lor 55296 (Z.land (Z.shiftr n 10) 1023) in
    let s2 := Z.lor 56320 (Z.land n 1023) in
    u_escape s1 ++ u_escape s2.

Definition encode_basestring_ascii (s : pystr) : pystr :=
  QUOTE :: flat_map escape_char s ++ [QUOTE].

(** [int.__repr__]: decimal notation, through the standard library's
    decimal numbers.  (CPython's limit on the number of digits is not
    modelled.) *)
Fixpoint uint_chars (u : Decimal.uint) : pystr :=
  match u with
  | Decimal.Nil => []
  | Decimal.D0 u => 48 :: uint_chars u
  | Decimal.D1 u => 49 :: uint_chars u
  | Decimal.D2 u => 50 :: uint_chars u
  | Decimal.D3 u => 51 :: uint_chars u
  | Decimal.D4 u => 52 :: uint_chars u
  | Decimal.D5 u => 53 :: uint_chars u
  | Decimal.D6 u => 54 :: uint_chars u
  | Decimal.D7 u => 55 :: uint_chars u
  | Decimal.D8 u => 56 :: uint_chars u
  | Decimal.D9 u => 57 :: uint_chars u
  end.

Definition int_repr (n : Z) : pystr :=
  match Z.to_int n with
  | Decimal.Pos u => uint_chars u
  | Decimal.Neg u => 45 :: uint_chars u
  end.

(** ['\n' + _indent * level] with [_indent] two spaces *)
Definition newline_indent (level : nat) : pystr :=
  NEWLINE :: repeat SPACE (2 * level).

(** [_iterencode], [_iterencode_list] and [_iterencode_dict] of
    json/encoder.py, joined into the text they yield.  The item separator
    is a comma and the key separator a colon and a space, the defaults
    when an indent is given. *)
Fixpoint iterencode (o : value) (level : nat) {struct o} : pystr :=
  match o with
  | PyStr s => encode_basestring_ascii s
  | PyNone => str "null"
  | PyBool true => str "true"
  | PyBool false => str "false"
  | PyInt n => int_repr n
  | PyList [] => str "[]"
  | PyList (v :: vs) =>
      [91] ++ newline_indent (S level) ++ iterencode v (S level)
      ++ (fix rest (l : list value) : pystr :=
            match l with
            | [] => []
            | v :: l =>
                COMMA :: newline_indent (S level) ++ iterencode v (S level) ++ rest l
            end) vs
      ++ newline_indent level ++ [93]
  | PyDict [] => str "{}"
  | PyDict ((k, v) :: kvs) =>
      [123] ++ newline_indent (S level)
      ++ encode_basestring_ascii k ++ [58; SPACE] ++ iterencode v (S level)
      ++ (fix rest (l : list (pystr * value)) : pystr :=
            match l with
            | [] => []
            | (k, v) :: l =>
                COMMA :: newline_indent (S level)
                ++ encode_basestring_ascii k ++ [58; SPACE]
                ++ iterencode v (S level) ++ rest l
            end) kvs
      ++ newline_indent level ++ [125]
  end.

(** [json.dumps(obj, indent=2)] *)
Definition dumps (obj : value) : pystr := iterencode obj 0.

(** ** json.load: the decoder

    Modelled on json/decoder.py and json/scanner.py as CPython runs them
    (the C scanner: ASCII digits only, four hexadecimal digits after
    [\u]).  Numbers with a fraction or an exponent, [NaN] and the
    infinities are Python floats: reading one is [NotModelled]. *)

Notation "'let*' p := r 'in' k" := (rbind r (fun p => k))
  (at level 10, p pattern, r at level 100, k at level 200).

Definition is_ws (c : Z) : bool :=
  (c =? 32) || (c =? 9) || (c =? 10) || (c =? 13).

(** [WHITESPACE.match(s, end).end()] *)
Fixpoint skip_ws (s : pystr) : pystr :=
  match s with
  | c :: r => if is_ws c then skip_ws r else s
  | [] => []
  end.

Definition hex_value (c : Z) : option Z :=
  if (48 <=? c) && (c <=? 57) then Some (c - 48)
  else if (97 <=? c) && (c <=? 102) then Some (c - 87)
  else if (65 <=? c) && (c <=? 70) then Some (c - 55)
  else None.

Definition decode_uXXXX (a b c d : Z) : option Z :=
  match hex_value a, hex_value b, hex_value c, hex_value d with
  | Some a, Some b, Some c, Some d => Some (((a * 16 + b) * 16 + c) * 16 + d)
  | _, _, _, _ => None
  end.

(** The BACKSLASH table of the decoder. *)
Definition unescape (esc : Z) : option Z :=
  if esc =? QUOTE then Some QUOTE
  else if esc =? BACKSLASH then Some BACKSLASH
  else if esc =? 47 then Some 47
  else if esc =? 98 then Some 8
  else if esc =? 102 then Some 12
  else if esc =? 110 then Some 10
  else if esc =? 114 then Some 13
  else if esc =? 116 then Some 9
  else None.

Definition cons_char (c : Z) (r : result (pystr * pystr)) : result (pystr * pystr) :=
  let* (chunk, rest) := r in Ok (c :: chunk, rest).

(** [scanstring(s, end, strict=True)]: [s] starts just after the opening
    quote; the result is the decoded string and the text after the
    closing quote.  A high surrogate escape followed by a low surrogate
    escape is read as one character. *)
Fixpoint scanstring (s : pystr) : result (pystr * pystr) :=
  match s with
  | [] => Raise JSONDecodeError
  | c :: r =>
      if c =? QUOTE then Ok ([], r)
      else if c =? BACKSLASH then
        match r with
        | [] => Raise JSONDecodeError
        | esc :: r1 =>
            if esc =? 117 then
              match r1 with
              | a :: b :: c' :: d :: r2 =>
                  match decode_uXXXX a b c' d with
                  | None => Raise JSONDecodeError
                  | Some uni =>
                      match r2 with
                      | b1 :: u1 :: a2 :: b2 :: c2 :: d2 :: r3 =>
                          if (55296 <=? uni) && (uni <=? 56319)
                             && (b1 =? BACKSLASH) && (u1 =? 117)
                          then
                            match decode_uXXXX a2 b2 c2 d2 with
                            | None => Raise JSONDecodeError
                            | Some uni2 =>
                                if (56320 <=? uni2) && (uni2 <=? 57343)
                                then cons_char
                                       (65536 + Z.lor (Z.shiftl (uni - 55296) 10)
                                                      (uni2 - 56320))
                                       (scanstring r3)
                                else cons_char uni (scanstring r2)
                            end
                          else cons_char uni (scanstring r2)
                      | _ => cons_char uni (scanstring r2)
                      end
                  end
              | _ => Raise JSONDecodeError
              end
            else
              match unescape esc with
              | Some ch => cons_char ch (scanstring r1)
              | None => Raise JSONDecodeError
              end
        end
      else if c <? 32 then Raise JSONDecodeError
      else cons_char c (scanstring r)
  end.

Definition is_digit (c : Z) : bool := (48 <=? c) && (c <=? 57).

(** The longest run of digits at the front, and what follows it. *)
Fixpoint take_digits (s : pystr) : pystr * pystr :=
  match s with
  | c :: r =>
      if is_digit c then let '(ds, r') := take_digits r in (c :: ds, r')
      else ([], s)
  | [] => ([], [])
  end.

Definition has_digit (s : pystr) : bool :=
  match s with
  | c :: _ => is_digit c
  | [] => false
  end.

Fixpoint chars_uint (ds : pystr) : Decimal.uint :=
  match ds with
  | [] => Decimal.Nil
  | c :: r =>
      let u := chars_uint r in
      if c =? 48 then Decimal.D0 u else if c =? 49 then Decimal.D1 u
      else if c =? 50 then Decimal.D2 u else if c =? 51 then Decimal.D3 u
      else if c =? 52 then Decimal.D4 u else if c =? 53 then Decimal.D5 u
      else if c =? 54 then Decimal.D6 u else if c =? 55 then Decimal.D7 u
      else if c =? 56 then Decimal.D8 u else Decimal.D9 u
  end.

(** [int(text)] for a sign and decimal digits *)
Definition int_of_chars (neg : bool) (ds : pystr) : Z :=
  Z.of_int (if neg then Decimal.Neg (chars_uint ds) else Decimal.Pos (chars_uint ds)).

Inductive number :=
  | IntLit (n : Z)
  | FloatLit.

(** NUMBER_RE matched at the front of [s]: an optional minus sign, then
    a zero or a non-zero digit followed by digits; then, optionally, a dot
    with digits (a fraction) and an [e] or [E] with an optional sign and
    digits (an exponent). *)
Definition number_sign (s : pystr) : bool * pystr :=
  match s with
  | c :: r => if c =? 45 then (true, r) else (false, s)
  | [] => (false, s)
  end.

Definition number_integer (s : pystr) : option (pystr * pystr) :=
  match s with
  | [] => None
  | c :: r =>
      if c =? 48 then Some ([c], r)
      else if (49 <=? c) && (c <=? 57)
           then let '(ds, r') := take_digits r in Some (c :: ds, r')
           else None
  end.

Definition number_frac (s : pystr) : bool * pystr :=
  match s with
  | p :: r => if (p =? 46) && has_digit r then (true, snd (take_digits r)) else (false, s)
  | [] => (false, s)
  end.

Definition number_exp (s : pystr) : bool * pystr :=
  match s with
  | e :: r =>
      let r' :=
        match r with
        | sg :: t => if (sg =? 43) || (sg =? 45) then t else r
        | [] => r
        end in
      if ((e =? 101) || (e =? 69)) && has_digit r'
      then (true, snd (take_digits r'))
      else (false, s)
  | [] => (false, s)
  end.

Definition match_number (s : pystr) : option (number * pystr) :=
  let '(neg, s1) := number_sign s in
  match number_integer s1 with
  | None => None
  | Some (ds, r1) =>
      let '(frac, r2) := number_frac r1 in
      let '(exp, r3) := number_exp r2 in
      if frac || exp then Some (FloatLit, r3)
      else Some (IntLit (int_of_chars neg ds), r3)
  end.

(** [s[idx:idx + len(p)] == p]: the text after the prefix [p], if [s]
    starts with it. *)
Fixpoint strip_prefix (p s : pystr) : option pystr :=
  match p, s with
  | [], _ => Some s
  | a :: p', b :: s' => if a =? b then strip_prefix p' s' else None
  | _ :: _, [] => None
  end.

Definition is_Some_b {A} (o : option A) : bool :=
  match o with
  | Some _ => true
  | None => false
  end.

(** The loop of [JSONArray]; [s] is at the next value. *)
Fixpoint array_loop (scan : pystr -> result (value * pystr)) (fuel : nat)
    (s : pystr) (values : list value) : result (value * pystr) :=
  match fuel with
  | O => Raise RecursionError
  | S fuel =>
      let* (v, s1) := scan s in
      let values := values ++ [v] in
      match skip_ws s1 with
      | c :: s2 =>
          if c =? 93 then Ok (PyList values, s2)
          else if c =? COMMA then array_loop scan fuel (skip_ws s2) values
          else Raise JSONDecodeError
      | [] => Raise JSONDecodeError
      end
  end.

Definition JSONArray (scan : pystr -> result (value * pystr)) (fuel : nat)
    (s : pystr) : result (value * pystr) :=
  match skip_ws s with
  | c :: r => if c =? 93 then Ok (PyList [], r) else array_loop scan fuel (c :: r) []
  | [] => array_loop scan fuel [] []
  end.

(** The loop of [JSONObject]; [s] is just after the opening quote of a
    key. *)
Fixpoint object_loop (scan : pystr -> result (value * pystr)) (fuel : nat)
    (s : pystr) (pairs : list (pystr * value)) : result (value * pystr) :=
  match fuel with
  | O => Raise RecursionError
  | S fuel =>
      let* (key, s1) := scanstring s in
      match skip_ws s1 with
      | c :: s2 =>
          if c =? 58 then
            let* (v, s3) := scan (skip_ws s2) in
            let pairs := pairs ++ [(key, v)] in
            match skip_ws s3 with
            | c :: s4 =>
                if c =? 125 then Ok (PyDict (dict_of_pairs pairs), s4)
                else if c =? COMMA then
                  match skip_ws s4 with
                  | q :: s5 =>
                      if q =? QUOTE then object_loop scan fuel s5 pairs
                      else Raise JSONDecodeError
                  | [] => Raise JSONDecodeError
                  end
                else Raise JSONDecodeError
            | [] => Raise JSONDecodeError
            end
          else Raise JSONDecodeError
      | [] => Raise JSONDecodeError
      end
  end.

Definition JSONObject (scan : pystr -> result (value * pystr)) (fuel : nat)
    (s : pystr) : result (value * pystr) :=
  match skip_ws s with
  | c :: r =>
      if c =? 125 then Ok (PyDict [], r)
      else if c =? QUOTE then object_loop scan fuel r []
      else Raise JSONDecodeError
  | [] => Raise JSONDecodeError
  end.

(** [_scan_once]: one JSON value at the front of [s].  The fuel bounds
    the nesting and the number of items; running out of it is reported
    as a [RecursionError]. *)
Fixpoint scan_once (fuel : nat) (s : pystr) : result (value * pystr) :=
  match fuel with
  | O => Raise RecursionError
  | S fuel =>
      match s with
      | [] => Raise JSONDecodeError
      | c :: r =>
          if c =? QUOTE then let* (x, r') := scanstring r in Ok (PyStr x, r')
          else if c =? 123 then JSONObject (scan_once fuel) fuel r
          else if c =? 91 then JSONArray (scan_once fuel) fuel r
          else
            match strip_prefix (str "null") s with
            | Some r' => Ok (PyNone, r')
            | None =>
            match strip_prefix (str "true") s with
            | Some r' => Ok (PyBool true, r')
            | None =>
            match strip_prefix (str "false") s with
            | Some r' => Ok (PyBool false, r')
            | None =>
            match match_number s with
            | Some (IntLit n, r') => Ok (PyInt n, r')
            | Some (FloatLit, _) => Raise NotModelled
            | None =>
                if is_Some_b (strip_prefix (str "NaN") s)
                   || is_Some_b (strip_prefix (str "Infinity") s)
                   || is_Some_b (strip_prefix (str "-Infinity") s)
                then Raise NotModelled
                else Raise JSONDecodeError
            end end end end
      end
  end.

(** [json.loads(s)]: no byte order mark, one value, white space around
    it and nothing else. *)
Definition loads (s : pystr) : result value :=
  match s with
  | 65279 :: _ => Raise JSONDecodeError
  | _ =>
      let* (obj, rest) := scan_once (S (length s)) (skip_ws s) in
      match skip_ws rest with
      | [] => Ok obj
      | _ :: _ => Raise JSONDecodeError
      end
  end.

(** ** The file system

    A path is the list of its components, innermost first, so that
    [Path / name] is [name :: Path] and [Path.parent] is the tail; the
    empty list is the root directory, which always exists.  The tree is a
    finite map from paths to nodes; a node is reached only through
    directories, as [stat] spells out. *)

Inductive node :=
  | File (content : pystr)
  | Dir.

Abbreviation path := (list string).

Abbreviation FS := (gmap path node).

Inductive stat_result :=
  | StDir
  | StFile (content : pystr)
  | StErr (e : errno).

Fixpoint stat (fs : FS) (p : path) : stat_result :=
  match p with
  | [] => StDir
  | _ :: parent =>
      match stat fs parent with
      | StDir =>
          match fs !! p with
          | Some Dir => StDir
          | Some (File c) => StFile c
          | None => StErr ENOENT
          end
      | StFile _ => StErr ENOTDIR
      | StErr e => StErr e
      end
  end.

(** [str(path)] for an absolute POSIX path *)
Definition path_str (p : path) : pystr :=
  match p with
  | [] => [47]
  | _ => flat_map (fun name => 47 :: str name) (rev p)
  end.

(** [base / "a/b"] *)
Definition pjoin (base : path) (segments : list string) : path :=
  rev segments ++ base.

(** ** The clock *)

Record datetime := {
  year : Z; month : Z; day : Z;
  hour : Z; minute : Z; second : Z; microsecond : Z
}.

(** ["%0*d" % (width, n)] *)
Definition zfill (width : nat) (n : Z) : pystr :=
  repeat 48 (width - length (int_repr n)) ++ int_repr n.

(** [datetime.isoformat()] of a naive datetime *)
Definition isoformat (d : datetime) : pystr :=
  zfill 4 d.(year) ++ str "-" ++ zfill 2 d.(month) ++ str "-" ++ zfill 2 d.(day)
  ++ str "T" ++ zfill 2 d.(hour) ++ str ":" ++ zfill 2 d.(minute)
  ++ str ":" ++ zfill 2 d.(second)
  ++ (if d.(microsecond) =? 0 then [] else str "." ++ zfill 6 d.(microsecond)).

(** ** The world and the monad of effects *)

(** What the process writes: a [print] call on standard output (the text
    without the newline [print] adds), the help text argparse renders, and
    the usage message argparse writes to standard error. *)
Inductive event :=
  | Print (text : pystr)
  | PrintHelp
  | PrintUsageError.

Record world := World {
  files : FS;
  output : list event;
  clock : datetime
}.

Definition set_files (fs : FS) (w : world) : world :=
  World fs w.(output) w.(clock).

Definition emit (e : event) (w : world) : world :=
  World w.(files) (w.(output) ++ [e]) w.(clock).

Definition M (A : Type) : Type := world -> result A * world.

Definition ret {A} (a : A) : M A := fun w => (Ok a, w).

Definition bind {A B} (m : M A) (k : A -> M B) : M B :=
  fun w =>
    match m w with
    | (Ok a, w') => k a w'
    | (Raise e, w') => (Raise e, w')
    end.

Definition raise {A} (e : exn) : M A := fun w => (Raise e, w).

Definition lift {A} (r : result A) : M A := fun w => (r, w).

(** [try: m  except ...: h e], where [h] returns [None] for the
    exceptions the clause does not catch. *)
Definition try_except {A} (m : M A) (h : exn -> option (M A)) : M A :=
  fun w =>
    match m w with
    | (Ok a, w') => (Ok a, w')
    | (Raise e, w') =>
        match h e with
        | Some handler => handler w'
        | None => (Raise e, w')
        end
    end.

Notation "x <- m ;; k" := (bind m (fun x => k))
  (at level 100, m at next level, k at level 200, right associativity).
Notation "m ;; k" := (bind m (fun _ => k))
  (at level 100, k at level 200, right associativity).

Fixpoint for_ {A} (l : list A) (body : A -> M unit) : M unit :=
  match l with
  | [] => ret tt
  | x :: r => body x ;; for_ r body
  end.

Definition print (text : pystr) : M unit := fun w => (Ok tt, emit (Print text) w).

Definition datetime_now : M datetime := fun w => (Ok w.(clock), w).

(** [os.mkdir(p)] *)
Definition os_mkdir (p : path) : M unit :=
  fun w =>
    match p with
    | [] => (Raise (OSError EEXIST), w)
    | _ :: parent =>
        match stat w.(files) parent with
        | StDir =>
            match w.(files) !! p with
            | Some _ => (Raise (OSError EEXIST), w)
            | None => (Ok tt, set_files (<[p := Dir]> w.(files)) w)
            end
        | StFile _ => (Raise (OSError ENOTDIR), w)
        | StErr e => (Raise (OSError e), w)
        end
    end.

(** [Path.is_dir()] and [Path.exists()] *)
Definition is_dir (p : path) : M bool :=
  fun w => (Ok (match stat w.(files) p with StDir => true | _ => false end), w).

Definition exists_ (p : path) : M bool :=
  fun w => (Ok (match stat w.(files) p with StErr _ => false | _ => true end), w).

(** [Path.mkdir(parents=False, exist_ok=exist_ok)] *)
Definition mkdir_here (exist_ok : bool) (p : path) : M unit :=
  try_except (os_mkdir p) (fun e =>
    match e with
    | OSError ENOENT => None
    | OSError _ =>
        Some (d <- is_dir p ;;
              if negb exist_ok || negb d then raise e else ret tt)
    | _ => None
    end).

(** [Path.mkdir(parents, exist_ok)] of pathlib.  When the parent is
    missing and [parents] is set, the parent is made first (with both
    flags set) and the directory itself is then made without
    [parents]. *)
Fixpoint Path_mkdir (parents exist_ok : bool) (p : path) {struct p} : M unit :=
  try_except (os_mkdir p) (fun e =>
    match e with
    | OSError ENOENT =>
        match p with
        | [] => None
        | _ :: parent =>
            if negb parents then None
            else Some (Path_mkdir true true parent ;; mkdir_here exist_ok p)
        end
    | OSError _ =>
        Some (d <- is_dir p ;;
              if negb exist_ok || negb d then raise e else ret tt)
    | _ => None
    end).

(** [with open(p, "w") as f: f.write(text)] *)
Definition write_text (p : path) (text : pystr) : M unit :=
  fun w =>
    match p with
    | [] => (Raise (OSError EISDIR), w)
    | _ :: parent =>
        match stat w.(files) parent with
        | StDir =>
            match w.(files) !! p with
            | Some Dir => (Raise (OSError EISDIR), w)
            | _ => (Ok tt, set_files (<[p := File text]> w.(files)) w)
            end
        | StFile _ => (Raise (OSError ENOTDIR), w)
        | StErr e => (Raise (OSError e), w)
        end
    end.

(** [with open(p) as f: f.read()] *)
Definition read_text (p : path) : M pystr :=
  fun w =>
    match stat w.(files) p with
    | StFile c => (Ok c, w)
    | StDir => (Raise (OSError EISDIR), w)
    | StErr e => (Raise (OSError e), w)
    end.

(** ** Python operations on values *)

(** [bool(v)] *)
Definition truthy (v : value) : bool :=
  match v with
  | PyNone => false
  | PyBool b => b
  | PyInt n => negb (n =? 0)
  | PyStr s => negb (bool_decide (s = []))
  | PyList l => match l with [] => false | _ => true end
  | PyDict d => match d with [] => false | _ => true end
  end.

(** The truth value of an optional command-line string ([None] or a
    string). *)
Definition truthy_opt (o : option pystr) : bool :=
  match o with
  | Some (_ :: _) => true
  | _ => false
  end.

(** [v[key]] for a string key *)
Definition getitem (v : value) (key : pystr) : result value :=
  match v with
  | PyDict d =>
      match dict_get d key with
      | Some x => Ok x
      | None => Raise KeyError
      end
  | _ => Raise TypeError
  end.

(** [v.get(key, default)] *)
Definition get (v : value) (key : pystr) (default : value) : result value :=
  match v with
  | PyDict d =>
      match dict_get d key with
      | Some x => Ok x
      | None => Ok default
      end
  | _ => Raise AttributeError
  end.

(** [v[:n]] *)
Definition slice_to (n : nat) (v : value) : result value :=
  match v with
  | PyStr s => Ok (PyStr (firstn n s))
  | PyList l => Ok (PyList (firstn n l))
  | _ => Raise TypeError
  end.

(** [format(v, "<width")] *)
Definition format_left (width : nat) (v : value) : result pystr :=
  match v with
  | PyStr s => Ok (ljust width s)
  | PyInt n => Ok (ljust width (int_repr n))
  | PyBool b => Ok (ljust width (if b then str "1" else str "0"))
  | _ => Raise TypeError
  end.

(** [str(v)], which is also [format(v, "")]; the [repr] of lists and
    dicts is not modelled. *)
Definition str_of (v : value) : result pystr :=
  match v with
  | PyStr s => Ok s
  | PyInt n => Ok (int_repr n)
  | PyBool b => Ok (if b then str "True" else str "False")
  | PyNone => Ok (str "None")
  | _ => Raise NotModelled
  end.

Fixpoint all_strs (items : list value) : result (list pystr) :=
  match items with
  | [] => Ok []
  | PyStr s :: r => let* strs := all_strs r in Ok (s :: strs)
  | _ :: _ => Raise TypeError
  end.

(** [sep.join(v)]: [v] must be an iterable of strings; a string iterates
    over its characters and a dict over its keys. *)
Definition join_value (sep : pystr) (v : value) : result pystr :=
  match v with
  | PyList items => let* strs := all_strs items in Ok (join sep strs)
  | PyStr s => Ok (join sep (map (fun c => [c]) s))
  | PyDict d => Ok (join sep (map fst d))
  | _ => Raise TypeError
  end.

(** [v == s] for a string [s] *)
Definition eq_str (v : value) (s : pystr) : bool :=
  match v with
  | PyStr t => pystr_eqb t s
  | _ => false
  end.

(** ** argparse

    The parser [main] builds, as argparse of CPython 3.11 runs it
    ([_parse_optional], [_get_option_tuples], [consume_optional],
    [_get_values]).  A token that starts with a dash and holds a character
    outside printable ASCII, an explicit argument [--], and an integer
    argument with such a character are [NotModelled]. *)

Inductive action :=
  | a_help | a_theme | a_instruments | a_sample | a_phase
  | a_full | a_status | a_config.

(** The option strings, in the order [add_argument] registers them. *)
Definition option_string_actions : list (pystr * action) :=
  [(str "-h", a_help); (str "--help", a_help);
   (str "--theme", a_theme); (str "--instruments", a_instruments);
   (str "--sample", a_sample); (str "--phase", a_phase);
   (str "--full", a_full); (str "--status", a_status);
   (str "--config", a_config)].

(** [nargs]: one argument for the store actions, none for the others. *)
Definition takes_value (a : action) : bool :=
  match a with
  | a_theme | a_instruments | a_sample | a_phase | a_config => true
  | a_help | a_full | a_status => false
  end.

Record Namespace := {
  theme : option pystr;
  instruments : option pystr;
  sample : Z;
  phase : option pystr;
  full : bool;
  status : bool;
  config : option pystr
}.

(** The defaults of the arguments. *)
Definition default_namespace : Namespace :=
  {| theme := None; instruments := None; sample := 50; phase := None;
     full := false; status := false; config := None |}.

Definition PHASES : list pystr :=
  [str "research"; str "feasibility-research"; str "simulate";
   str "feasibility-data"; str "analyze"; str "write"].

Definition lookup_option (s : pystr) : option action :=
  match List.find (fun oa => pystr_eqb (fst oa) s) option_string_actions with
  | Some (_, a) => Some a
  | None => None
  end.

Definition startswith (s p : pystr) : bool := is_Some_b (strip_prefix p s).

(** [s.split('=', 1)] when [s] holds an equals sign *)
Fixpoint split_eq (s : pystr) : option (pystr * pystr) :=
  match s with
  | [] => None
  | c :: r =>
      if c =? 61 then Some ([], r)
      else match split_eq r with
           | Some (a, b) => Some (c :: a, b)
           | None => None
           end
  end.

Definition printable (c : Z) : bool := (32 <=? c) && (c <=? 126).

(** The negative-number pattern of argparse on printable ASCII: a dash
    and digits, or a dash, digits, a dot and at least one digit. *)
Definition negative_number (s : pystr) : bool :=
  match s with
  | c :: r =>
      (c =? 45) &&
      (let '(ds, r1) := take_digits r in
       match r1 with
       | [] => negb (bool_decide (ds = []))
       | p :: r2 =>
           (p =? 46) && negb (bool_decide (r2 = [])) && forallb is_digit r2
       end)
  | [] => false
  end.

(** How [_parse_optional] reads one argument string. *)
Inductive optional :=
  | Positional
  | Optional (a : option action) (option_string : pystr) (explicit_arg : option pystr)
  | Ambiguous
  | OutsideModel.

Definition get_option_tuples (arg : pystr) : list optional :=
  match arg with
  | _ :: c2 :: _ =>
      if c2 =? 45 then
        let '(option_prefix, explicit_arg) :=
          match split_eq arg with
          | Some (o, e) => (o, Some e)
          | None => (arg, None)
          end in
        flat_map (fun oa =>
                    if startswith (fst oa) option_prefix
                    then [Optional (Some (snd oa)) (fst oa) explicit_arg]
                    else [])
                 option_string_actions
      else
        let short_option_prefix := firstn 2 arg in
        let short_explicit_arg := skipn 2 arg in
        flat_map (fun oa =>
                    if pystr_eqb (fst oa) short_option_prefix
                    then [Optional (Some (snd oa)) (fst oa) (Some short_explicit_arg)]
                    else if startswith (fst oa) arg
                    then [Optional (Some (snd oa)) (fst oa) None]
                    else [])
                 option_string_actions
  | _ => []
  end.

Definition parse_optional (arg : pystr) : optional :=
  match arg with
  | [] => Positional
  | c :: rest =>
      if negb (c =? 45) then Positional
      else
        match lookup_option arg with
        | Some a => Optional (Some a) arg None
        | None =>
            match rest with
            | [] => Positional
            | _ :: _ =>
                let with_equals :=
                  match split_eq arg with
                  | Some (o, e) =>
                      match lookup_option o with
                      | Some a => Some (Optional (Some a) o (Some e))
                      | None => None
                      end
                  | None => None
                  end in
                match with_equals with
                | Some t => t
                | None =>
                    match get_option_tuples arg with
                    | _ :: _ :: _ => Ambiguous
                    | [t] => t
                    | [] =>
                        if negb (forallb printable arg) then OutsideModel
                        else if negative_number arg then Positional
                        else if existsb (fun c => c =? SPACE) arg then Positional
                        else Optional None arg None
                    end
                end
            end
        end
  end.

(** The pattern of the argument strings: everything after a [--] is an
    argument. *)
Inductive item :=
  | ItemDashes
  | Item (arg : pystr) (o : optional).

Fixpoint classify (arg_strings : list pystr) : list item :=
  match arg_strings with
  | [] => []
  | arg :: r =>
      if pystr_eqb arg (str "--")
      then ItemDashes :: map (fun a => Item a Positional) r
      else Item arg (parse_optional arg) :: classify r
  end.

Definition is_ambiguous (i : item) : bool :=
  match i with
  | Item _ Ambiguous => true
  | _ => false
  end.

Definition is_outside (i : item) : bool :=
  match i with
  | Item _ OutsideModel => true
  | _ => false
  end.

(** Digits with single underscores between them, as [int] accepts. *)
Fixpoint int_digits (s : pystr) (after_digit : bool) : option pystr :=
  match s with
  | [] => if after_digit then Some [] else None
  | c :: r =>
      if is_digit c then
        match int_digits r true with
        | Some ds => Some (c :: ds)
        | None => None
        end
      else if (c =? 95) && after_digit then
        match r with
        | d :: _ => if is_digit d then int_digits r false else None
        | [] => None
        end
      else None
  end.

(** [int(s)] on printable ASCII: spaces around, a sign, digits. *)
Definition py_int (s : pystr) : result (option Z) :=
  if negb (forallb printable s) then Raise NotModelled
  else
    let body := strip s in
    let '(neg, digits) :=
      match body with
      | c :: r => if c =? 45 then (true, r) else if c =? 43 then (false, r) else (false, body)
      | [] => (false, body)
      end in
    match int_digits digits false with
    | Some ds => Ok (Some (int_of_chars neg ds))
    | None => Ok None
    end.

(** [parser.error]: the usage message on standard error, exit status 2. *)
Definition parser_error {A} : M A :=
  fun w => (Raise (SystemExit 2), emit PrintUsageError w).

(** [parser.print_help()] *)
Definition print_help : M unit := fun w => (Ok tt, emit PrintHelp w).

(** [take_action]: convert and check the argument, then run the action. *)
Definition take_action (a : action) (arg : pystr) (ns : Namespace) : M Namespace :=
  match a with
  | a_help => print_help ;; raise (SystemExit 0)
  | a_full =>
      ret {| theme := ns.(theme); instruments := ns.(instruments);
             sample := ns.(sample); phase := ns.(phase); full := true;
             status := ns.(status); config := ns.(config) |}
  | a_status =>
      ret {| theme := ns.(theme); instruments := ns.(instruments);
             sample := ns.(sample); phase := ns.(phase); full := ns.(full);
             status := true; config := ns.(config) |}
  | a_theme =>
      ret {| theme := Some arg; instruments := ns.(instruments);
             sample := ns.(sample); phase := ns.(phase); full := ns.(full);
             status := ns.(status); config := ns.(config) |}
  | a_instruments =>
      ret {| theme := ns.(theme); instruments := Some arg;
             sample := ns.(sample); phase := ns.(phase); full := ns.(full);
             status := ns.(status); config := ns.(config) |}
  | a_config =>
      ret {| theme := ns.(theme); instruments := ns.(instruments);
             sample := ns.(sample); phase := ns.(phase); full := ns.(full);
             status := ns.(status); config := Some arg |}
  | a_sample =>
      n <- lift (py_int arg) ;;
      match n with
      | Some n =>
          ret {| theme := ns.(theme); instruments := ns.(instruments);
                 sample := n; phase := ns.(phase); full := ns.(full);
                 status := ns.(status); config := ns.(config) |}
      | None => parser_error
      end
  | a_phase =>
      if existsb (pystr_eqb arg) PHASES
      then ret {| theme := ns.(theme); instruments := ns.(instruments);
                  sample := ns.(sample); phase := Some arg; full := ns.(full);
                  status := ns.(status); config := ns.(config) |}
      else parser_error
  end.

(** The loop of [_parse_known_args] with [consume_optional]; [extras]
    records that some argument string was left over.  No positional
    argument is declared, so every argument that no option takes is
    left over. *)
Fixpoint consume (items : list item) (ns : Namespace) (extras : bool) : M Namespace :=
  match items with
  | [] => if extras then parser_error else ret ns
  | ItemDashes :: r => consume r ns true
  | Item _ Positional :: r => consume r ns true
  | Item _ (Optional None _ _) :: r => consume r ns true
  | Item _ (Optional (Some a) option_string (Some explicit_arg)) :: r =>
      if takes_value a then
        if pystr_eqb explicit_arg (str "--") then raise NotModelled
        else ns' <- take_action a explicit_arg ns ;; consume r ns' extras
      else if pystr_eqb option_string (str "-h")
              && negb (pystr_eqb explicit_arg [])
              && forallb (fun c => c =? 104) explicit_arg
      then ns' <- take_action a [] ns ;; consume r ns' extras
      else parser_error
  | Item _ (Optional (Some a) _ None) :: r =>
      if takes_value a then
        match r with
        | Item arg Positional :: r' =>
            ns' <- take_action a arg ns ;; consume r' ns' extras
        | _ => parser_error
        end
      else ns' <- take_action a [] ns ;; consume r ns' extras
  | Item _ Ambiguous :: _ => parser_error
  | Item _ OutsideModel :: _ => raise NotModelled
  end.

(** [parser.parse_args()] on [sys.argv[1:]] *)
Definition parse_args (argv : list pystr) : M Namespace :=
  let items := classify argv in
  if existsb is_ambiguous items then parser_error
  else if existsb is_outside items then raise NotModelled
  else consume items default_namespace false.

(** ** run.py *)

Definition instructions_research : string :=
"
+----------------------------------------------------------------------+
|  PHASE 1: RESEARCH                                                   |
+----------------------------------------------------------------------+
|  Skill: skills/research/SKILL.md                                     |
|                                                                      |
|  Tasks:                                                              |
|  1. Search literature for each construct in the theme                |
|  2. Gather instrument specifications                                 |
|  3. Build bibliography (25-40 recent sources)                        |
|  4. Document expected relationships between constructs               |
|                                                                      |
|  Outputs:                                                            |
|  - outputs/research/literature_review.md                             |
|  - outputs/research/constructs.json                                  |
|  - outputs/research/instruments_detailed.json                        |
|  - outputs/research/bibliography.json                                |
+----------------------------------------------------------------------+
".

Definition instructions_feasibility_research : string :=
"
+----------------------------------------------------------------------+
|  PHASE 2: FEASIBILITY - RESEARCH DIRECTION                           |
+----------------------------------------------------------------------+
|  Skill: skills/feasibility-research/SKILL.md                         |
|                                                                      |
|  CHECKPOINT: Discover the most scientifically relevant direction.    |
|                                                                      |
|  Tasks:                                                              |
|  1. Map established vs. novel findings                               |
|  2. Identify gaps and opportunities                                  |
|  3. Evaluate hypothesis options (novelty, feasibility, interest)     |
|  4. Recommend optimal research direction                             |
|                                                                      |
|  Outputs:                                                            |
|  - outputs/feasibility/research_landscape.json                       |
|  - outputs/feasibility/direction_recommendation.md                   |
|  - outputs/feasibility/feasibility_matrix.md                         |
|                                                                      |
|  >> Review direction_recommendation.md before proceeding! <<         |
+----------------------------------------------------------------------+
".

Definition instructions_simulate : string :=
"
+----------------------------------------------------------------------+
|  PHASE 3: DATA SIMULATION                                            |
+----------------------------------------------------------------------+
|  Skill: skills/data-simulator/SKILL.md                               |
|                                                                      |
|  Tasks:                                                              |
|  1. Load instrument specs and refined hypotheses                     |
|  2. Generate demographics (Romanian sample by default)               |
|  3. Simulate responses with embedded correlations                    |
|  4. Compute subscale scores                                          |
|                                                                      |
|  Outputs:                                                            |
|  - outputs/data/demographics.csv                                     |
|  - outputs/data/responses_raw.csv                                    |
|  - outputs/data/responses_coded.xlsx                                 |
|  - outputs/data/simulation_parameters.json                           |
+----------------------------------------------------------------------+
".

Definition instructions_feasibility_data : string :=
"
+----------------------------------------------------------------------+
|  PHASE 4: FEASIBILITY - DATA VALIDATION                              |
+----------------------------------------------------------------------+
|  Skill: skills/feasibility-data/SKILL.md                             |
|                                                                      |
|  CHECKPOINT: Validate data quality before full analysis.             |
|                                                                      |
|  Tasks:                                                              |
|  1. Check if target correlations were achieved                       |
|  2. Verify scale reliability (alpha >= 0.70)                         |
|  3. Assess statistical power for planned tests                       |
|  4. Flag distribution problems                                       |
|                                                                      |
|  Outputs:                                                            |
|  - outputs/feasibility/data_quality.json                             |
|  - outputs/feasibility/data_feasibility_report.md                    |
|                                                                      |
|  Decision:                                                           |
|  - PROCEED: All checks pass                                          |
|  - CAUTION: Minor issues, note limitations                           |
|  - REGENERATE: Critical issues, return to Phase 3                    |
+----------------------------------------------------------------------+
".

Definition instructions_analyze : string :=
"
+----------------------------------------------------------------------+
|  PHASE 5: DATA ANALYSIS                                              |
+----------------------------------------------------------------------+
|  Skill: skills/data-analysis/SKILL.md                                |
|                                                                      |
|  Tasks:                                                              |
|  1. Compute descriptive statistics                                   |
|  2. Test hypotheses (correlations, t-tests, ANOVA)                   |
|  3. Calculate reliability (Cronbach's alpha)                         |
|  4. Generate visualizations                                          |
|                                                                      |
|  Outputs:                                                            |
|  - outputs/analysis/descriptive_stats.json                           |
|  - outputs/analysis/hypothesis_tests.json                            |
|  - outputs/analysis/reliability.json                                 |
|  - outputs/analysis/figures/*.png                                    |
|  - outputs/analysis/tables/*.md                                      |
+----------------------------------------------------------------------+
".

Definition instructions_write : string :=
"
+----------------------------------------------------------------------+
|  PHASE 6: THESIS WRITING                                             |
+----------------------------------------------------------------------+
|  Skill: skills/thesis-writer/SKILL.md                                |
|                                                                      |
|  Tasks:                                                              |
|  1. Compose Introduction                                             |
|  2. Write Chapter 1 (Theory) from literature_review.md               |
|  3. Write Chapter 2 (Methods) from instruments_detailed.json         |
|  4. Write Chapter 3 (Results) from analysis outputs                  |
|  5. Write Chapter 4 (Conclusions)                                    |
|  6. Generate Abstract                                                |
|  7. Assemble final document                                          |
|                                                                      |
|  Outputs:                                                            |
|  - outputs/thesis/chapters/*.md                                      |
|  - outputs/thesis/thesis_draft.docx                                  |
+----------------------------------------------------------------------+
".

Definition workflow_head : string :=
"
+======================================================================+
|  THESIS DRAFT GENERATOR                                              |
+======================================================================+
|  Theme: ".

Definition workflow_tail : string :=
" |
+----------------------------------------------------------------------+
|  WORKFLOW (6 phases with 2 feasibility checkpoints):                 |
|                                                                      |
|  Phase 1: RESEARCH              -> Gather literature & instruments   |
|  Phase 2: FEASIBILITY-RESEARCH  -> Discover best direction [CHECK]   |
|  Phase 3: SIMULATE              -> Generate realistic data           |
|  Phase 4: FEASIBILITY-DATA      -> Validate data quality [CHECK]     |
|  Phase 5: ANALYZE               -> Statistical analysis              |
|  Phase 6: WRITE                 -> Compose thesis chapters           |
|                                                                      |
|  Execute phases sequentially. Review checkpoints before proceeding.  |
+======================================================================+
".

(** The table of [print_phase_instructions]. *)
Definition instructions : list (pystr * pystr) :=
  [(str "research", str instructions_research);
   (str "feasibility-research", str instructions_feasibility_research);
   (str "simulate", str instructions_simulate);
   (str "feasibility-data", str instructions_feasibility_data);
   (str "analyze", str instructions_analyze);
   (str "write", str instructions_write)].

(** [instructions.get(phase, default)] on the table *)
Fixpoint table_get (table : list (pystr * pystr)) (key default : pystr) : pystr :=
  match table with
  | [] => default
  | (k, v) :: r => if pystr_eqb k key then v else table_get r key default
  end.

Definition print_phase_instructions (phase : pystr) : M unit :=
  print (table_get instructions phase (str "Unknown phase: " ++ phase)).

Definition print_full_workflow (config : value) : M unit :=
  theme_field <- lift (let* t := getitem config (str "theme") in
                       let* t56 := slice_to 56 t in
                       format_left 56 t56) ;;
  instruments_field <- lift (let* i := getitem config (str "instruments") in
                             let* joined := join_value (str ", ") i in
                             format_left 52 (PyStr joined)) ;;
  sample_field <- lift (let* n := getitem config (str "sample_size") in
                        format_left 53 n) ;;
  print (str workflow_head ++ theme_field
         ++ str " |
|  Instruments: " ++ instruments_field
         ++ str " |
|  Sample Size: " ++ sample_field
         ++ str workflow_tail).

(** The [--status] report of [main] for a configuration. *)
Definition print_status (config : value) : M unit :=
  print (str "
Current configuration:") ;;
  theme_text <- lift (let* t := getitem config (str "theme") in str_of t) ;;
  print (str "  Theme: " ++ theme_text) ;;
  instruments_text <- lift (let* i := getitem config (str "instruments") in
                            join_value (str ", ") i) ;;
  print (str "  Instruments: " ++ instruments_text) ;;
  sample_text <- lift (let* n := getitem config (str "sample_size") in str_of n) ;;
  print (str "  Sample: " ++ sample_text) ;;
  print (str "
Phase status:") ;;
  for_ PHASES (fun phase =>
    status <- lift (let* phases := get config (str "phases") (PyDict []) in
                    let* entry := get phases phase (PyDict []) in
                    get entry (str "status") (PyStr (str "unknown"))) ;;
    let marker := if eq_str status (str "pending") then str "  " else str "* " in
    status_text <- lift (str_of status) ;;
    print (str "  " ++ marker ++ phase ++ str ": " ++ status_text)).

Section Run.

(** The directory of run.py, and how the operating system resolves a
    path string given on the command line. *)
Variable REPO_ROOT : path.
Variable resolve : pystr -> path.

Definition INPUTS_DIR : path := pjoin REPO_ROOT ["inputs"%string].
Definition OUTPUTS_DIR : path := pjoin REPO_ROOT ["outputs"%string].

Definition config_path : path := pjoin INPUTS_DIR ["config.json"%string].

Definition setup_directories : M unit :=
  for_ [["research"]; ["feasibility"]; ["data"]; ["analysis"]; ["thesis"; "chapters"]]%string
       (fun subdir => Path_mkdir true true (pjoin OUTPUTS_DIR subdir)) ;;
  Path_mkdir false true INPUTS_DIR.

Definition create_config (theme : pystr) (instruments : list pystr) (sample_size : Z)
  : M value :=
  now <- datetime_now ;;
  ret (PyDict (dict_of_pairs
    [(str "theme", PyStr theme);
     (str "instruments", PyList (map PyStr instruments));
     (str "sample_size", PyInt sample_size);
     (str "created", PyStr (isoformat now));
     (str "phases",
      PyDict (dict_of_pairs
        (map (fun phase => (phase, PyDict (dict_of_pairs [(str "status", PyStr (str "pending"))])))
             PHASES)))])).

Definition save_config (config : value) : M unit :=
  write_text config_path (dumps config) ;;
  print (str "Configuration saved to " ++ path_str config_path).

Definition load_config : M value :=
  found <- exists_ config_path ;;
  if negb found then
    raise (FileNotFoundError
             (str "No configuration found at " ++ path_str config_path
              ++ str ". Run with --theme and --instruments first."))
  else
    text <- read_text config_path ;;
    lift (loads text).

(** What [str(e)] is for an exception the program raises itself; the
    text of an error of the operating system is not modelled. *)
Definition exn_str (e : exn) : result pystr :=
  match e with
  | FileNotFoundError msg => Ok msg
  | _ => Raise NotModelled
  end.

(** The hint [main] prints when [load_config] finds no file. *)
Definition init_hint : pystr :=
  str "  python run.py --theme " ++ [QUOTE] ++ str "Your Theme" ++ [QUOTE]
  ++ str " --instruments " ++ [QUOTE] ++ str "SCALE1,SCALE2" ++ [QUOTE].

(** [main], "Handle configuration": the configuration the run works
    with, [None] when there is none and only the status was asked for. *)
Definition handle_configuration (args : Namespace) : M value :=
  if truthy_opt args.(theme) && truthy_opt args.(instruments) then
    config <- create_config (default [] args.(theme))
                (parse_instruments (default [] args.(instruments)))
                args.(sample) ;;
    save_config config ;;
    ret config
  else if truthy_opt args.(config) then
    text <- read_text (resolve (default [] args.(config))) ;;
    lift (loads text)
  else
    try_except load_config (fun e =>
      match e with
      | FileNotFoundError _ | OSError ENOENT =>
          Some (if negb args.(status) then
                  msg <- lift (exn_str e) ;;
                  print (str "Error: " ++ msg) ;;
                  print (str "
Run with --theme and --instruments to initialize:") ;;
                  print init_hint ;;
                  raise (SystemExit 1)
                else ret PyNone)
      | _ => None
      end).

(** [main], "Execute requested action". *)
Definition execute_action (args : Namespace) (config : value) : M unit :=
  if args.(status) then
    if truthy config then print_status config
    else print (str "No configuration found. Initialize with --theme and --instruments.")
  else if truthy_opt args.(phase) then
    print_phase_instructions (default [] args.(phase))
  else if args.(full) || truthy config then
    print_full_workflow config ;;
    print (str "
To execute a phase, run:") ;;
    for_ PHASES (fun phase => print (str "  python run.py --phase " ++ phase))
  else print_help.

(** [main] after [parser.parse_args()] *)
Definition main_body (args : Namespace) : M unit :=
  setup_directories ;;
  config <- handle_configuration args ;;
  execute_action args config.

Definition main (argv : list pystr) : M unit :=
  args <- parse_args argv ;;
  main_body args.

End Run.

(** The exit status of the process: zero when [main] returns, the code
    of [sys.exit], one after any other uncaught exception. *)
Definition exit_status (r : result unit) : Z :=
  match r with
  | Ok _ => 0
  | Raise (SystemExit code) => code
  | Raise _ => 1
  end.

(** ** Well-formed values

    A code point lies between 0 and 0x10FFFF.  Python strings may hold
    surrogate code points; the JSON text cannot tell a high surrogate
    followed by a low surrogate from the one character the two encode. *)

Definition valid_char (c : Z) : bool := (0 <=? c) && (c <=? 1114111).

Definition high_surrogate (c : Z) : bool := (55296 <=? c) && (c <=? 56319).

Definition low_surrogate (c : Z) : bool := (56320 <=? c) && (c <=? 57343).

(** No high surrogate stands immediately before a low surrogate. *)
Fixpoint no_surrogate_pair (s : pystr) : bool :=
  match s with
  | c :: r =>
      match r with
      | d :: _ => negb (high_surrogate c && low_surrogate d)
      | [] => true
      end && no_surrogate_pair r
  | [] => true
  end.

Definition wf_str (s : pystr) : bool := forallb valid_char s && no_surrogate_pair s.

(** The keys of a dict are distinct, and all strings are well formed. *)
Fixpoint wf_value (v : value) : Prop :=
  match v with
  | PyNone | PyBool _ | PyInt _ => True
  | PyStr s => wf_str s = true
  | PyList l => (fix all (l : list value) : Prop :=
                   match l with
                   | [] => True
                   | x :: r => wf_value x /\ all r
                   end) l
  | PyDict d => NoDup (map fst d) /\
                (fix all (d : list (pystr * value)) : Prop :=
                   match d with
                   | [] => True
                   | (k, x) :: r => wf_str k = true /\ wf_value x /\ all r
                   end) d
  end.

(** The number of nodes of a value. *)
Fixpoint size (v : value) : nat :=
  match v with
  | PyList l => S ((fix sum (l : list value) : nat :=
                      match l with
                      | [] => O
                      | x :: r => (size x + sum r)%nat
                      end) l)
  | PyDict d => S ((fix sum (d : list (pystr * value)) : nat :=
                      match d with
                      | [] => O
                      | (_, x) :: r => (size x + sum r)%nat
                      end) d)
  | _ => 1%nat
  end.

(** What may follow a value in the text the encoder writes: the end, a
    comma or a line break. *)
Definition delimited (rest : pystr) : Prop :=
  match rest with
  | [] => True
  | c :: _ => c = COMMA \/ c = NEWLINE
  end.

(** The items of a list after the first, and the pairs of a dict after
    the first, as [iterencode] writes them. *)
Definition encode_items (level : nat) (l : list value) : pystr :=
  flat_map (fun v => COMMA :: newline_indent (S level) ++ iterencode v (S level)) l.

Definition encode_pair (level : nat) (kv : pystr * value) : pystr :=
  encode_basestring_ascii kv.1 ++ [58; SPACE] ++ iterencode kv.2 (S level).

Definition encode_pairs (level : nat) (d : list (pystr * value)) : pystr :=
  flat_map (fun kv => COMMA :: newline_indent (S level) ++ encode_pair level kv) d.

(** The record [create_config] builds. *)
Definition config_record (theme : pystr) (instruments : list pystr)
    (sample_size : Z) (now : datetime) : value :=
  PyDict
    [(str "theme", PyStr theme);
     (str "instruments", PyList (map PyStr instruments));
     (str "sample_size", PyInt sample_size);
     (str "created", PyStr (isoformat now));
     (str "phases",
      PyDict (map (fun phase => (phase, PyDict [(str "status", PyStr (str "pending"))]))
                  PHASES))].

Definition is_ascii (c : Z) : bool := (0 <=? c) && (c <? 128).

(** ** A concrete world for the examples

    run.py lies in [/home/paper-writer], the input directory exists and
    no configuration has been saved. *)

Definition example_root : path := ["paper-writer"; "home"]%string.

Definition example_clock : datetime :=
  {| year := 2024; month := 5; day := 17;
     hour := 9; minute := 30; second := 0; microsecond := 0 |}.

Definition example_files : FS :=
  <[ ["inputs"; "paper-writer"; "home"]%string := Dir ]>
    (<[ ["paper-writer"; "home"]%string := Dir ]>
       (<[ ["home"]%string := Dir ]> ∅)).

Definition example_world : world := World example_files [] example_clock.

(** An empty disk: only the root directory exists. *)
Definition empty_world : world := World ∅ [] example_clock.

(** A path that is neither a directory nor missing: a file is in the
    way, at the path or above it. *)
Definition blocked (s : stat_result) : Prop := s <> StDir /\ s <> StErr ENOENT.

(** Only the file tree of the world differs. *)
Definition same_but_files (w w' : world) : Prop :=
  w'.(output) = w.(output) /\ w'.(clock) = w.(clock).

(** What a call of [Path.mkdir] with [exist_ok] leaves behind: the tree
    has only grown; after a success the path is a directory, after a
    failure something that is not a directory is in the way. *)
Definition mkdir_post (p : path) (w : world) (r : result unit) (w' : world) : Prop :=
  w.(files) ⊆ w'.(files) /\ same_but_files w w' /\
  (r = Ok tt -> stat w'.(files) p = StDir) /\
  (r <> Ok tt -> blocked (stat w'.(files) p)).

(** The output subdirectories [setup_directories] makes. *)
Definition output_subdirs : list (list string) :=
  [["research"]; ["feasibility"]; ["data"]; ["analysis"]; ["thesis"; "chapters"]]%string.

(** Every directory of [setup_directories] exists. *)
Definition directories_exist (REPO_ROOT : path) (w : world) : Prop :=
  Forall (fun subdir => stat w.(files) (pjoin (OUTPUTS_DIR REPO_ROOT) subdir) = StDir)
         output_subdirs /\
  stat w.(files) (INPUTS_DIR REPO_ROOT) = StDir.

(** The message of the exception [load_config] raises. *)
Definition not_found_message (REPO_ROOT : path) : pystr :=
  str "No configuration found at " ++ path_str (config_path REPO_ROOT)
  ++ str ". Run with --theme and --instruments first.".


(** The lines [main] prints after the overview. *)
Definition phase_commands : M unit :=
  print (str "
To execute a phase, run:") ;;
  for_ PHASES (fun phase => print (str "  python run.py --phase " ++ phase)).


(** The overview [print_full_workflow] prints, given the three fields as
    they are displayed. *)
Definition workflow_text (theme_field instruments_field sample_field : pystr) : pystr :=
  str workflow_head ++ theme_field
  ++ str " |
|  Instruments: " ++ instruments_field
  ++ str " |
|  Sample Size: " ++ sample_field
  ++ str workflow_tail.

(** A computation that at most writes to the output. *)
Definition output_only {A} (m : M A) : Prop :=
  forall w, (m w).2.(files) = w.(files) /\ (m w).2.(clock) = w.(clock).

(** The arguments with the theme and the instruments left out. *)
Definition without_theme (args : Namespace) : Namespace :=
  {| theme := None; instruments := None; sample := args.(sample);
     phase := args.(phase); full := args.(full); status := args.(status);
     config := args.(config) |}.


(** The text after a [\uXXXX] escape does not start with an escape the
    decoder would join to it. *)
Definition no_low_escape (t : pystr) : Prop :=
  match t with
  | b1 :: u1 :: a2 :: b2 :: c2 :: d2 :: _ =>
      b1 = BACKSLASH -> u1 = 117 ->
      exists uni2, decode_uXXXX a2 b2 c2 d2 = Some uni2 /\ low_surrogate uni2 = false
  | _ => True
  end.

(** The text after a number literal cannot continue it: it does not start
    with a digit, a point or an exponent mark. *)
Definition ends_number (rest : pystr) : Prop :=
  match rest with
  | [] => True
  | c :: _ => is_digit c = false /\ c <> 46 /\ c <> 101 /\ c <> 69
  end.


(** ** Further notions for the properties *)

(** *** What the interpreter refuses

    The model's [print] writes every text, its JSON encoder writes every
    value and its decoder reads every nesting.  CPython does not: a
    standard output in UTF-8 cannot encode a surrogate code point
    ([print] raises UnicodeEncodeError), an integer of more than 4300
    digits is neither written nor read as decimal text (ValueError), and
    the JSON encoder and decoder stop at the recursion limit of 1000
    frames (RecursionError); the encoder that [json.dump] uses with an
    indent takes two frames for each list or object inside another, so
    a hundred levels of nesting are well within it.  The properties of
    what is printed, written and read are stated for texts and values
    within these limits. *)

Definition surrogate (c : Z) : bool := (55296 <=? c) && (c <=? 57343).

(** A text a standard output in UTF-8 can encode. *)
Definition encodable (s : pystr) : bool :=
  forallb (fun c => valid_char c && negb (surrogate c)) s.

(** An integer whose decimal notation CPython converts. *)
Definition short_int (n : Z) : bool := (length (int_repr n) <=? 4300)%nat.

(** How deep lists and objects are nested in a value. *)
Fixpoint nesting (v : value) : nat :=
  match v with
  | PyList l => S ((fix deepest (l : list value) : nat :=
                      match l with
                      | [] => O
                      | x :: r => Nat.max (nesting x) (deepest r)
                      end) l)
  | PyDict d => S ((fix deepest (d : list (pystr * value)) : nat :=
                      match d with
                      | [] => O
                      | (_, x) :: r => Nat.max (nesting x) (deepest r)
                      end) d)
  | _ => O
  end.

Fixpoint short_ints (v : value) : bool :=
  match v with
  | PyInt n => short_int n
  | PyList l => (fix all (l : list value) : bool :=
                   match l with
                   | [] => true
                   | x :: r => short_ints x && all r
                   end) l
  | PyDict d => (fix all (d : list (pystr * value)) : bool :=
                   match d with
                   | [] => true
                   | (_, x) :: r => short_ints x && all r
                   end) d
  | _ => true
  end.

(** A value the JSON encoder writes and the decoder reads back: nested
    at most 100 deep, every integer of at most 4300 characters. *)
Definition within_limits (v : value) : bool :=
  (nesting v <=? 100)%nat && short_ints v.

(** The directories [setup_directories] asks for. *)
Definition bootstrap_paths (REPO_ROOT : path) : list path :=
  INPUTS_DIR REPO_ROOT :: map (pjoin (OUTPUTS_DIR REPO_ROOT)) output_subdirs.

(** Between two file trees, a path that was absent and now is a
    directory. *)
Definition new_directory (fs fs' : FS) (p : path) : Prop :=
  fs !! p = None /\ fs' !! p = Some Dir.

(** The tree has changed only by new directories. *)
Definition only_new_directories (fs fs' : FS) : Prop :=
  forall p, fs' !! p = fs !! p \/ new_directory fs fs' p.

(** How [parse_args] can end from the world [w]: with a namespace, the
    world untouched and the phase, when given, one of the six; or with
    the help (exit status 0) or a usage error (exit status 2), which is
    then all that was written.  [NotModelled] marks the argument strings
    this model of argparse leaves out. *)
Definition parse_outcome (w : world) (res : result Namespace * world) : Prop :=
  match res with
  | (Ok ns, w') => w' = w /\ forall p, ns.(phase) = Some p -> In p PHASES
  | (Raise e, w') =>
      e = SystemExit 0 /\ w' = emit PrintHelp w \/
      e = SystemExit 2 /\ w' = emit PrintUsageError w \/
      e = NotModelled /\ w' = w
  end.

(** An argument string the parser takes as the value of an option: not
    empty, and not starting with a dash. *)
Definition plain_argument (s : pystr) : bool :=
  match s with
  | c :: _ => negb (c =? 45)
  | [] => false
  end.

(** The lines [main] prints after the overview. *)
Definition phase_command_lines : list event :=
  Print (str "
To execute a phase, run:")
  :: map (fun phase => Print (str "  python run.py --phase " ++ phase)) PHASES.

(** One line of the status report: two more spaces before a pending
    phase, a star and a space before any other. *)
Definition status_line (phase status : pystr) : event :=
  Print (str "  " ++ (if pystr_eqb status (str "pending") then str "  " else str "* ")
         ++ phase ++ str ": " ++ status).

(** The status report, given the three fields as text and the status of
    each phase in the order of [PHASES]. *)
Definition status_report (theme_text instruments_text sample_text : pystr)
    (statuses : list pystr) : list event :=
  [Print (str "
Current configuration:");
   Print (str "  Theme: " ++ theme_text);
   Print (str "  Instruments: " ++ instruments_text);
   Print (str "  Sample: " ++ sample_text);
   Print (str "
Phase status:")]
  ++ zip_with status_line PHASES statuses.

(** A configuration record whose phases have the given statuses, in the
    order of [PHASES]. *)
Definition record_with_statuses (theme : pystr) (instruments : list pystr)
    (sample_size : Z) (created : pystr) (statuses : list pystr) : value :=
  PyDict
    [(str "theme", PyStr theme);
     (str "instruments", PyList (map PyStr instruments));
     (str "sample_size", PyInt sample_size);
     (str "created", PyStr created);
     (str "phases",
      PyDict (zip_with (fun phase status => (phase, PyDict [(str "status", PyStr status)]))
                       PHASES statuses))].

(** A well-formed file tree: every entry lies in a directory. *)
Definition fs_wf (fs : FS) : Prop :=
  forall name parent n, fs !! (name :: parent) = Some n -> stat fs parent = StDir.
(** * Properties *)

(** *** Facts about split and strip *)

Lemma split_nonempty sep s : split sep s <> [].
Proof. destruct s as [|c r]; simpl; [done|]. case (c =? sep); [done|]. by destruct (split sep r). Qed.

Lemma join_cons sep p q ps : join sep (p :: q :: ps) = p ++ sep ++ join sep (q :: ps).
Proof. reflexivity. Qed.

Lemma join_split sep s : join [sep] (split sep s) = s.
Proof.
  induction s as [|c r IH]; simpl; [done|].
  pose proof (split_nonempty sep r) as Hn.
  destruct (split sep r) as [|w ws] eqn:E; [done|].
  destruct (Z.eqb_spec c sep) as [->|Hne].
  - rewrite join_cons, IH. reflexivity.
  - destruct ws as [|w' ws].
    + simpl in *. by rewrite IH.
    + rewrite join_cons. rewrite join_cons in IH. rewrite <- IH. reflexivity.
Qed.

Lemma split_no_sep sep s : Forall (fun p => ~ In sep p) (split sep s).
Proof.
  induction s as [|c r IH]; simpl.
  - constructor; [|constructor]. intros [].
  - destruct (Z.eqb_spec c sep) as [->|Hne].
    + constructor; [intros []|done].
    + destruct (split sep r) as [|w ws]; [repeat constructor; intros [?|[]]; congruence|].
      inversion IH; subst. constructor; [|done].
      intros [?|?]; [congruence|done].
Qed.

Lemma split_length sep s :
  length (split sep s) = S (count_occ Z.eq_dec s sep).
Proof.
  induction s as [|c r IH]; [done|].
  pose proof (split_nonempty sep r) as Hn.
  cbn [split count_occ].
  destruct (Z.eqb_spec c sep) as [->|Hne].
  - destruct (Z.eq_dec sep sep); [|done]. cbn [length]. by rewrite IH.
  - destruct (Z.eq_dec c sep); [done|].
    destruct (split sep r) as [|w ws]; [done|]. exact IH.
Qed.

Lemma lstrip_spec s :
  exists l, s = l ++ lstrip s /\ forallb isspace l = true /\
            (forall c r, lstrip s = c :: r -> isspace c = false).
Proof.
  induction s as [|c r (l & Hs & Hl & Hhd)]; simpl.
  - exists []. split_and!; [done|done|]. intros ?? [=].
  - destruct (isspace c) eqn:Ec.
    + exists (c :: l). split_and!; [by rewrite <- app_comm_cons, <- Hs| |done].
      simpl. by rewrite Ec, Hl.
    + exists []. split_and!; [done|done|]. by intros ?? [= <- <-].
Qed.

(** [strip] takes white space, and only white space, off both ends. *)
Lemma strip_spec s :
  exists l r, s = l ++ strip s ++ r /\
    forallb isspace l = true /\ forallb isspace r = true /\
    (forall c t, strip s = c :: t -> isspace c = false) /\
    (forall c t, strip s = t ++ [c] -> isspace c = false).
Proof.
  destruct (lstrip_spec s) as (l & Hs & Hl & Hhd).
  destruct (lstrip_spec (rev (lstrip s))) as (r' & Hr & Hr' & Htl).
  exists l, (rev r'). unfold strip, rstrip.
  assert (Hm : lstrip s = rev (lstrip (rev (lstrip s))) ++ rev r').
  { rewrite <- rev_app_distr, <- Hr. by rewrite rev_involutive. }
  split_and!.
  - by rewrite <- Hm.
  - done.
  - rewrite forallb_forall in *. intros x Hx. apply Hr'. by apply in_rev.
  - intros c t Ht. rewrite Ht in Hm. simpl in Hm. by apply (Hhd c (t ++ rev r')).
  - intros c t Ht. apply (Htl c (rev t)).
    rewrite <- (rev_involutive (lstrip (rev (lstrip s)))), Ht.
    by rewrite rev_app_distr.
Qed.

(** C7. [parse_instruments] splits its input on commas and strips the
    white space around each token, keeping order and duplicates:
    the example of the specification, a repeated name, and for every input
    the pieces between the commas (which joined by commas give the input
    back, none holding a comma, one more than there are commas), each
    answered in place by the piece with white space, and only white space,
    taken off both ends. *)
Theorem parse_instruments_spec :
  parse_instruments (str "A, B ,C") = [str "A"; str "B"; str "C"] /\
  parse_instruments (str "A,B,A") = [str "A"; str "B"; str "A"] /\
  forall s : pystr,
    exists pieces : list pystr,
      join [COMMA] pieces = s /\
      Forall (fun p => ~ In COMMA p) pieces /\
      length pieces = S (count_occ Z.eq_dec s COMMA) /\
      Forall2 (fun p t =>
                 exists l r, p = l ++ t ++ r /\
                   forallb isspace l = true /\ forallb isspace r = true /\
                   (forall c u, t = c :: u -> isspace c = false) /\
                   (forall c u, t = u ++ [c] -> isspace c = false))
              pieces (parse_instruments s).
Proof.
  split_and!; [reflexivity|reflexivity|].
  intros s. exists (split COMMA s). split_and!.
  - apply join_split.
  - apply split_no_sep.
  - apply split_length.
  - unfold parse_instruments. induction (split COMMA s) as [|p ps IH]; simpl.
    + constructor.
    + constructor; [apply strip_spec|exact IH].
Qed.

(** ** The JSON round trip *)

(** *** Strings *)

Lemma hex_value_digit n : 0 <= n < 16 -> hex_value (hex_digit n) = Some n.
Proof.
  intros H. unfold hex_digit, hex_value.
  destruct (Z.ltb_spec n 10).
  - replace ((48 <=? 48 + n) && (48 + n <=? 57)) with true by lia. f_equal. lia.
  - replace ((48 <=? 87 + n) && (87 + n <=? 57)) with false by lia.
    replace ((97 <=? 87 + n) && (87 + n <=? 102)) with true by lia. f_equal. lia.
Qed.

Lemma decode_u_escape n :
  0 <= n < 65536 ->
  decode_uXXXX (hex_digit (n / 4096 mod 16)) (hex_digit (n / 256 mod 16))
               (hex_digit (n / 16 mod 16)) (hex_digit (n mod 16)) = Some n.
Proof.
  intros H. unfold decode_uXXXX.
  rewrite !hex_value_digit by (apply Z.mod_pos_bound; lia).
  f_equal. Z.div_mod_to_equations. lia.
Qed.

Lemma lor_add_disjoint a b : 0 <= b < 1024 -> Z.lor (a * 1024) b = a * 1024 + b.
Proof.
  intros H.
  assert (Hland : Z.land (a * 1024) b = 0).
  { apply Z.bits_inj'. intros i Hi. rewrite Z.land_spec, Z.bits_0.
    destruct (Z.ltb_spec i 10).
    - change 1024 with (2 ^ 10). by rewrite Z.mul_pow2_bits_low by lia.
    - destruct (Z.eq_dec b 0) as [->|Hb]; [by rewrite Z.bits_0, andb_false_r|].
      rewrite (Z.bits_above_log2 b i); [apply andb_false_r|lia|].
      assert (Z.log2 b < 10) by (apply Z.log2_lt_pow2; lia). lia. }
  rewrite <- Z.lxor_lor by exact Hland. symmetry. by apply Z.add_nocarry_lxor.
Qed.

(** The two escapes the encoder writes for a character above the basic
    plane, and the character the decoder joins them into. *)
Lemma surrogates_of n :
  0 <= n < 1048576 ->
  Z.lor 55296 (Z.land (Z.shiftr n 10) 1023) = 55296 + n / 1024 /\
  Z.lor 56320 (Z.land n 1023) = 56320 + n mod 1024.
Proof.
  intros H.
  change 1023 with (Z.ones 10). rewrite !Z.land_ones, Z.shiftr_div_pow2 by lia.
  change (2 ^ 10) with 1024.
  assert (0 <= n / 1024 < 1024) by (Z.div_mod_to_equations; lia).
  rewrite (Z.mod_small (n / 1024)) by lia.
  change 55296 with (54 * 1024). change 56320 with (55 * 1024).
  rewrite !lor_add_disjoint; [done|apply Z.mod_pos_bound; lia|lia].
Qed.

Lemma join_surrogates n :
  0 <= n < 1048576 ->
  65536 + Z.lor (Z.shiftl (55296 + n / 1024 - 55296) 10) (56320 + n mod 1024 - 56320)
  = 65536 + n.
Proof.
  intros H. rewrite Z.shiftl_mul_pow2 by lia. change (2 ^ 10) with 1024.
  replace (56320 + n mod 1024 - 56320) with (n mod 1024) by lia.
  rewrite lor_add_disjoint by (apply Z.mod_pos_bound; lia).
  Z.div_mod_to_equations. lia.
Qed.

Lemma valid_char_range c : valid_char c = true <-> 0 <= c <= 1114111.
Proof. unfold valid_char. lia. Qed.

(** The four shapes of an escaped character. *)
Lemma escape_char_cases c :
  valid_char c = true ->
  (exists esc, escape_char c = [BACKSLASH; esc] /\ esc <> 117 /\ unescape esc = Some c)
  \/ (escape_char c = [c] /\ c <> QUOTE /\ c <> BACKSLASH /\ 32 <= c)
  \/ (escape_char c = u_escape c /\ 0 <= c < 65536)
  \/ (escape_char c = u_escape (55296 + (c - 65536) / 1024)
                      ++ u_escape (56320 + (c - 65536) mod 1024)
      /\ 65536 <= c <= 1114111).
Proof.
  intros Hv%valid_char_range. unfold escape_char, BACKSLASH, QUOTE.
  destruct (Z.eqb_spec c 92) as [->|?]; [left; by exists 92|].
  destruct (Z.eqb_spec c 34) as [->|?]; [left; by exists 34|].
  destruct (Z.eqb_spec c 8) as [->|?]; [left; by exists 98|].
  destruct (Z.eqb_spec c 12) as [->|?]; [left; by exists 102|].
  destruct (Z.eqb_spec c 10) as [->|?]; [left; by exists 110|].
  destruct (Z.eqb_spec c 13) as [->|?]; [left; by exists 114|].
  destruct (Z.eqb_spec c 9) as [->|?]; [left; by exists 116|].
  destruct ((32 <=? c) && (c <=? 126)) eqn:Hp.
  { right; left. split_and!; [done|done|done|lia]. }
  destruct (Z.ltb_spec c 65536).
  { right; right; left. split; [done|lia]. }
  right; right; right. split; [|lia].
  destruct (surrogates_of (c - 65536)) as [-> ->]; [lia|done].
Qed.

Lemma scanstring_plain c r :
  c <> QUOTE -> c <> BACKSLASH -> 32 <= c ->
  scanstring (c :: r) = cons_char c (scanstring r).
Proof.
  intros H1 H2 H3. simpl.
  destruct (Z.eqb_spec c QUOTE); [done|]. destruct (Z.eqb_spec c BACKSLASH); [done|].
  destruct (Z.ltb_spec c 32); [lia|done].
Qed.

Lemma scanstring_simple esc c r :
  esc <> 117 -> unescape esc = Some c ->
  scanstring (BACKSLASH :: esc :: r) = cons_char c (scanstring r).
Proof.
  intros H1 H2. cbn [scanstring]. change (BACKSLASH =? QUOTE) with false.
  change (BACKSLASH =? BACKSLASH) with true. cbv iota.
  destruct (Z.eqb_spec esc 117); [done|]. by rewrite H2.
Qed.

Lemma scanstring_u_single a b c d uni t :
  decode_uXXXX a b c d = Some uni ->
  (high_surrogate uni = true -> no_low_escape t) ->
  scanstring (BACKSLASH :: 117 :: a :: b :: c :: d :: t) = cons_char uni (scanstring t).
Proof.
  intros Hd Ht. cbn [scanstring]. change (BACKSLASH =? QUOTE) with false.
  change (BACKSLASH =? BACKSLASH) with true. change (117 =? 117) with true.
  cbv iota. rewrite Hd.
  destruct t as [|b1 [|u1 [|a2 [|b2 [|c2 [|d2 r3]]]]]]; try reflexivity.
  fold (high_surrogate uni). destruct (high_surrogate uni); [|reflexivity].
  specialize (Ht eq_refl). simpl in Ht.
  destruct (Z.eqb_spec b1 BACKSLASH); [|reflexivity].
  destruct (Z.eqb_spec u1 117); [|reflexivity].
  destruct Ht as (uni2 & -> & Hl); [done..|].
  cbn [andb]. fold (low_surrogate uni2). by rewrite Hl.
Qed.

Lemma scanstring_u_pair a b c d a2 b2 c2 d2 uni uni2 t :
  decode_uXXXX a b c d = Some uni -> high_surrogate uni = true ->
  decode_uXXXX a2 b2 c2 d2 = Some uni2 -> low_surrogate uni2 = true ->
  scanstring (BACKSLASH :: 117 :: a :: b :: c :: d
              :: BACKSLASH :: 117 :: a2 :: b2 :: c2 :: d2 :: t)
  = cons_char (65536 + Z.lor (Z.shiftl (uni - 55296) 10) (uni2 - 56320)) (scanstring t).
Proof.
  intros Hd Hh Hd2 Hl. cbn [scanstring]. change (BACKSLASH =? QUOTE) with false.
  change (BACKSLASH =? BACKSLASH) with true. change (117 =? 117) with true.
  cbv iota. rewrite Hd.
  fold (high_surrogate uni). rewrite Hh. cbn [andb]. rewrite Hd2.
  fold (low_surrogate uni2). by rewrite Hl.
Qed.

Lemma no_low_escape_tail s rest :
  forallb valid_char s = true ->
  (forall d s', s = d :: s' -> low_surrogate d = false) ->
  no_low_escape (flat_map escape_char s ++ QUOTE :: rest).
Proof.
  intros Hv Hlow. destruct s as [|d s'].
  - simpl. destruct rest as [|? [|? [|? [|? [|? ?]]]]]; try exact I. intros [=].
  - simpl in Hv. apply andb_prop in Hv as [Hd _].
    specialize (Hlow d s' eq_refl).
    cbn [flat_map]. rewrite <- app_assoc.
    set (t := flat_map escape_char s' ++ QUOTE :: rest).
    destruct (escape_char_cases d Hd)
      as [(esc & -> & Hesc & _)|[(-> & _ & Hb & _)|[(-> & Hr)|(-> & Hr)]]].
    + simpl. destruct t as [|? [|? [|? [|? ?]]]]; try exact I. by intros _ ?.
    + simpl. destruct t as [|? [|? [|? [|? [|? ?]]]]]; try exact I. by intros ?.
    + unfold u_escape. cbn [app no_low_escape]. intros _ _. exists d.
      split; [by apply decode_u_escape|done].
    + unfold u_escape. cbn [app no_low_escape]. intros _ _.
      exists (55296 + (d - 65536) / 1024).
      assert (0 <= (d - 65536) / 1024 < 1024) by (Z.div_mod_to_equations; lia).
      split; [apply decode_u_escape; lia|]. unfold low_surrogate. lia.
Qed.

(** The decoder reads back the string the encoder escaped. *)
Lemma scanstring_escape s rest :
  wf_str s = true ->
  scanstring (flat_map escape_char s ++ QUOTE :: rest) = Ok (s, rest).
Proof.
  unfold wf_str. intros [Hv Hp]%andb_prop. revert Hv Hp.
  induction s as [|c s IH]; intros Hv Hp; [reflexivity|].
  cbn [forallb] in Hv. apply andb_prop in Hv as [Hc Hv].
  cbn [no_surrogate_pair] in Hp. apply andb_prop in Hp as [Hpair Hp].
  specialize (IH Hv Hp).
  cbn [flat_map]. rewrite <- app_assoc.
  destruct (escape_char_cases c Hc)
    as [(esc & -> & Hesc & Hun)|[(-> & Hq & Hb & H32)|[(-> & Hr)|(-> & Hr)]]].
  - cbn [app]. rewrite (scanstring_simple esc c) by done. by rewrite IH.
  - cbn [app]. rewrite scanstring_plain by done. by rewrite IH.
  - unfold u_escape. cbn [app].
    rewrite (scanstring_u_single _ _ _ _ c); [by rewrite IH|by apply decode_u_escape|].
    intros Hh. apply no_low_escape_tail; [done|].
    intros d s' ->. rewrite Hh in Hpair. by destruct (low_surrogate d).
  - unfold u_escape. cbn [app].
    assert (0 <= (c - 65536) / 1024 < 1024) by (Z.div_mod_to_equations; lia).
    assert (0 <= (c - 65536) mod 1024 < 1024) by (apply Z.mod_pos_bound; lia).
    rewrite (scanstring_u_pair _ _ _ _ _ _ _ _ (55296 + (c - 65536) / 1024)
                               (56320 + (c - 65536) mod 1024)).
    + rewrite join_surrogates by lia. replace (65536 + (c - 65536)) with c by lia.
      by rewrite IH.
    + apply decode_u_escape; lia.
    + unfold high_surrogate; lia.
    + apply decode_u_escape; lia.
    + unfold low_surrogate; lia.
Qed.

(** *** Integers *)

Lemma uint_chars_digits u : forallb is_digit (uint_chars u) = true.
Proof. induction u; simpl; by rewrite ?IHu. Qed.

Lemma chars_uint_chars u : chars_uint (uint_chars u) = u.
Proof. induction u; simpl; by rewrite ?IHu. Qed.

Lemma take_digits_app ds rest :
  forallb is_digit ds = true -> has_digit rest = false ->
  take_digits (ds ++ rest) = (ds, rest).
Proof.
  intros Hds Hrest. induction ds as [|c ds IH].
  - destruct rest as [|c r]; [done|]. cbn [app take_digits].
    cbn [has_digit] in Hrest. by rewrite Hrest.
  - cbn [forallb] in Hds. apply andb_prop in Hds as [Hc Hds].
    cbn [app take_digits]. by rewrite Hc, IH.
Qed.

Lemma to_uint_unorm p : Decimal.unorm (Pos.to_uint p) = Pos.to_uint p.
Proof.
  rewrite <- DecimalPos.Unsigned.to_of, DecimalPos.Unsigned.of_to. reflexivity.
Qed.

(** The decimal notation of a positive number starts with a digit that
    is not zero. *)
Lemma to_uint_head p :
  exists c t, uint_chars (Pos.to_uint p) = c :: t /\ 49 <= c <= 57.
Proof.
  pose proof (to_uint_unorm p) as Hn.
  pose proof (DecimalPos.Unsigned.to_uint_nonzero p) as Hz.
  pose proof (DecimalPos.Unsigned.to_uint_nonnil p) as Hnil.
  destruct (Pos.to_uint p) as [|u|u|u|u|u|u|u|u|u|u] eqn:E.
  1: done.
  2-10: cbn [uint_chars]; eexists _, _; split; [reflexivity|lia].
  exfalso. unfold Decimal.unorm in Hn. cbn [Decimal.nzhead] in Hn.
  destruct (Decimal.nzhead u) eqn:Eu; try discriminate.
  - apply Hz. by injection Hn as <-.
  - exact (DecimalFacts.nzhead_nonzero _ _ Eu).
Qed.

Lemma delimited_ends_number rest : delimited rest -> ends_number rest.
Proof. destruct rest as [|c r]; [done|]. by intros [->| ->]. Qed.

Lemma number_frac_end rest : ends_number rest -> number_frac rest = (false, rest).
Proof.
  destruct rest as [|c r]; [done|]. intros (_ & H1 & _). cbn [number_frac].
  by destruct (Z.eqb_spec c 46).
Qed.

Lemma number_exp_end rest : ends_number rest -> number_exp rest = (false, rest).
Proof.
  destruct rest as [|c r]; [done|]. intros (_ & _ & H2 & H3). cbn [number_exp].
  destruct (Z.eqb_spec c 101); [done|]. by destruct (Z.eqb_spec c 69).
Qed.

Lemma has_digit_end rest : ends_number rest -> has_digit rest = false.
Proof. destruct rest as [|c r]; [done|]. by intros (? & _). Qed.

Lemma match_number_pos p rest (neg : bool) :
  ends_number rest ->
  match_number ((if neg then [45] else []) ++ uint_chars (Pos.to_uint p) ++ rest)
  = Some (IntLit (int_of_chars neg (uint_chars (Pos.to_uint p))), rest).
Proof.
  intros Hrest.
  destruct (to_uint_head p) as (c & t & E & Hc).
  pose proof (uint_chars_digits (Pos.to_uint p)) as Hds. rewrite E in *.
  cbn [forallb] in Hds. apply andb_prop in Hds as [_ Hds].
  assert (Hs : number_sign ((if neg then [45] else []) ++ (c :: t) ++ rest)
               = (neg, c :: t ++ rest)).
  { destruct neg; [reflexivity|]. cbn [app number_sign].
    by destruct (Z.eqb_spec c 45); [lia|]. }
  assert (Hi : number_integer (c :: t ++ rest) = Some (c :: t, rest)).
  { cbn [number_integer]. destruct (Z.eqb_spec c 48); [lia|].
    replace ((49 <=? c) && (c <=? 57)) with true by lia.
    by rewrite (take_digits_app t rest Hds (has_digit_end _ Hrest)). }
  unfold match_number. rewrite Hs, Hi, number_frac_end, number_exp_end by done.
  reflexivity.
Qed.

Lemma int_repr_head n :
  exists c t, int_repr n = c :: t /\ (c = 45 \/ 48 <= c <= 57).
Proof.
  unfold int_repr. destruct n as [|p|p]; cbn [Z.to_int].
  - exists 48, []. split; [reflexivity|lia].
  - destruct (to_uint_head p) as (c & t & -> & ?). exists c, t. split; [done|lia].
  - eexists _, _. split; [reflexivity|by left].
Qed.

Lemma match_number_int n rest :
  ends_number rest -> match_number (int_repr n ++ rest) = Some (IntLit n, rest).
Proof.
  intros Hrest. unfold int_repr. destruct n as [|p|p]; cbn [Z.to_int].
  - change (uint_chars Decimal.zero ++ rest) with (48 :: rest).
    unfold match_number.
    change (number_sign (48 :: rest)) with (false, 48 :: rest). cbv iota.
    change (number_integer (48 :: rest)) with (Some ([48], rest)). cbv iota.
    by rewrite number_frac_end, number_exp_end.
  - pose proof (match_number_pos p rest false Hrest) as Hm. cbn [app] in Hm.
    rewrite Hm. unfold int_of_chars.
    rewrite chars_uint_chars. do 3 f_equal.
    exact (DecimalZ.of_to (Z.pos p)).
  - pose proof (match_number_pos p rest true Hrest) as Hm. cbn [app] in Hm.
    cbn [app]. rewrite Hm. unfold int_of_chars.
    rewrite chars_uint_chars. do 3 f_equal.
    exact (DecimalZ.of_to (Z.neg p)).
Qed.

Lemma scan_once_int fuel n rest :
  ends_number rest -> scan_once (S fuel) (int_repr n ++ rest) = Ok (PyInt n, rest).
Proof.
  intros Hrest. pose proof (match_number_int n rest Hrest) as Hm.
  destruct (int_repr_head n) as (c & t & E & Hc). rewrite E in *.
  cbn [app] in *. cbn [scan_once].
  assert (c <> 110 /\ c <> 116 /\ c <> 102 /\ c <> QUOTE /\ c <> 123 /\ c <> 91)
    as (? & ? & ? & ? & ? & ?) by (unfold QUOTE; lia).
  destruct (Z.eqb_spec c QUOTE); [done|]. destruct (Z.eqb_spec c 123); [done|].
  destruct (Z.eqb_spec c 91); [done|].
  assert (Hp : forall x p r, x <> c -> strip_prefix (x :: p) (c :: r) = None).
  { intros x p r Hx. cbn [strip_prefix]. by destruct (Z.eqb_spec x c). }
  change (str "null") with (110 :: str "ull").
  change (str "true") with (116 :: str "rue").
  change (str "false") with (102 :: str "alse").
  rewrite !Hp by done. by rewrite Hm.
Qed.

(** *** Values *)

Lemma value_ind' (P : value -> Prop) :
  P PyNone -> (forall b, P (PyBool b)) -> (forall n, P (PyInt n)) ->
  (forall s, P (PyStr s)) ->
  (forall l, Forall P l -> P (PyList l)) ->
  (forall d, Forall (fun kv => P kv.2) d -> P (PyDict d)) ->
  forall v, P v.
Proof.
  intros HN HB HI HS HL HD. fix IH 1.
  intros [|b|n|s|l|d]; [exact HN|apply HB|apply HI|apply HS| |].
  - apply HL. induction l as [|x l IHl]; constructor; [apply IH|exact IHl].
  - apply HD. induction d as [|[k x] d IHd]; constructor; [apply IH|exact IHd].
Qed.

Lemma iterencode_list v vs level :
  iterencode (PyList (v :: vs)) level
  = [91] ++ newline_indent (S level) ++ iterencode v (S level)
    ++ encode_items level vs ++ newline_indent level ++ [93].
Proof.
  cbn [iterencode]. do 3 f_equal. f_equal.
  induction vs as [|x vs IH]; [reflexivity|].
  cbn [encode_items flat_map]. rewrite <- app_comm_cons, <- app_assoc.
  f_equal. f_equal. f_equal. exact IH.
Qed.

Lemma iterencode_dict k v kvs level :
  iterencode (PyDict ((k, v) :: kvs)) level
  = [123] ++ newline_indent (S level) ++ encode_pair level (k, v)
    ++ encode_pairs level kvs ++ newline_indent level ++ [125].
Proof.
  cbn [iterencode]. unfold encode_pair at 1. cbn [fst snd].
  rewrite <- !app_assoc. do 5 f_equal. f_equal.
  induction kvs as [|[k' x] kvs IH]; [reflexivity|].
  cbn [encode_pairs flat_map]. unfold encode_pair at 1. cbn [fst snd].
  rewrite IH. unfold encode_pairs.
  repeat (first [rewrite <- app_assoc | progress cbn [app]]). reflexivity.
Qed.

Lemma wf_value_list l : wf_value (PyList l) <-> Forall wf_value l.
Proof.
  cbn [wf_value]. induction l as [|x l IH].
  - split; [constructor|done].
  - rewrite Forall_cons, <- IH. reflexivity.
Qed.

Lemma wf_value_dict d :
  wf_value (PyDict d) <->
  NoDup (map fst d) /\ Forall (fun kv => wf_str kv.1 = true /\ wf_value kv.2) d.
Proof.
  cbn [wf_value]. apply and_iff_compat_l. induction d as [|[k x] d IH].
  - split; [constructor|done].
  - rewrite Forall_cons, <- IH. cbn [fst snd]. tauto.
Qed.

Lemma size_list l : size (PyList l) = S (list_sum (map size l)).
Proof. cbn [size]. f_equal. induction l as [|x l IH]; [done|]. cbn. by rewrite IH. Qed.

Lemma size_dict d : size (PyDict d) = S (list_sum (map (fun kv => size kv.2) d)).
Proof.
  cbn [size]. f_equal. induction d as [|[k x] d IH]; [done|]. cbn. by rewrite IH.
Qed.

Lemma size_pos v : (1 <= size v)%nat.
Proof. destruct v; cbn [size]; lia. Qed.

Lemma skip_ws_head c t : is_ws c = false -> skip_ws (c :: t) = c :: t.
Proof. intros H. cbn [skip_ws]. by rewrite H. Qed.

Lemma skip_ws_indent n t : skip_ws (newline_indent n ++ t) = skip_ws t.
Proof.
  unfold newline_indent. cbn [app skip_ws]. change (is_ws NEWLINE) with true. cbv iota.
  induction (2 * n)%nat as [|m IH]; [done|].
  cbn [repeat app skip_ws]. change (is_ws SPACE) with true. cbv iota. exact IH.
Qed.

Lemma iterencode_head v level :
  exists c t, iterencode v level = c :: t /\
    is_ws c = false /\ c <> 93 /\ c <> 125 /\ c <> 65279.
Proof.
  destruct v as [|[|]|n|s|[|x l]|[|[k x] d]];
    try (eexists _, _; split; [reflexivity|done]).
  destruct (int_repr_head n) as (c & t & E & Hc).
  exists c, t. split; [exact E|]. unfold is_ws.
  split_and!; lia.
Qed.

Lemma skip_ws_iterencode v level rest :
  skip_ws (iterencode v level ++ rest) = iterencode v level ++ rest.
Proof.
  destruct (iterencode_head v level) as (c & t & -> & Hws & _).
  by apply skip_ws_head.
Qed.

Lemma dict_set_fresh d k v :
  ~ In k (map fst d) -> dict_set d k v = d ++ [(k, v)].
Proof.
  induction d as [|[k' v'] d IH]; intros Hk; [done|].
  cbn [dict_set]. unfold pystr_eqb. rewrite bool_decide_eq_false_2.
  - cbn [app]. f_equal. apply IH. intros ?. apply Hk. by right.
  - intros ->. apply Hk. by left.
Qed.

Lemma dict_of_pairs_app acc l :
  NoDup (map fst (acc ++ l)) ->
  fold_left (fun d kv => dict_set d kv.1 kv.2) l acc = acc ++ l.
Proof.
  revert acc. induction l as [|[k v] l IH]; intros acc Hnd.
  - by rewrite app_nil_r.
  - cbn [fold_left fst snd]. rewrite dict_set_fresh.
    + rewrite IH; rewrite <- app_assoc; [done|exact Hnd].
    + rewrite map_app in Hnd. apply NoDup_ListNoDup in Hnd.
      apply List.NoDup_remove_2 in Hnd. intros Hin. apply Hnd.
      apply List.in_or_app. by left.
Qed.

Lemma dict_of_pairs_nodup l : NoDup (map fst l) -> dict_of_pairs l = l.
Proof. intros H. unfold dict_of_pairs. by rewrite dict_of_pairs_app. Qed.

(** Appends associated to the right, with the conses pushed out. *)
Ltac norm_app := repeat (first [rewrite <- app_assoc | progress cbn [app]]).

Lemma delimited_comma t : delimited (COMMA :: t).
Proof. by left. Qed.

Lemma delimited_indent n t : delimited (newline_indent n ++ t).
Proof. by right. Qed.

Lemma array_loop_items scan level vs : forall fuel v acc rest,
  (forall x r, In x (v :: vs) -> delimited r ->
               scan (iterencode x (S level) ++ r) = Ok (x, r)) ->
  (length vs < fuel)%nat ->
  array_loop scan fuel
    (iterencode v (S level) ++ encode_items level vs ++ newline_indent level ++ 93 :: rest)
    acc
  = Ok (PyList (acc ++ v :: vs), rest).
Proof.
  induction vs as [|v' vs IH]; intros fuel v acc rest Hscan Hfuel;
    (destruct fuel as [|fuel]; [cbn [length] in Hfuel; lia|]); cbn [array_loop].
  - cbn [encode_items flat_map app].
    rewrite Hscan; [|by left|apply delimited_indent]. cbn [rbind].
    rewrite skip_ws_indent, skip_ws_head by done.
    change (93 =? 93) with true. reflexivity.
  - cbn [encode_items flat_map]. norm_app.
    rewrite Hscan; [|by left|apply delimited_comma]. cbn [rbind].
    rewrite skip_ws_head by done.
    change (COMMA =? 93) with false. change (COMMA =? COMMA) with true. cbv iota.
    rewrite skip_ws_indent, skip_ws_iterencode.
    fold (encode_items level vs). rewrite IH.
    + by rewrite <- app_assoc.
    + intros x r Hx. apply Hscan. by right.
    + cbn [length] in Hfuel. lia.
Qed.

Lemma encode_pair_unfold level k v :
  encode_pair level (k, v)
  = QUOTE :: flat_map escape_char k ++ QUOTE :: 58 :: SPACE :: iterencode v (S level).
Proof. unfold encode_pair, encode_basestring_ascii. by norm_app. Qed.

Lemma object_loop_pairs scan level kvs : forall fuel k v acc rest,
  (forall x r, In x ((k, v) :: kvs) -> delimited r ->
               scan (iterencode x.2 (S level) ++ r) = Ok (x.2, r)) ->
  Forall (fun x => wf_str x.1 = true) ((k, v) :: kvs) ->
  (length kvs < fuel)%nat ->
  object_loop scan fuel
    (flat_map escape_char k ++ QUOTE :: 58 :: SPACE :: iterencode v (S level)
     ++ encode_pairs level kvs ++ newline_indent level ++ 125 :: rest)
    acc
  = Ok (PyDict (dict_of_pairs (acc ++ (k, v) :: kvs)), rest).
Proof.
  induction kvs as [|[k' v'] kvs IH]; intros fuel k v acc rest Hscan Hwf Hfuel;
    (destruct fuel as [|fuel]; [cbn [length] in Hfuel; lia|]); cbn [object_loop];
    apply Forall_cons in Hwf as [Hk Hwf]; cbn [fst] in Hk;
    rewrite scanstring_escape by exact Hk; cbn [rbind];
    rewrite skip_ws_head by done;
    change (58 =? 58) with true; cbv iota;
    change (skip_ws (SPACE :: ?t)) with (skip_ws t);
    rewrite skip_ws_iterencode;
    pose proof (Hscan (k, v)) as Hv; cbn [snd] in Hv.
  - cbn [encode_pairs flat_map app].
    rewrite Hv; [|by left|apply delimited_indent]. cbn [rbind].
    rewrite skip_ws_indent, skip_ws_head by done.
    change (125 =? 125) with true. reflexivity.
  - change (encode_pairs level ((k', v') :: kvs))
      with ((COMMA :: newline_indent (S level) ++ encode_pair level (k', v'))
            ++ encode_pairs level kvs).
    rewrite encode_pair_unfold. norm_app.
    rewrite Hv; [|by left|apply delimited_comma]. cbn [rbind].
    rewrite skip_ws_head by done.
    change (COMMA =? 125) with false. change (COMMA =? COMMA) with true. cbv iota.
    rewrite skip_ws_indent, skip_ws_head by done.
    change (QUOTE =? QUOTE) with true. cbv iota.
    pose proof (IH fuel k' v' (acc ++ [(k, v)]) rest) as IH'.
    rewrite <- app_assoc in IH'. cbn [app] in IH'.
    rewrite IH'; [done| | |].
    + intros x r Hx. apply Hscan. by right.
    + exact Hwf.
    + cbn [length] in Hfuel. lia.
Qed.

Lemma JSONArray_items scan fuel n s :
  (exists c t, s = c :: t /\ is_ws c = false /\ c <> 93) ->
  JSONArray scan fuel (newline_indent n ++ s) = array_loop scan fuel s [].
Proof.
  intros (c & t & -> & Hws & Hc). unfold JSONArray.
  rewrite skip_ws_indent, skip_ws_head by done. by destruct (Z.eqb_spec c 93).
Qed.

Lemma size_in x l : In x l -> (size x <= list_sum (map size l))%nat.
Proof.
  induction l as [|y l IH]; [done|]. intros [->|Hin]; simpl; [lia|].
  specialize (IH Hin). lia.
Qed.

Lemma length_le_size l : (length l <= list_sum (map size l))%nat.
Proof.
  induction l as [|y l IH]; [done|]. simpl. pose proof (size_pos y). lia.
Qed.

Lemma size_in_pair (x : pystr * value) d :
  In x d -> (size x.2 <= list_sum (map (fun kv => size kv.2) d))%nat.
Proof.
  induction d as [|y d IH]; [done|]. intros [->|Hin]; simpl; [lia|].
  specialize (IH Hin). lia.
Qed.

Lemma length_le_size_pair (d : list (pystr * value)) :
  (length d <= list_sum (map (fun kv => size kv.2) d))%nat.
Proof.
  induction d as [|y d IH]; [done|]. simpl. pose proof (size_pos y.2). lia.
Qed.

(** The scanner reads back the text of a well-formed value, whatever the
    indentation level and whatever delimited text follows, given fuel
    above the size of the value. *)
Lemma scan_once_iterencode v :
  wf_value v -> forall level rest fuel,
  delimited rest -> (size v < fuel)%nat ->
  scan_once fuel (iterencode v level ++ rest) = Ok (v, rest).
Proof.
  induction v as [|b|n|s|l IH|d IH] using value_ind';
    intros Hwf level rest fuel Hrest Hfuel;
    (destruct fuel as [|fuel]; [lia|]).
  - reflexivity.
  - by destruct b.
  - apply scan_once_int. by apply delimited_ends_number.
  - cbn [iterencode]. unfold encode_basestring_ascii. norm_app.
    cbn [scan_once]. change (QUOTE =? QUOTE) with true. cbv iota.
    by rewrite scanstring_escape.
  - destruct l as [|x l]; [reflexivity|].
    rewrite iterencode_list. norm_app.
    cbn [scan_once]. change (91 =? QUOTE) with false. change (91 =? 123) with false.
    change (91 =? 91) with true. cbv iota.
    rewrite size_list in Hfuel. apply wf_value_list in Hwf.
    rewrite JSONArray_items.
    + apply array_loop_items.
      * intros y r Hy Hr. rewrite List.Forall_forall in IH, Hwf.
        apply IH; [done|by apply Hwf|done|].
        pose proof (size_in y _ Hy). lia.
      * pose proof (length_le_size (x :: l)). cbn [length] in *. lia.
    + destruct (iterencode_head x (S level)) as (c & t & -> & ? & ? & _).
      by exists c, (t ++ encode_items level l ++ newline_indent level ++ 93 :: rest).
  - destruct d as [|[k x] d]; [reflexivity|].
    rewrite iterencode_dict. rewrite encode_pair_unfold. norm_app.
    cbn [scan_once]. change (123 =? QUOTE) with false. change (123 =? 123) with true.
    cbv iota.
    rewrite size_dict in Hfuel. apply wf_value_dict in Hwf as [Hnd Hwf].
    unfold JSONObject. rewrite skip_ws_indent, skip_ws_head by done.
    change (QUOTE =? 125) with false. change (QUOTE =? QUOTE) with true. cbv iota.
    rewrite object_loop_pairs.
    + cbn [app]. by rewrite dict_of_pairs_nodup.
    + intros y r Hy Hr. rewrite List.Forall_forall in IH, Hwf.
      apply IH; [done|by apply Hwf|done|].
      pose proof (size_in_pair y _ Hy). lia.
    + eapply Forall_impl; [exact Hwf|]. by intros ? [? _].
    + pose proof (length_le_size_pair ((k, x) :: d)). cbn [length] in *. lia.
Qed.

Lemma size_le_length v : forall level, (size v <= length (iterencode v level))%nat.
Proof.
  induction v as [|b|n|s|l IH|d IH] using value_ind'; intros level.
  - cbv. lia.
  - destruct b; cbv; lia.
  - destruct (int_repr_head n) as (c & t & E & _). cbn [iterencode size].
    rewrite E. cbn [length]. lia.
  - cbn [iterencode size]. unfold encode_basestring_ascii. cbn [length]. lia.
  - destruct l as [|x l]; [cbv; lia|].
    rewrite iterencode_list, size_list. rewrite !length_app.
    apply Forall_cons in IH as [Hx IH]. specialize (Hx (S level)).
    assert (list_sum (map size l) <= length (encode_items level l))%nat.
    { clear Hx. induction IH as [|y l Hy _ IHl]; [done|].
      change (encode_items level (y :: l))
        with ((COMMA :: newline_indent (S level) ++ iterencode y (S level))
              ++ encode_items level l).
      change (list_sum (map size (y :: l))) with (size y + list_sum (map size l))%nat.
      rewrite length_app. cbn [length]. rewrite length_app.
      specialize (Hy (S level)). lia. }
    change (list_sum (map size (x :: l))) with (size x + list_sum (map size l))%nat.
    cbn [length]. lia.
  - destruct d as [|[k x] d]; [cbv; lia|].
    rewrite iterencode_dict, size_dict. rewrite !length_app.
    apply Forall_cons in IH as [Hx IH]. specialize (Hx (S level)). cbn [snd] in Hx.
    assert (list_sum (map (fun kv => size kv.2) d) <= length (encode_pairs level d))%nat.
    { clear Hx. induction IH as [|y l Hy _ IHl]; [done|].
      change (encode_pairs level (y :: l))
        with ((COMMA :: newline_indent (S level) ++ encode_pair level y)
              ++ encode_pairs level l).
      change (list_sum (map (fun kv => size kv.2) (y :: l)))
        with (size y.2 + list_sum (map (fun kv => size kv.2) l))%nat.
      rewrite length_app. cbn [length]. rewrite length_app.
      unfold encode_pair. rewrite !length_app.
      specialize (Hy (S level)). lia. }
    change (list_sum (map (fun kv => size kv.2) ((k, x) :: d)))
      with (size x + list_sum (map (fun kv => size kv.2) d))%nat.
    rewrite encode_pair_unfold. cbn [length]. rewrite length_app. cbn [length]. lia.
Qed.

(** [json.loads(json.dumps(v, indent=2))] is [v] for a well-formed
    value. *)
Lemma loads_dumps v : wf_value v -> loads (dumps v) = Ok v.
Proof.
  intros Hwf. unfold loads, dumps.
  pose proof (scan_once_iterencode v Hwf 0%nat [] (S (length (iterencode v 0))) I) as Hs.
  rewrite app_nil_r in Hs. pose proof (size_le_length v 0).
  pose proof (skip_ws_iterencode v 0%nat []) as Hws. rewrite app_nil_r in Hws.
  rewrite Hws, Hs by lia.
  destruct (iterencode_head v 0) as (c & t & -> & _ & _ & _ & Hbom).
  cbn [rbind skip_ws].
  destruct c as [|p|p]; try reflexivity.
  repeat (destruct p as [p|p|]; try reflexivity). done.
Qed.

(** ** The file system *)

Lemma stat_insert_longer (fs : FS) p n q :
  (length q < length p)%nat -> stat (<[p := n]> fs) q = stat fs q.
Proof.
  induction q as [|name q IH]; intros Hlen; [done|].
  cbn [stat]. rewrite IH by (cbn [length] in Hlen; lia).
  rewrite lookup_insert_ne; [done|]. intros ->. lia.
Qed.

(** ** create_config, save_config, load_config *)

Lemma create_config_eq theme instruments sample_size w :
  create_config theme instruments sample_size w
  = (Ok (config_record theme instruments sample_size w.(clock)), w).
Proof. reflexivity. Qed.

(** C6. For every theme, instrument list and sample size, the
    configuration [create_config] returns has a [phases] mapping whose
    keys are, in order, research, feasibility-research, simulate,
    feasibility-data, analyze and write, each mapped to the record
    [{"status": "pending"}]; creating it changes nothing in the world. *)
Theorem create_config_phases :
  forall (theme : pystr) (instruments : list pystr) (sample_size : Z) (w : world),
  exists config phases,
    create_config theme instruments sample_size w = (Ok config, w) /\
    getitem config (str "phases") = Ok (PyDict phases) /\
    map fst phases
    = [str "research"; str "feasibility-research"; str "simulate";
       str "feasibility-data"; str "analyze"; str "write"] /\
    Forall (fun kv => kv.2 = PyDict [(str "status", PyStr (str "pending"))]) phases.
Proof.
  intros theme instruments sample_size w.
  eexists _, _. split_and!.
  - apply create_config_eq.
  - reflexivity.
  - reflexivity.
  - repeat constructor.
Qed.

(** *** The configuration record is well formed *)

Lemma ascii_wf_str s : forallb is_ascii s = true -> wf_str s = true.
Proof.
  intros H. unfold wf_str. apply andb_true_intro. split.
  - induction s as [|c s IH]; [done|]. cbn [forallb] in *.
    apply andb_prop in H as [Hc H]. rewrite IH by done.
    unfold is_ascii, valid_char in *. lia.
  - induction s as [|c s IH]; [done|]. cbn [forallb no_surrogate_pair] in *.
    apply andb_prop in H as [Hc H]. rewrite IH by done.
    destruct s; [done|]. unfold is_ascii, high_surrogate in *.
    replace ((55296 <=? c) && (c <=? 56319)) with false by lia. done.
Qed.

Lemma int_repr_ascii n : forallb is_ascii (int_repr n) = true.
Proof.
  assert (H : forall u, forallb is_ascii (uint_chars u) = true).
  { induction u; cbn [uint_chars forallb]; by rewrite ?IHu. }
  unfold int_repr. destruct (Z.to_int n); cbn [forallb]; by rewrite H.
Qed.

Lemma zfill_ascii width n : forallb is_ascii (zfill width n) = true.
Proof.
  unfold zfill. rewrite forallb_app, int_repr_ascii, andb_true_r.
  induction (width - length (int_repr n))%nat as [|m IH]; [done|]. exact IH.
Qed.

Lemma isoformat_ascii d : forallb is_ascii (isoformat d) = true.
Proof.
  unfold isoformat. rewrite !forallb_app, !zfill_ascii.
  destruct (microsecond d =? 0); [done|]. by rewrite forallb_app, zfill_ascii.
Qed.

Lemma config_record_wf theme instruments sample_size now :
  wf_str theme = true -> Forall (fun i => wf_str i = true) instruments ->
  wf_value (config_record theme instruments sample_size now).
Proof.
  intros Ht Hi. unfold config_record. apply wf_value_dict. split.
  - eapply bool_decide_unpack. vm_compute. exact I.
  - repeat (apply Forall_cons; split); [idtac..|by apply Forall_nil];
      cbn [fst snd]; (split; [reflexivity|]).
    + exact Ht.
    + apply wf_value_list. induction Hi; constructor; [done|assumption].
    + exact I.
    + apply ascii_wf_str, isoformat_ascii.
    + apply wf_value_dict. split.
      * eapply bool_decide_unpack. vm_compute. exact I.
      * cbn [map PHASES].
        repeat (apply Forall_cons; split); [idtac..|by apply Forall_nil];
          cbn [fst snd]; (split; [reflexivity|]);
          (split; [eapply bool_decide_unpack; vm_compute; exact I|]);
          (split; [reflexivity|split; [reflexivity|exact I]]).
Qed.

(** *** Writing and reading the file *)

Lemma write_text_ok p text w w' :
  write_text p text w = (Ok tt, w') ->
  w' = set_files (<[p := File text]> w.(files)) w /\
  stat w'.(files) p = StFile text.
Proof.
  unfold write_text. destruct p as [|name parent]; [done|].
  destruct (stat (files w) parent) eqn:Hparent; try done.
  intros Hw.
  assert (Hw' : w' = set_files (<[name :: parent := File text]> (files w)) w).
  { destruct (files w !! (name :: parent)) as [[c|]|];
      [|discriminate Hw|]; by inversion Hw. }
  subst w'. split; [done|]. cbn [set_files files stat].
  rewrite stat_insert_longer by (cbn [length]; lia).
  by rewrite Hparent, lookup_insert_eq.
Qed.

Lemma save_config_ok REPO_ROOT config w w' :
  save_config REPO_ROOT config w = (Ok tt, w') ->
  w'.(files) = <[config_path REPO_ROOT := File (dumps config)]> w.(files) /\
  stat w'.(files) (config_path REPO_ROOT) = StFile (dumps config).
Proof.
  unfold save_config, bind.
  destruct (write_text (config_path REPO_ROOT) (dumps config) w) as [[[]|e] w1] eqn:Hw;
    [|done].
  apply write_text_ok in Hw as [-> Hstat].
  unfold print. intros Hp. apply (f_equal snd) in Hp. cbn [snd] in Hp. subst w'.
  split; [reflexivity|exact Hstat].
Qed.

Lemma load_config_file REPO_ROOT w text :
  stat w.(files) (config_path REPO_ROOT) = StFile text ->
  load_config REPO_ROOT w = (loads text, w).
Proof.
  intros Hstat. unfold load_config, bind, exists_, read_text, lift.
  rewrite Hstat. cbn [negb]. by rewrite Hstat.
Qed.

Lemma save_then_load REPO_ROOT config w w' :
  wf_value config ->
  save_config REPO_ROOT config w = (Ok tt, w') ->
  load_config REPO_ROOT w' = (Ok config, w').
Proof.
  intros Hwf [_ Hstat]%save_config_ok.
  rewrite (load_config_file _ _ _ Hstat). by rewrite loads_dumps.
Qed.

(** C1 (amended). For every theme and every list of instruments that are
    strings of code points in which no high surrogate stands immediately
    before a low surrogate, and every sample size: when [create_config]
    has built a record and [save_config] has written it, [load_config]
    returns that very record, whose theme, instruments (same strings,
    same order), sample size, creation timestamp and phases map are the
    ones created. *)
Theorem config_round_trip :
  forall (REPO_ROOT : path) (theme : pystr) (instruments : list pystr)
         (sample_size : Z) (w w1 w2 : world) (config : value),
    wf_str theme = true ->
    Forall (fun i => wf_str i = true) instruments ->
    create_config theme instruments sample_size w = (Ok config, w1) ->
    save_config REPO_ROOT config w1 = (Ok tt, w2) ->
    load_config REPO_ROOT w2 = (Ok config, w2) /\
    getitem config (str "theme") = Ok (PyStr theme) /\
    getitem config (str "instruments") = Ok (PyList (map PyStr instruments)) /\
    getitem config (str "sample_size") = Ok (PyInt sample_size) /\
    getitem config (str "created") = Ok (PyStr (isoformat w.(clock))) /\
    getitem config (str "phases")
    = Ok (PyDict (map (fun p => (p, PyDict [(str "status", PyStr (str "pending"))]))
                      [str "research"; str "feasibility-research"; str "simulate";
                       str "feasibility-data"; str "analyze"; str "write"])).
Proof.
  intros REPO_ROOT theme instruments sample_size w w1 w2 config Ht Hi Hc Hs.
  rewrite create_config_eq in Hc. injection Hc as <- <-.
  split; [|by split_and!].
  eapply save_then_load; [|exact Hs]. by apply config_record_wf.
Qed.

Lemma config_round_trip_witness :
  let theme := str "Emotional Intelligence and Burnout" in
  let instruments := [str "EQ-i"; str "MBI"] in
  let config := config_record theme instruments 100 example_clock in
  let w2 := (save_config example_root config example_world).2 in
  load_config example_root w2 = (Ok config, w2) /\
  getitem config (str "theme") = Ok (PyStr theme) /\
  getitem config (str "instruments") = Ok (PyList (map PyStr instruments)) /\
  getitem config (str "sample_size") = Ok (PyInt 100).
Proof.
  intros theme instruments config w2.
  destruct (config_round_trip example_root theme instruments 100
              example_world example_world w2 config)
    as (H1 & H2 & H3 & H4 & _).
  - vm_compute. reflexivity.
  - repeat constructor.
  - reflexivity.
  - vm_compute. reflexivity.
  - by split_and!.
Defined.

(** C1 as stated fails: a theme made of the two code points U+D83D and
    U+DE00 is written as two escapes, which [json.load] reads back as the
    single code point U+1F600. *)
Lemma config_round_trip_surrogates :
  let theme := [55357; 56832] in
  exists config w1 w2 loaded,
    create_config theme [str "EQ-i"; str "MBI"] 100 example_world = (Ok config, w1) /\
    save_config example_root config w1 = (Ok tt, w2) /\
    load_config example_root w2 = (Ok loaded, w2) /\
    getitem config (str "theme") = Ok (PyStr [55357; 56832]) /\
    getitem loaded (str "theme") = Ok (PyStr [128512]) /\
    loaded <> config.
Proof.
  intros theme.
  eexists _, _, _, _. split_and!.
  - apply create_config_eq.
  - vm_compute. reflexivity.
  - vm_compute. reflexivity.
  - reflexivity.
  - reflexivity.
  - discriminate.
Qed.

(** ** Path.mkdir and setup_directories *)

Lemma stat_mono (fs fs' : FS) q :
  fs ⊆ fs' -> stat fs q <> StErr ENOENT -> stat fs' q = stat fs q.
Proof.
  intros Hsub. induction q as [|name q IH]; [done|]. cbn [stat].
  destruct (stat fs q) as [|c|e] eqn:Hq.
  - rewrite IH by done.
    destruct (fs !! (name :: q)) as [x|] eqn:Hl; [|done].
    intros _. by rewrite (lookup_weaken _ _ _ _ Hl Hsub).
  - by rewrite IH.
  - intros He. rewrite IH; [done|]. by intros [= ->].
Qed.

Lemma stat_mono_dir (fs fs' : FS) q :
  fs ⊆ fs' -> stat fs q = StDir -> stat fs' q = StDir.
Proof. intros Hsub Hq. rewrite (stat_mono fs fs' q Hsub); [done|]. by rewrite Hq. Qed.

Lemma Path_mkdir_cons parents exist_ok name parent w :
  Path_mkdir parents exist_ok (name :: parent) w
  = match stat w.(files) parent with
    | StErr ENOENT =>
        if parents
        then (Path_mkdir true true parent ;; mkdir_here exist_ok (name :: parent)) w
        else (Raise (OSError ENOENT), w)
    | _ => mkdir_here exist_ok (name :: parent) w
    end.
Proof.
  cbn [Path_mkdir]. unfold mkdir_here, try_except, os_mkdir.
  destruct (stat (files w) parent) as [|c|[]]; try reflexivity.
  - by destruct (files w !! (name :: parent)).
  - by destruct parents.
Qed.

Lemma Path_mkdir_root parents exist_ok w :
  Path_mkdir parents exist_ok [] w = mkdir_here exist_ok [] w.
Proof. reflexivity. Qed.

Lemma stat_cons_dir (fs : FS) name parent :
  stat fs (name :: parent) = StDir -> stat fs parent = StDir.
Proof. cbn [stat]. by destruct (stat fs parent). Qed.

Lemma mkdir_here_dir p w :
  stat w.(files) p = StDir -> mkdir_here true p w = (Ok tt, w).
Proof.
  intros Hp. unfold mkdir_here, try_except, os_mkdir, bind, is_dir.
  destruct p as [|name parent]; [reflexivity|].
  pose proof (stat_cons_dir _ _ _ Hp) as Hparent. rewrite Hparent.
  cbn [stat] in Hp. rewrite Hparent in Hp.
  destruct (files w !! (name :: parent)) as [[c|]|] eqn:Hl; try discriminate.
  cbn [stat]. by rewrite Hparent, Hl.
Qed.

Lemma mkdir_here_blocked p w :
  blocked (stat w.(files) p) -> exists e, mkdir_here true p w = (Raise e, w).
Proof.
  intros [Hd He]. unfold mkdir_here, try_except, os_mkdir, bind, is_dir.
  destruct p as [|name parent]; [done|].
  cbn [stat] in *.
  destruct (stat (files w) parent) as [|c|e] eqn:Hparent.
  - destruct (files w !! (name :: parent)) as [[c|]|] eqn:Hl; try done.
    eexists. cbn [stat]. by rewrite Hparent, Hl.
  - eexists. cbn [stat]. by rewrite Hparent.
  - destruct e; try done; eexists; cbn [stat]; by rewrite Hparent.
Qed.

Lemma mkdir_here_create name parent w :
  stat w.(files) parent = StDir ->
  w.(files) !! (name :: parent) = None ->
  mkdir_here true (name :: parent) w
  = (Ok tt, set_files (<[name :: parent := Dir]> w.(files)) w).
Proof.
  intros Hparent Hl. unfold mkdir_here, try_except, os_mkdir.
  by rewrite Hparent, Hl.
Qed.

Lemma Path_mkdir_dir parents p w :
  stat w.(files) p = StDir -> Path_mkdir parents true p w = (Ok tt, w).
Proof.
  intros Hp. destruct p as [|name parent].
  - by rewrite Path_mkdir_root, mkdir_here_dir.
  - rewrite Path_mkdir_cons, (stat_cons_dir _ _ _ Hp). by apply mkdir_here_dir.
Qed.

Lemma Path_mkdir_blocked parents p w :
  blocked (stat w.(files) p) -> exists e, Path_mkdir parents true p w = (Raise e, w).
Proof.
  intros Hb. destruct p as [|name parent].
  - rewrite Path_mkdir_root. by apply mkdir_here_blocked.
  - rewrite Path_mkdir_cons.
    destruct (stat (files w) parent) as [|c|e] eqn:Hparent;
      try by apply mkdir_here_blocked.
    destruct e; try by apply mkdir_here_blocked.
    destruct Hb as [_ Hb]. cbn [stat] in Hb. by rewrite Hparent in Hb.
Qed.

Lemma same_but_files_refl w : same_but_files w w.
Proof. done. Qed.

Lemma same_but_files_trans w1 w2 w3 :
  same_but_files w1 w2 -> same_but_files w2 w3 -> same_but_files w1 w3.
Proof. unfold same_but_files. intros [-> ->] [-> ->]. done. Qed.

Lemma mkdir_here_post name parent w r w' :
  stat w.(files) parent <> StErr ENOENT ->
  mkdir_here true (name :: parent) w = (r, w') ->
  mkdir_post (name :: parent) w r w'.
Proof.
  intros Hparent Hm.
  destruct (stat (files w) (name :: parent)) as [|c|e] eqn:Hp.
  - rewrite mkdir_here_dir in Hm by done. injection Hm as <- <-.
    split_and!; [done|done|done|done].
  - destruct (mkdir_here_blocked (name :: parent) w) as [e He].
    { by rewrite Hp. }
    rewrite He in Hm. injection Hm as <- <-.
    split_and!; [done|done|done|]. intros _. by rewrite Hp.
  - destruct (decide (e = ENOENT)) as [->|Hne].
    + cbn [stat] in Hp.
      destruct (stat (files w) parent) as [|c|e] eqn:Hs; try done.
      destruct (files w !! (name :: parent)) as [[c|]|] eqn:Hl; try done.
      rewrite mkdir_here_create in Hm by done. injection Hm as <- <-.
      split_and!.
      * cbn [set_files files]. by apply insert_subseteq.
      * done.
      * intros _. cbn [set_files files stat].
        rewrite stat_insert_longer by (cbn [length]; lia).
        by rewrite Hs, lookup_insert_eq.
      * done.
    + destruct (mkdir_here_blocked (name :: parent) w) as [e' He].
      { rewrite Hp. split; [done|]. by intros [= ->]. }
      rewrite He in Hm. injection Hm as <- <-.
      split_and!; [done|done|done|]. intros _. rewrite Hp.
      split; [done|]. by intros [= ->].
Qed.

Lemma Path_mkdir_post p : forall w r w',
  Path_mkdir true true p w = (r, w') -> mkdir_post p w r w'.
Proof.
  induction p as [|name parent IH]; intros w r w' Hm.
  - rewrite Path_mkdir_dir in Hm by done. injection Hm as <- <-.
    split_and!; done.
  - rewrite Path_mkdir_cons in Hm.
    destruct (stat (files w) parent) as [|c|e] eqn:Hparent;
      try (apply mkdir_here_post; [by rewrite Hparent|done]).
    destruct (decide (e = ENOENT)) as [->|Hne]; cycle 1.
    { destruct e; try done; (apply mkdir_here_post; [by rewrite Hparent|done]). }
    unfold bind in Hm.
    destruct (Path_mkdir true true parent w) as [[[]|e0] w0] eqn:H0;
      apply IH in H0 as (Hsub & Hsame & Hok & Hfail).
    + specialize (Hok eq_refl).
      apply mkdir_here_post in Hm as (Hsub' & Hsame' & Hok' & Hfail');
        [|by rewrite Hok].
      split_and!; [by etrans|by eapply same_but_files_trans|done|done].
    + injection Hm as <- <-. destruct Hfail as [Hnd Hne]; [done|].
      split_and!; [done|done|done|]. intros _. cbn [stat].
      destruct (stat (files w0) parent) as [|c|e]; [done|done|].
      split; [done|]. intros [= ->]. done.
Qed.

(** [Path.mkdir(exist_ok=True)] without [parents]: a failure leaves the
    tree as it was. *)
Lemma Path_mkdir_flat_post p w r w' :
  Path_mkdir false true p w = (r, w') ->
  w.(files) ⊆ w'.(files) /\ same_but_files w w' /\
  (r = Ok tt -> stat w'.(files) p = StDir) /\
  (r <> Ok tt -> exists e, Path_mkdir false true p w' = (Raise e, w')).
Proof.
  intros Hm. destruct p as [|name parent].
  - rewrite Path_mkdir_dir in Hm by done. injection Hm as <- <-. split_and!; done.
  - assert (Hpost : stat (files w) parent <> StErr ENOENT ->
                    mkdir_here true (name :: parent) w = (r, w') ->
                    w.(files) ⊆ w'.(files) /\ same_but_files w w' /\
                    (r = Ok tt -> stat w'.(files) (name :: parent) = StDir) /\
                    (r <> Ok tt ->
                     exists e, Path_mkdir false true (name :: parent) w' = (Raise e, w'))).
    { intros Hne Hh. apply mkdir_here_post in Hh as (? & ? & ? & Hb); [|done].
      split_and!; [done..|]. intros Hr. by apply Path_mkdir_blocked, Hb. }
    pose proof Hm as Hm'. rewrite Path_mkdir_cons in Hm.
    destruct (stat (files w) parent) as [|c|e] eqn:Hparent;
      try (apply Hpost; [by rewrite ?Hparent|done]).
    destruct (decide (e = ENOENT)) as [->|Hne]; cycle 1.
    { destruct e; try done; (apply Hpost; [by rewrite ?Hparent|done]). }
    injection Hm as <- <-. split_and!; [done|done|done|].
    intros _. by eexists.
Qed.

Lemma for_mkdir_dirs ps w :
  Forall (fun p => stat w.(files) p = StDir) ps ->
  for_ ps (Path_mkdir true true) w = (Ok tt, w).
Proof.
  induction 1 as [|p ps Hp _ IH]; [done|].
  cbn [for_]. unfold bind. by rewrite Path_mkdir_dir.
Qed.

(** Running the loop of [setup_directories] again changes nothing, and
    fails again exactly if it failed before. *)
Lemma for_mkdir_post ps : forall w r w',
  for_ ps (Path_mkdir true true) w = (r, w') ->
  w.(files) ⊆ w'.(files) /\ same_but_files w w' /\
  (r = Ok tt -> Forall (fun p => stat w'.(files) p = StDir) ps) /\
  exists r', for_ ps (Path_mkdir true true) w' = (r', w') /\ (r = Ok tt <-> r' = Ok tt).
Proof.
  induction ps as [|p ps IH]; intros w r w' Hf.
  - injection Hf as <- <-. split_and!; [done|done|done|]. by exists (Ok tt).
  - cbn [for_] in *. unfold bind in Hf.
    destruct (Path_mkdir true true p w) as [[[]|e0] w0] eqn:H0;
      apply Path_mkdir_post in H0 as (Hsub & Hsame & Hok & Hfail).
    + specialize (Hok eq_refl).
      apply IH in Hf as (Hsub' & Hsame' & Hok' & r' & Hre & Hr').
      pose proof (stat_mono_dir _ _ _ Hsub' Hok) as Hp.
      split_and!; [by etrans|by eapply same_but_files_trans| |].
      * intros Hr. constructor; [done|by apply Hok'].
      * exists r'. split; [|done]. unfold bind. by rewrite Path_mkdir_dir.
    + injection Hf as <- <-.
      destruct (Path_mkdir_blocked true p w0) as [e He]; [by apply Hfail|].
      split_and!; [done|done|done|].
      exists (Raise e). split; [|done]. unfold bind. by rewrite He.
Qed.

Lemma for_map {A B} (f : A -> B) (body : B -> M unit) l :
  for_ l (fun x => body (f x)) = for_ (map f l) body.
Proof. induction l as [|x l IH]; [done|]. cbn [for_ map]. by rewrite IH. Qed.

Lemma setup_directories_eq REPO_ROOT :
  setup_directories REPO_ROOT
  = (for_ (map (pjoin (OUTPUTS_DIR REPO_ROOT)) output_subdirs) (Path_mkdir true true) ;;
     Path_mkdir false true (INPUTS_DIR REPO_ROOT)).
Proof. unfold setup_directories. by rewrite <- for_map. Qed.

Lemma setup_directories_exist REPO_ROOT w :
  directories_exist REPO_ROOT w -> setup_directories REPO_ROOT w = (Ok tt, w).
Proof.
  intros [Hout Hin]. rewrite setup_directories_eq. unfold bind.
  rewrite for_mkdir_dirs; [by apply Path_mkdir_dir|].
  by apply Forall_map.
Qed.

Lemma setup_directories_post REPO_ROOT w r w' :
  setup_directories REPO_ROOT w = (r, w') ->
  w.(files) ⊆ w'.(files) /\ same_but_files w w' /\
  (r = Ok tt -> directories_exist REPO_ROOT w') /\
  exists r', setup_directories REPO_ROOT w' = (r', w') /\ (r = Ok tt -> r' = Ok tt).
Proof.
  rewrite setup_directories_eq. unfold bind. intros Hs.
  destruct (for_ _ _ w) as [[[]|e1] w1] eqn:Hfor;
    apply for_mkdir_post in Hfor as (Hsub & Hsame & Hok & r1 & Hre & Hr1).
  - specialize (Hok eq_refl). apply proj1 in Hr1. specialize (Hr1 eq_refl). subst r1.
    apply Path_mkdir_flat_post in Hs as (Hsub' & Hsame' & Hok' & Hfail').
    assert (Hdirs : Forall (fun p => stat (files w') p = StDir)
                      (map (pjoin (OUTPUTS_DIR REPO_ROOT)) output_subdirs)).
    { eapply Forall_impl; [exact Hok|]. intros p Hp. by eapply stat_mono_dir. }
    split_and!; [by etrans|by eapply same_but_files_trans| |].
    + intros Hr. split; [by apply Forall_map in Hdirs|by apply Hok'].
    + rewrite (for_mkdir_dirs _ _ Hdirs).
      destruct r as [[]|e].
      * exists (Ok tt). split; [|done]. apply Path_mkdir_dir. by apply Hok'.
      * destruct Hfail' as [e' He]; [done|]. by exists (Raise e').
  - injection Hs as <- <-. split_and!; [done|done|done|].
    rewrite Hre. destruct r1 as [[]|e]; [by destruct Hr1 as [_ Hr1]; specialize (Hr1 eq_refl)|].
    by exists (Raise e).
Qed.

(** C8. The directory bootstrap is idempotent: from every state of the
    file system, running [setup_directories] a second time leaves the
    world (the directory tree included) exactly as the first run left it,
    a second run after a successful first run succeeds, and a run in a
    state where the output subdirectories and the input directory already
    exist raises no error and changes nothing. *)
Theorem setup_directories_idempotent :
  forall (REPO_ROOT : path) (w : world),
    let once := setup_directories REPO_ROOT w in
    let twice := setup_directories REPO_ROOT once.2 in
    twice.2 = once.2 /\
    (once.1 = Ok tt -> twice.1 = Ok tt) /\
    (directories_exist REPO_ROOT w -> once = (Ok tt, w)).
Proof.
  intros REPO_ROOT w once twice. subst once twice.
  destruct (setup_directories REPO_ROOT w) as [r w'] eqn:Hs. cbn [fst snd].
  pose proof Hs as (_ & _ & Hd & r' & Hre & _)%setup_directories_post.
  split_and!.
  - by rewrite Hre.
  - intros ->. by rewrite setup_directories_exist by auto.
  - intros Hex. by rewrite <- Hs, setup_directories_exist.
Qed.

Lemma setup_directories_idempotent_witness :
  let w1 := (setup_directories example_root empty_world).2 in
  directories_exist example_root w1 /\
  setup_directories example_root w1 = (Ok tt, w1).
Proof.
  intros w1.
  assert (Hd : directories_exist example_root w1).
  { split; [|vm_compute; reflexivity].
    repeat (apply Forall_cons; split; [vm_compute; reflexivity|]). by apply Forall_nil. }
  split; [exact Hd|].
  exact (proj2 (proj2 (setup_directories_idempotent example_root w1)) Hd).
Defined.

(** *** What the bootstrap leaves alone *)

Lemma mkdir_here_frame exist_ok p w r w' q :
  mkdir_here exist_ok p w = (r, w') -> q <> p -> w'.(files) !! q = w.(files) !! q.
Proof.
  unfold mkdir_here, try_except, os_mkdir, bind, is_dir, raise, ret.
  intros Hm Hq.
  repeat (case_match; simplify_eq); try done;
    cbn [set_files files]; by rewrite lookup_insert_ne.
Qed.

Lemma Path_mkdir_frame p : forall parents exist_ok w r w' q,
  Path_mkdir parents exist_ok p w = (r, w') ->
  ~ q `suffix_of` p -> w'.(files) !! q = w.(files) !! q.
Proof.
  induction p as [|name parent IH]; intros parents exist_ok w r w' q Hm Hq.
  - rewrite Path_mkdir_root in Hm. eapply mkdir_here_frame; [done|].
    intros ->. by apply Hq.
  - assert (Hne : q <> name :: parent) by (intros ->; by apply Hq).
    assert (Hq' : ~ q `suffix_of` parent).
    { intros Hs. apply Hq. by apply suffix_cons_r. }
    rewrite Path_mkdir_cons in Hm.
    destruct (stat (files w) parent) as [|c|e] eqn:Hparent;
      try (by eapply mkdir_here_frame).
    destruct e; try (by eapply mkdir_here_frame).
    destruct parents; [|by injection Hm as <- <-].
    unfold bind in Hm.
    destruct (Path_mkdir true true parent w) as [[[]|e0] w0] eqn:H0.
    + rewrite (mkdir_here_frame _ _ _ _ _ _ Hm Hne). by eapply IH.
    + injection Hm as <- <-. by eapply IH.
Qed.

Lemma setup_directories_frame REPO_ROOT w r w' q :
  setup_directories REPO_ROOT w = (r, w') ->
  Forall (fun p => ~ q `suffix_of` p)
         (INPUTS_DIR REPO_ROOT :: map (pjoin (OUTPUTS_DIR REPO_ROOT)) output_subdirs) ->
  w'.(files) !! q = w.(files) !! q.
Proof.
  rewrite setup_directories_eq. intros Hs [Hin Hout]%Forall_cons.
  revert Hs. unfold bind.
  generalize (map (pjoin (OUTPUTS_DIR REPO_ROOT)) output_subdirs) Hout. clear Hout.
  intros ps Hps. revert w.
  induction Hps as [|p ps Hp _ IH]; intros w Hs.
  - cbn [for_] in Hs. unfold ret in Hs. by eapply Path_mkdir_frame.
  - cbn [for_] in Hs. unfold bind in Hs.
    destruct (Path_mkdir true true p w) as [[[]|e0] w0] eqn:H0.
    + rewrite <- (Path_mkdir_frame _ _ _ _ _ _ _ H0 Hp). by apply IH.
    + injection Hs as <- <-. by eapply Path_mkdir_frame.
Qed.

(** ** main *)

Lemma config_path_fresh REPO_ROOT :
  Forall (fun p => ~ config_path REPO_ROOT `suffix_of` p)
         (INPUTS_DIR REPO_ROOT :: map (pjoin (OUTPUTS_DIR REPO_ROOT)) output_subdirs).
Proof.
  assert (H : forall a : list string,
             ~ ["config.json"; "inputs"]%string `suffix_of` a ->
             ~ config_path REPO_ROOT `suffix_of` a ++ REPO_ROOT).
  { intros a Ha Hs. apply Ha.
    apply (suffix_app_inv _ _ REPO_ROOT). exact Hs. }
  assert (Hk : forall a : list string,
             (length a <= 3)%nat ->
             (forall k, a <> k ++ ["config.json"; "inputs"]%string) ->
             ~ ["config.json"; "inputs"]%string `suffix_of` a).
  { intros a _ Ha [k Hk]. by apply (Ha k). }
  repeat (apply Forall_cons; split); [..|by apply Forall_nil].
  - apply (H ["inputs"]%string), Hk; [cbn; lia|].
    intros k Hk'. by repeat (destruct k as [|? k]; try discriminate Hk').
  - apply (H ["research"; "outputs"]%string), Hk; [cbn; lia|].
    intros k Hk'. by repeat (destruct k as [|? k]; try discriminate Hk').
  - apply (H ["feasibility"; "outputs"]%string), Hk; [cbn; lia|].
    intros k Hk'. by repeat (destruct k as [|? k]; try discriminate Hk').
  - apply (H ["data"; "outputs"]%string), Hk; [cbn; lia|].
    intros k Hk'. by repeat (destruct k as [|? k]; try discriminate Hk').
  - apply (H ["analysis"; "outputs"]%string), Hk; [cbn; lia|].
    intros k Hk'. by repeat (destruct k as [|? k]; try discriminate Hk').
  - apply (H ["chapters"; "thesis"; "outputs"]%string), Hk; [cbn; lia|].
    intros k Hk'. by repeat (destruct k as [|? k]; try discriminate Hk').
Qed.

Lemma stat_lookup_none (fs : FS) name parent :
  fs !! (name :: parent) = None -> exists e, stat fs (name :: parent) = StErr e.
Proof.
  intros Hl. cbn [stat]. rewrite Hl. destruct (stat fs parent); by eexists.
Qed.

Lemma load_config_missing REPO_ROOT w e :
  stat w.(files) (config_path REPO_ROOT) = StErr e ->
  load_config REPO_ROOT w = (Raise (FileNotFoundError (not_found_message REPO_ROOT)), w).
Proof.
  intros Hs. unfold load_config, bind, exists_. by rewrite Hs.
Qed.

(** A configuration file that is not there before the bootstrap is not
    there after it. *)
Lemma setup_directories_no_config REPO_ROOT w r w' :
  w.(files) !! config_path REPO_ROOT = None ->
  setup_directories REPO_ROOT w = (r, w') ->
  exists e, stat w'.(files) (config_path REPO_ROOT) = StErr e.
Proof.
  intros Hl Hs. apply stat_lookup_none.
  change (files w' !! config_path REPO_ROOT = None).
  rewrite (setup_directories_frame _ _ _ _ _ Hs (config_path_fresh REPO_ROOT)).
  exact Hl.
Qed.

Lemma setup_output REPO_ROOT w r w1 :
  setup_directories REPO_ROOT w = (r, w1) -> same_but_files w w1.
Proof. by intros (_ & ? & _)%setup_directories_post. Qed.

(** Without a configuration file and without the arguments that would
    make or name one, [main] reports that and stops. *)
Lemma main_body_no_config :
  forall (REPO_ROOT : path) (resolve : pystr -> path) (args : Namespace) (w w1 : world),
    truthy_opt args.(theme) && truthy_opt args.(instruments) = false ->
    truthy_opt args.(config) = false ->
    w.(files) !! config_path REPO_ROOT = None ->
    setup_directories REPO_ROOT w = (Ok tt, w1) ->
    exists r w',
      main_body REPO_ROOT resolve args w = (r, w') /\
      w'.(files) = w1.(files) /\
      (args.(status) = true ->
       r = Ok tt /\ exit_status r = 0 /\
       w'.(output)
       = w.(output)
         ++ [Print (str "No configuration found. Initialize with --theme and --instruments.")]) /\
      (args.(status) = false ->
       r = Raise (SystemExit 1) /\ exit_status r = 1 /\
       w'.(output)
       = w.(output)
         ++ [Print (str "Error: No configuration found at "
                    ++ path_str (config_path REPO_ROOT)
                    ++ str ". Run with --theme and --instruments first.");
             Print (str "
Run with --theme and --instruments to initialize:");
             Print init_hint]).
Proof.
  intros REPO_ROOT resolve args w w1 Hti Hc Hl Hs.
  destruct (setup_directories_no_config _ _ _ _ Hl Hs) as [e He].
  destruct (setup_output _ _ _ _ Hs) as [Hout _].
  unfold main_body, bind. rewrite Hs.
  unfold handle_configuration. rewrite Hti, Hc.
  unfold try_except. rewrite (load_config_missing _ _ _ He).
  destruct (status args) eqn:Hst; cbn [negb].
  - unfold ret, execute_action. rewrite Hst. cbn [truthy]. unfold print.
    eexists _, _. split; [reflexivity|]. split; [reflexivity|].
    split; [|done]. intros _. split_and!; [done|done|].
    cbn [emit output]. by rewrite Hout.
  - unfold bind, lift, exn_str, print, raise.
    eexists _, _. split; [reflexivity|]. split; [reflexivity|].
    split; [done|]. intros _. split_and!; [done|done|].
    cbn [emit output]. rewrite Hout. by rewrite <- !app_assoc.
Qed.






Lemma handle_configuration_file REPO_ROOT resolve args w text cfg :
  truthy_opt args.(theme) && truthy_opt args.(instruments) = false ->
  truthy_opt args.(config) = false ->
  stat w.(files) (config_path REPO_ROOT) = StFile text ->
  loads text = Ok cfg ->
  handle_configuration REPO_ROOT resolve args w = (Ok cfg, w).
Proof.
  intros Hti Hc Hs Hl. unfold handle_configuration. rewrite Hti, Hc.
  unfold try_except. by rewrite (load_config_file _ _ _ Hs), Hl.
Qed.





Lemma instructions_block phase :
  In phase PHASES ->
  exists block, In (phase, block) instructions /\
    forall default, table_get instructions phase default = block.
Proof.
  intros Hp. exists (table_get instructions phase []).
  cbn [In PHASES] in Hp.
  repeat (destruct Hp as [<-|Hp];
          [split; [cbn [In instructions]; repeat (first [left; reflexivity|right])
                  |intros; reflexivity]|]).
  done.
Qed.



Lemma all_strs_map l : all_strs (map PyStr l) = Ok l.
Proof. induction l as [|s l IH]; [done|]. cbn [map all_strs]. by rewrite IH. Qed.

Lemma print_full_workflow_record theme instruments sample_size now w :
  print_full_workflow (config_record theme instruments sample_size now) w
  = (Ok tt,
     emit (Print (workflow_text (ljust 56 (firstn 56 theme))
                                (ljust 52 (join (str ", ") instruments))
                                (ljust 53 (int_repr sample_size)))) w).
Proof.
  unfold print_full_workflow, bind, lift.
  change (getitem (config_record theme instruments sample_size now) (str "theme"))
    with (Ok (PyStr theme)).
  change (getitem (config_record theme instruments sample_size now) (str "instruments"))
    with (Ok (PyList (map PyStr instruments))).
  change (getitem (config_record theme instruments sample_size now) (str "sample_size"))
    with (Ok (PyInt sample_size)).
  cbn [rbind slice_to format_left join_value]. rewrite all_strs_map.
  reflexivity.
Qed.

Lemma ljust_long width s : (width <= length s)%nat -> ljust width s = s.
Proof.
  intros H. unfold ljust. replace (width - length s)%nat with 0%nat by lia.
  apply app_nil_r.
Qed.

Lemma ljust_length width s : (length s <= width)%nat -> length (ljust width s) = width.
Proof. intros H. unfold ljust. rewrite length_app, repeat_length. lia. Qed.


(** *** Computations that only print *)

Lemma output_only_ret {A} (a : A) : output_only (ret a).
Proof. done. Qed.

Lemma output_only_raise {A} e : output_only (@raise A e).
Proof. done. Qed.

Lemma output_only_lift {A} (r : result A) : output_only (lift r).
Proof. done. Qed.

Lemma output_only_print text : output_only (print text).
Proof. done. Qed.

Lemma output_only_print_help : output_only print_help.
Proof. done. Qed.

Lemma output_only_bind {A B} (m : M A) (k : A -> M B) :
  output_only m -> (forall a, output_only (k a)) -> output_only (bind m k).
Proof.
  intros Hm Hk w. unfold bind. specialize (Hm w).
  destruct (m w) as [[a|e] w1]; cbn [snd] in *; [|done].
  destruct (Hk a w1) as [-> ->]. done.
Qed.

Lemma output_only_for {A} (l : list A) body :
  (forall x, output_only (body x)) -> output_only (for_ l body).
Proof.
  intros Hb. induction l as [|x l IH]; [done|].
  cbn [for_]. apply output_only_bind; [apply Hb|by intros _].
Qed.

Lemma output_only_try {A} (m : M A) h :
  output_only m -> (forall e k, h e = Some k -> output_only k) ->
  output_only (try_except m h).
Proof.
  intros Hm Hh w. unfold try_except. specialize (Hm w).
  destruct (m w) as [[a|e] w1]; cbn [snd] in *; [done|].
  destruct (h e) as [k|] eqn:Hk; [|done].
  destruct (Hh e k Hk w1) as [-> ->]. done.
Qed.

Lemma output_only_read_text p : output_only (read_text p).
Proof. intros w. unfold read_text. by destruct (stat (files w) p). Qed.

Lemma output_only_load_config REPO_ROOT : output_only (load_config REPO_ROOT).
Proof.
  unfold load_config. apply output_only_bind; [done|]. intros found.
  destruct found; cbn [negb]; [|done].
  apply output_only_bind; [apply output_only_read_text|]. intros. apply output_only_lift.
Qed.

Ltac output_only_tac :=
  repeat first
    [ apply output_only_bind; [|intros]
    | apply output_only_for; intros
    | apply output_only_lift
    | apply output_only_print
    | apply output_only_print_help
    | apply output_only_ret
    | apply output_only_raise ].

Lemma output_only_execute_action args config : output_only (execute_action args config).
Proof.
  unfold execute_action, print_status, print_phase_instructions, print_full_workflow.
  destruct (status args), (truthy config), (truthy_opt (phase args)), (full args); cbn [orb];
    output_only_tac.
Qed.

Lemma output_only_handle_configuration REPO_ROOT resolve args :
  truthy_opt args.(theme) && truthy_opt args.(instruments) = false ->
  output_only (handle_configuration REPO_ROOT resolve args).
Proof.
  intros Hti. unfold handle_configuration. rewrite Hti.
  destruct (truthy_opt (config args)).
  - apply output_only_bind; [apply output_only_read_text|]. intros. apply output_only_lift.
  - apply output_only_try; [apply output_only_load_config|].
    intros e k Hk.
    destruct e as [msg|[]| | | | | | |]; try discriminate Hk;
      injection Hk as <-; destruct (status args); cbn [negb]; output_only_tac.
Qed.

Lemma write_text_file p text w :
  match p with
  | [] => False
  | _ :: parent => stat w.(files) parent = StDir
  end ->
  w.(files) !! p <> Some Dir ->
  write_text p text w = (Ok tt, set_files (<[p := File text]> w.(files)) w).
Proof.
  intros Hparent Hl. unfold write_text. destruct p as [|name parent]; [done|].
  rewrite Hparent. by destruct (files w !! (name :: parent)) as [[c|]|].
Qed.

Lemma bind_eq {A B} (m : M A) (k : A -> M B) w :
  bind m k w = match m w with
               | (Ok a, w') => k a w'
               | (Raise e, w') => (Raise e, w')
               end.
Proof. reflexivity. Qed.

Lemma main_body_creates REPO_ROOT resolve args w w1 :
  truthy_opt args.(theme) && truthy_opt args.(instruments) = true ->
  setup_directories REPO_ROOT w = (Ok tt, w1) ->
  w.(files) !! config_path REPO_ROOT <> Some Dir ->
  (main_body REPO_ROOT resolve args w).2.(files)
  = <[config_path REPO_ROOT :=
        File (dumps (config_record (default [] args.(theme))
                       (parse_instruments (default [] args.(instruments)))
                       args.(sample) w.(clock)))]> w1.(files).
Proof.
  intros Hti Hs Hl.
  pose proof Hs as (_ & [_ Hclock] & Hd & _)%setup_directories_post.
  destruct (Hd eq_refl) as [_ Hin].
  unfold main_body. rewrite bind_eq, Hs, bind_eq.
  unfold handle_configuration. rewrite Hti.
  rewrite bind_eq, create_config_eq, bind_eq.
  unfold save_config. rewrite bind_eq.
  rewrite write_text_file; [| exact Hin |].
  - unfold print, ret.
    match goal with |- context [execute_action ?a ?c ?w'] =>
      destruct (output_only_execute_action a c w') as [-> _] end.
    cbn [emit set_files files]. by rewrite Hclock.
  - rewrite (setup_directories_frame _ _ _ _ _ Hs (config_path_fresh REPO_ROOT)).
    exact Hl.
Qed.

Lemma main_body_ignores REPO_ROOT resolve args w :
  truthy_opt args.(theme) && truthy_opt args.(instruments) = false ->
  main_body REPO_ROOT resolve args w
  = main_body REPO_ROOT resolve (without_theme args) w /\
  (main_body REPO_ROOT resolve args w).2.(files)
  = (setup_directories REPO_ROOT w).2.(files).
Proof.
  intros Hti. split.
  - unfold main_body, handle_configuration. cbn [without_theme theme instruments config status truthy_opt andb].
    rewrite Hti. reflexivity.
  - unfold main_body. rewrite bind_eq.
    destruct (setup_directories REPO_ROOT w) as [[[]|e] w1]; [|done].
    rewrite bind_eq.
    pose proof (output_only_handle_configuration REPO_ROOT resolve args Hti w1) as [Hh _].
    destruct (handle_configuration REPO_ROOT resolve args w1) as [[cfg|e] w2];
      cbn [snd] in *; [|done].
    destruct (output_only_execute_action args cfg w2) as [-> _]. done.
Qed.

(** * Further properties of run.py *)

(** *** parse_instruments and the displayed list *)

Lemma split_single sep a : ~ In sep a -> split sep a = [a].
Proof.
  induction a as [|c a IH]; intros Ha; [done|].
  cbn [split]. destruct (Z.eqb_spec c sep) as [->|_]; [by destruct Ha; left|].
  rewrite IH; [done|]. intros ?. apply Ha. by right.
Qed.

Lemma split_app sep a r : ~ In sep a -> split sep (a ++ sep :: r) = a :: split sep r.
Proof.
  induction a as [|c a IH]; intros Ha.
  - cbn [app split]. by rewrite Z.eqb_refl.
  - cbn [app split]. destruct (Z.eqb_spec c sep) as [->|_]; [by destruct Ha; left|].
    rewrite IH; [done|]. intros ?. apply Ha. by right.
Qed.

Lemma split_prefix sep a s :
  ~ In sep a ->
  split sep (a ++ s) = match split sep s with
                       | hd :: tl => (a ++ hd) :: tl
                       | [] => [a]
                       end.
Proof.
  induction a as [|c a IH]; intros Ha.
  - cbn [app]. pose proof (split_nonempty sep s). by destruct (split sep s).
  - cbn [app split]. destruct (Z.eqb_spec c sep) as [->|_]; [by destruct Ha; left|].
    rewrite IH by (intros ?; apply Ha; by right).
    by destruct (split sep s).
Qed.

Lemma split_join sep glue x xs :
  Forall (fun x => ~ In sep x) (x :: xs) -> ~ In sep glue ->
  split sep (join (sep :: glue) (x :: xs)) = x :: map (app glue) xs.
Proof.
  intros Hxs Hg. revert x Hxs. induction xs as [|y r IH]; intros x Hxs.
  - cbn [join map]. apply split_single. by inversion Hxs.
  - inversion Hxs as [|? ? Hx Hr]; subst.
    rewrite join_cons. cbn [app]. rewrite split_app by done.
    rewrite split_prefix by done. by rewrite IH.
Qed.

Lemma lstrip_id t : (forall c r, t = c :: r -> isspace c = false) -> lstrip t = t.
Proof. destruct t as [|c r]; [done|]. intros H. cbn [lstrip]. by rewrite (H c r). Qed.

Lemma strip_strip s : strip (strip s) = strip s.
Proof.
  destruct (strip_spec s) as (l & r & _ & _ & _ & Hhd & Htl).
  unfold strip at 1. rewrite (lstrip_id _ Hhd). unfold rstrip.
  rewrite lstrip_id; [apply rev_involutive|].
  intros c t Ht. apply (Htl c (rev t)).
  rewrite <- (rev_involutive (strip s)), Ht. by rewrite rev_unit || (cbn [rev]; done).
Qed.

Lemma strip_after_space y : strip (SPACE :: y) = strip y.
Proof. reflexivity. Qed.

Lemma strip_sublist s c : In c (strip s) -> In c s.
Proof.
  destruct (strip_spec s) as (l & r & Hs & _). intros Hc.
  rewrite Hs. apply in_or_app. right. apply in_or_app. by left.
Qed.

Lemma parse_instruments_tokens s :
  parse_instruments s <> [] /\
  Forall (fun x => ~ In COMMA x /\ strip x = x) (parse_instruments s).
Proof.
  unfold parse_instruments. split.
  - pose proof (split_nonempty COMMA s). by destruct (split COMMA s).
  - pose proof (split_no_sep COMMA s) as H.
    induction H as [|p ps Hp _ IH]; cbn [map]; constructor; [|exact IH].
    split; [|apply strip_strip]. intros Hc. by apply Hp, strip_sublist.
Qed.

Lemma parse_instruments_joined xs :
  xs <> [] -> Forall (fun x => ~ In COMMA x /\ strip x = x) xs ->
  parse_instruments (join (str ", ") xs) = xs.
Proof.
  intros Hne Hxs. destruct xs as [|x xs]; [done|]. clear Hne.
  unfold parse_instruments. change (str ", ") with (COMMA :: [SPACE]).
  rewrite split_join.
  - inversion Hxs as [|? ? [_ Hx] Hr]; subst. cbn [map]. rewrite Hx. f_equal.
    clear Hxs Hx. induction Hr as [|y r [_ Hy] _ IH]; [done|].
    cbn [map]. change ([SPACE] ++ y) with (SPACE :: y).
    by rewrite strip_after_space, Hy, IH.
  - eapply Forall_impl; [exact Hxs|]. by intros ? [? _].
  - by intros [[=]|[]].
Qed.

(** X1. What the program displays of the instruments can be given back
    to it: a non-empty list of names, none holding a comma or starting or
    ending with white space, joined by a comma and a space (as the status
    report and the overview show it) is parsed by [parse_instruments]
    into the same list; in particular parsing the display of a parsed
    list gives the parsed list again, for every input string. *)
Theorem parse_instruments_display :
  (forall xs : list pystr,
     xs <> [] ->
     Forall (fun x => ~ In COMMA x /\ strip x = x) xs ->
     parse_instruments (join (str ", ") xs) = xs) /\
  (forall s : pystr,
     parse_instruments (join (str ", ") (parse_instruments s)) = parse_instruments s).
Proof.
  split; [exact parse_instruments_joined|].
  intros s. destruct (parse_instruments_tokens s) as [Hne Htok].
  by apply parse_instruments_joined.
Qed.

Lemma parse_instruments_display_witness :
  parse_instruments (join (str ", ") [str "EQ-i"; str "MBI"]) = [str "EQ-i"; str "MBI"].
Proof.
  apply (proj1 parse_instruments_display).
  - discriminate.
  - repeat (apply Forall_cons; split; [split; [vm_compute; intuition discriminate|reflexivity]|]).
    by apply Forall_nil.
Defined.

(** *** The bootstrap only adds directories *)

Lemma only_new_directories_refl fs : only_new_directories fs fs.
Proof. intros p. by left. Qed.

Lemma only_new_directories_trans fs1 fs2 fs3 :
  only_new_directories fs1 fs2 -> only_new_directories fs2 fs3 ->
  only_new_directories fs1 fs3.
Proof.
  intros H12 H23 p. destruct (H12 p) as [E12|[N1 D2]], (H23 p) as [E23|[N2 D3]].
  - left. congruence.
  - right. split; congruence.
  - right. split; congruence.
  - congruence.
Qed.

Lemma mkdir_here_adds exist_ok p w r w' :
  mkdir_here exist_ok p w = (r, w') -> only_new_directories w.(files) w'.(files).
Proof.
  unfold mkdir_here, try_except, os_mkdir, bind, is_dir, raise, ret.
  intros Hm q.
  repeat (case_match; simplify_eq); try (by left); cbn [set_files files].
  all: match goal with |- context [<[?k := _]> _ !! _] =>
         destruct (decide (q = k)) as [->|Hne];
           [right; split; [done|by rewrite lookup_insert_eq]
           |left; by rewrite lookup_insert_ne] end.
Qed.

Lemma Path_mkdir_adds p : forall parents exist_ok w r w',
  Path_mkdir parents exist_ok p w = (r, w') -> only_new_directories w.(files) w'.(files).
Proof.
  induction p as [|name parent IH]; intros parents exist_ok w r w' Hm.
  - rewrite Path_mkdir_root in Hm. by eapply mkdir_here_adds.
  - rewrite Path_mkdir_cons in Hm.
    destruct (stat (files w) parent) as [|c|e] eqn:Hparent;
      try (by eapply mkdir_here_adds).
    destruct e; try (by eapply mkdir_here_adds).
    destruct parents; [|injection Hm as <- <-; apply only_new_directories_refl].
    unfold bind in Hm.
    destruct (Path_mkdir true true parent w) as [[[]|e0] w0] eqn:H0.
    + eapply only_new_directories_trans; [by eapply IH|by eapply mkdir_here_adds].
    + injection Hm as <- <-. by eapply IH.
Qed.

Lemma for_mkdir_adds ps : forall w r w',
  for_ ps (Path_mkdir true true) w = (r, w') -> only_new_directories w.(files) w'.(files).
Proof.
  induction ps as [|p ps IH]; intros w r w' Hf.
  - injection Hf as <- <-. apply only_new_directories_refl.
  - cbn [for_] in Hf. unfold bind in Hf.
    destruct (Path_mkdir true true p w) as [[[]|e0] w0] eqn:H0.
    + eapply only_new_directories_trans; [by eapply Path_mkdir_adds|by eapply IH].
    + injection Hf as <- <-. by eapply Path_mkdir_adds.
Qed.

Lemma setup_directories_adds REPO_ROOT w r w' :
  setup_directories REPO_ROOT w = (r, w') -> only_new_directories w.(files) w'.(files).
Proof.
  rewrite setup_directories_eq. unfold bind. intros Hs.
  destruct (for_ _ _ w) as [[[]|e1] w1] eqn:Hfor.
  - eapply only_new_directories_trans; [by eapply for_mkdir_adds|by eapply Path_mkdir_adds].
  - injection Hs as <- <-. by eapply for_mkdir_adds.
Qed.

(** X2. [setup_directories] never removes, replaces or rewrites anything:
    whatever the state of the disk and whether it succeeds or fails,
    every path is afterwards what it was before, or was absent and is now
    a directory, and then it is one of the directories the bootstrap asks
    for or lies above one; nothing is printed. *)
Theorem setup_directories_only_adds :
  forall (REPO_ROOT : path) (w : world) (p : path),
    let w' := (setup_directories REPO_ROOT w).2 in
    w'.(output) = w.(output) /\ w'.(clock) = w.(clock) /\
    (w'.(files) !! p = w.(files) !! p \/
     new_directory w.(files) w'.(files) p /\
     Exists (fun target => p `suffix_of` target) (bootstrap_paths REPO_ROOT)).
Proof.
  intros REPO_ROOT w p w'. subst w'.
  destruct (setup_directories REPO_ROOT w) as [r w'] eqn:Hs. cbn [snd].
  destruct (setup_output _ _ _ _ Hs) as [Hout Hclock].
  split_and!; [done|done|].
  destruct (decide (Exists (fun target => p `suffix_of` target) (bootstrap_paths REPO_ROOT)))
    as [Hex|Hno].
  - destruct (setup_directories_adds _ _ _ _ Hs p) as [?|?]; [by left|by right].
  - left. apply (setup_directories_frame _ _ _ _ _ Hs).
    by apply not_Exists_Forall in Hno; [|apply _].
Qed.

(** *** A file in the way of the bootstrap *)

Lemma mkdir_here_raises exist_ok p w e w' :
  mkdir_here exist_ok p w = (Raise e, w') -> exists n, e = OSError n.
Proof.
  unfold mkdir_here, try_except, os_mkdir, bind, is_dir, raise, ret.
  intros Hm. repeat (case_match; simplify_eq); by eexists.
Qed.

Lemma Path_mkdir_raises p : forall parents exist_ok w e w',
  Path_mkdir parents exist_ok p w = (Raise e, w') -> exists n, e = OSError n.
Proof.
  induction p as [|name parent IH]; intros parents exist_ok w e w' Hm.
  - rewrite Path_mkdir_root in Hm. by eapply mkdir_here_raises.
  - rewrite Path_mkdir_cons in Hm.
    destruct (stat (files w) parent) as [|c|e1] eqn:Hparent;
      try (by eapply mkdir_here_raises).
    destruct e1; try (by eapply mkdir_here_raises).
    destruct parents; [|injection Hm as <- <-; by eexists].
    unfold bind in Hm.
    destruct (Path_mkdir true true parent w) as [[[]|e0] w0] eqn:H0.
    + by eapply mkdir_here_raises.
    + injection Hm as <- <-. by eapply IH.
Qed.

Lemma setup_directories_raises REPO_ROOT w e w' :
  setup_directories REPO_ROOT w = (Raise e, w') -> exists n, e = OSError n.
Proof.
  rewrite setup_directories_eq. unfold bind.
  generalize (map (pjoin (OUTPUTS_DIR REPO_ROOT)) output_subdirs). intros ps. revert w.
  induction ps as [|p ps IH]; intros w Hs.
  - cbn [for_] in Hs. unfold ret in Hs. by eapply Path_mkdir_raises.
  - cbn [for_] in Hs. unfold bind in Hs.
    destruct (Path_mkdir true true p w) as [[[]|e0] w0] eqn:H0.
    + by eapply IH.
    + injection Hs as <- <-. by eapply Path_mkdir_raises.
Qed.

(** X3. When something that is not a directory stands where the bootstrap
    needs a directory (a regular file at one of the paths, or at a path
    above one), [setup_directories] raises an operating-system error,
    and [main] stops with that error, exit status 1: no configuration is
    read or written and nothing is printed. *)
Theorem setup_directories_blocked :
  forall (REPO_ROOT : path) (resolve : pystr -> path) (args : Namespace)
         (w : world) (p : path),
    In p (bootstrap_paths REPO_ROOT) ->
    blocked (stat w.(files) p) ->
    exists n w',
      setup_directories REPO_ROOT w = (Raise (OSError n), w') /\
      main_body REPO_ROOT resolve args w = (Raise (OSError n), w') /\
      exit_status (main_body REPO_ROOT resolve args w).1 = 1 /\
      w'.(output) = w.(output) /\
      w'.(files) !! config_path REPO_ROOT = w.(files) !! config_path REPO_ROOT.
Proof.
  intros REPO_ROOT resolve args w p Hp [Hnd Hne].
  destruct (setup_directories REPO_ROOT w) as [r w'] eqn:Hs.
  pose proof Hs as (Hsub & [Hout _] & Hd & _)%setup_directories_post.
  pose proof (stat_mono _ _ p Hsub Hne) as Hstat.
  destruct r as [[]|e].
  - exfalso. apply Hnd. rewrite <- Hstat.
    destruct (Hd eq_refl) as [Hdirs Hin].
    apply in_inv in Hp as [<-|Hp]; [exact Hin|].
    apply in_map_iff in Hp as (subdir & <- & Hsubdir).
    by apply (proj1 (List.Forall_forall _ _) Hdirs).
  - destruct (setup_directories_raises _ _ _ _ Hs) as [n ->].
    exists n, w'. unfold main_body. rewrite bind_eq, Hs. split_and!; [done..|].
    apply (setup_directories_frame _ _ _ _ _ Hs (config_path_fresh REPO_ROOT)).
Qed.

Lemma setup_directories_blocked_witness :
  let w := World (<[ ["outputs"]%string := File (str "notes") ]> ∅) [] example_clock in
  exists n w',
    main_body [] (fun _ => []) default_namespace w = (Raise (OSError n), w') /\
    w'.(output) = [].
Proof.
  intros w.
  destruct (setup_directories_blocked [] (fun _ => []) default_namespace w
              ["research"; "outputs"]%string)
    as (n & w' & _ & Hm & _ & Hout & _).
  - right. left. reflexivity.
  - split; vm_compute; discriminate.
  - exists n, w'. by split.
Defined.

(** *** save_config *)

Lemma save_config_cases REPO_ROOT config w :
  save_config REPO_ROOT config w
  = (Ok tt,
     emit (Print (str "Configuration saved to " ++ path_str (config_path REPO_ROOT)))
          (set_files (<[config_path REPO_ROOT := File (dumps config)]> w.(files)) w)) /\
  stat w.(files) (INPUTS_DIR REPO_ROOT) = StDir /\
  w.(files) !! config_path REPO_ROOT <> Some Dir
  \/
  (exists n, save_config REPO_ROOT config w = (Raise (OSError n), w)) /\
  (stat w.(files) (INPUTS_DIR REPO_ROOT) <> StDir \/
   w.(files) !! config_path REPO_ROOT = Some Dir).
Proof.
  unfold save_config, bind, write_text, print.
  change (config_path REPO_ROOT) with ("config.json"%string :: INPUTS_DIR REPO_ROOT).
  destruct (stat (files w) (INPUTS_DIR REPO_ROOT)) as [|c|e] eqn:Hparent;
    rewrite ?Hparent.
  - destruct (files w !! ("config.json"%string :: INPUTS_DIR REPO_ROOT)) as [[c|]|] eqn:Hl;
      rewrite ?Hl.
    + left. by split_and!.
    + right. split; [by eexists|by right].
    + left. by split_and!.
  - right. split; [by eexists|by left].
  - right. split; [by eexists|by left].
Qed.

(** X4. [save_config] is all or nothing, for a record the encoder can
    write (nested at most 100 deep, integers of at most 4300 characters)
    on a disk without symbolic links.  When the input directory is a
    directory and no directory stands at the configuration path, it
    replaces the content of the configuration file, whatever it was, by
    the dump of the record, touches no other path and prints one line
    naming the file; otherwise it raises an operating-system error,
    prints nothing and leaves the world as it was. *)
Theorem save_config_all_or_nothing :
  forall (REPO_ROOT : path) (config : value) (w : world),
    within_limits config = true ->
    let ready := stat w.(files) (INPUTS_DIR REPO_ROOT) = StDir /\
                 w.(files) !! config_path REPO_ROOT <> Some Dir in
    (ready ->
     exists w',
       save_config REPO_ROOT config w = (Ok tt, w') /\
       w'.(files) !! config_path REPO_ROOT = Some (File (dumps config)) /\
       (forall q, q <> config_path REPO_ROOT -> w'.(files) !! q = w.(files) !! q) /\
       w'.(output)
       = w.(output)
         ++ [Print (str "Configuration saved to " ++ path_str (config_path REPO_ROOT))]) /\
    (~ ready ->
     exists n, save_config REPO_ROOT config w = (Raise (OSError n), w)).
Proof.
  intros REPO_ROOT config w _ ready. subst ready.
  destruct (save_config_cases REPO_ROOT config w) as [(Hs & Hin & Hl)|([n Hs] & Hno)].
  - split; [|by intros []].
    intros _. eexists. split; [exact Hs|]. cbn [emit set_files files output].
    split_and!; [by rewrite lookup_insert_eq| |done].
    intros q Hq. by rewrite lookup_insert_ne.
  - split; [|intros _; by exists n].
    intros [Hin Hl]. by destruct Hno.
Qed.

Lemma save_config_all_or_nothing_witness :
  exists w',
    save_config example_root (PyDict []) example_world = (Ok tt, w') /\
    w'.(output)
    = [Print (str "Configuration saved to /home/paper-writer/inputs/config.json")].
Proof.
  destruct (proj1 (save_config_all_or_nothing example_root (PyDict []) example_world
                     eq_refl))
    as (w' & Hs & _ & _ & Hout).
  - split; [vm_compute; reflexivity|vm_compute; discriminate].
  - exists w'. split; [exact Hs|]. rewrite Hout. vm_compute. reflexivity.
Defined.

(** X5. Saving overwrites without merging.  After a successful save, a
    second save of a record the encoder can write (nested at most 100
    deep, integers of at most 4300 characters) succeeds: the file then
    holds the dump of the second record only, the tree is what the
    second save alone would have left, and [load_config] returns the
    second record (for a record whose strings hold no surrogate pair and
    whose keys are distinct). *)
Theorem save_config_overwrites :
  forall (REPO_ROOT : path) (first second : value) (w w1 : world),
    within_limits second = true ->
    save_config REPO_ROOT first w = (Ok tt, w1) ->
    exists w2,
      save_config REPO_ROOT second w1 = (Ok tt, w2) /\
      w2.(files) = <[config_path REPO_ROOT := File (dumps second)]> w.(files) /\
      (wf_value second -> load_config REPO_ROOT w2 = (Ok second, w2)).
Proof.
  intros REPO_ROOT first second w w1 _ H1.
  destruct (save_config_cases REPO_ROOT first w) as [(Hs & Hin & Hl)|([n Hs] & _)];
    [|congruence].
  rewrite Hs in H1. injection H1 as <-.
  destruct (save_config_cases REPO_ROOT second
              (emit (Print (str "Configuration saved to " ++ path_str (config_path REPO_ROOT)))
                 (set_files (<[config_path REPO_ROOT := File (dumps first)]> (files w)) w)))
    as [(Hs2 & _)|(_ & [Hno|Hno])].
  - eexists. split; [exact Hs2|]. cbn [emit set_files files]. split.
    + apply insert_insert_eq.
    + intros Hwf. eapply save_then_load; [exact Hwf|exact Hs2].
  - exfalso. apply Hno. cbn [emit set_files files].
    change (config_path REPO_ROOT) with ("config.json"%string :: INPUTS_DIR REPO_ROOT).
    rewrite stat_insert_longer by (cbn [length]; lia). exact Hin.
  - exfalso. cbn [emit set_files files] in Hno. by rewrite lookup_insert_eq in Hno.
Qed.

Lemma save_config_overwrites_witness :
  let first := PyDict [(str "theme", PyStr (str "Burnout"))] in
  let second := PyDict [(str "theme", PyStr (str "Stress"))] in
  let w1 := (save_config example_root first example_world).2 in
  exists w2,
    save_config example_root second w1 = (Ok tt, w2) /\
    load_config example_root w2 = (Ok second, w2).
Proof.
  intros first second w1.
  destruct (save_config_overwrites example_root first second example_world w1)
    as (w2 & Hs & _ & Hload).
  - reflexivity.
  - vm_compute. reflexivity.
  - exists w2. split; [exact Hs|]. apply Hload.
    split; [eapply bool_decide_unpack; vm_compute; exact I|].
    split; [reflexivity|]. split; [reflexivity|exact I].
Defined.

(** *** The argument parser *)

Lemma take_action_outcome a arg ns w :
  (forall p, ns.(phase) = Some p -> In p PHASES) ->
  parse_outcome w (take_action a arg ns w).
Proof.
  intros Hns. destruct a; cbn [take_action]; try (by split).
  - left. by split.
  - unfold bind, lift. destruct (py_int arg) as [[n|]|e] eqn:Hi; cbn [parse_outcome].
    + by split.
    + right. left. by split.
    + unfold py_int in Hi. repeat (case_match; simplify_eq). right. right. by split.
  - destruct (existsb (pystr_eqb arg) PHASES) eqn:Hp; cbn [parse_outcome ret parser_error].
    + split; [done|]. cbn [phase]. intros p [= <-].
      apply existsb_exists in Hp as (x & Hx & Heq).
      apply bool_decide_eq_true_1 in Heq. by subst.
    + right. left. by split.
Qed.

Lemma consume_outcome n : forall items ns extras w,
  (length items <= n)%nat ->
  (forall p, ns.(phase) = Some p -> In p PHASES) ->
  parse_outcome w (consume items ns extras w).
Proof.
  induction n as [|n IH]; intros items ns extras w Hlen Hns.
  - destruct items; [|cbn [length] in Hlen; lia].
    cbn [consume]. destruct extras; [right; left; by split|by split].
  - destruct items as [|i r]; [cbn [consume]; destruct extras; [right; left; by split|by split]|].
    cbn [length] in Hlen.
    assert (Hstep : forall a arg r' ex,
               (length r' <= n)%nat ->
               parse_outcome w ((ns' <- take_action a arg ns ;; consume r' ns' ex) w)).
    { intros a arg r' ex Hr'. unfold bind.
      pose proof (take_action_outcome a arg ns w Hns) as Ht.
      destruct (take_action a arg ns w) as [[ns'|e] w1]; [|exact Ht].
      destruct Ht as [-> Hns']. apply IH; [done|exact Hns']. }
    destruct i as [|arg o]; cbn [consume].
    + apply IH; [lia|done].
    + destruct o as [|[a|] option_string [explicit_arg|]| |].
      * apply IH; [lia|done].
      * destruct (takes_value a).
        -- destruct (pystr_eqb explicit_arg (str "--")); [right; right; by split|].
           apply Hstep. lia.
        -- match goal with |- context [if ?c then _ else _] => destruct c end;
             [apply Hstep; lia|right; left; by split].
      * destruct (takes_value a); [|apply Hstep; lia].
        destruct r as [|[|arg' [| | |]] r']; try (right; left; by split).
        apply Hstep. cbn [length] in Hlen. lia.
      * apply IH; [lia|done].
      * apply IH; [lia|done].
      * right. left. by split.
      * right. right. by split.
Qed.

Lemma parse_args_outcome argv w : parse_outcome w (parse_args argv w).
Proof.
  unfold parse_args.
  destruct (existsb is_ambiguous (classify argv)); [right; left; by split|].
  destruct (existsb is_outside (classify argv)); [right; right; by split|].
  by apply (consume_outcome (length (classify argv))).
Qed.

(** X6. Whatever the argument strings, when the parser stops the run (the
    help was asked for, or the arguments are in error), [main] stops with
    it before the bootstrap: the file tree is untouched, no directory is
    made, and all that is written is the help, with exit status 0, or the
    usage error, with exit status 2. *)
Theorem argument_errors_come_first :
  forall (REPO_ROOT : path) (resolve : pystr -> path) (argv : list pystr)
         (w w' : world) (e : exn),
    parse_args argv w = (Raise e, w') ->
    main REPO_ROOT resolve argv w = (Raise e, w') /\
    w'.(files) = w.(files) /\
    (e = SystemExit 0 /\ w'.(output) = w.(output) ++ [PrintHelp] \/
     e = SystemExit 2 /\ w'.(output) = w.(output) ++ [PrintUsageError] \/
     e = NotModelled /\ w'.(output) = w.(output)).
Proof.
  intros REPO_ROOT resolve argv w w' e Hp.
  pose proof (parse_args_outcome argv w) as Ho. rewrite Hp in Ho.
  split; [unfold main; by rewrite bind_eq, Hp|].
  destruct Ho as [[-> ->]|[[-> ->]|[-> ->]]]; (split; [done|]); tauto.
Qed.

Lemma argument_errors_come_first_witness :
  main example_root (fun _ => []) [str "--sample"; str "many"] empty_world
  = (Raise (SystemExit 2), emit PrintUsageError empty_world).
Proof.
  apply (argument_errors_come_first example_root (fun _ => [])
           [str "--sample"; str "many"] empty_world).
  vm_compute. reflexivity.
Defined.

(** X7. The parser is the guard of the phase table: whenever
    [parse_args] returns, it has written nothing, and the phase it
    returns, if any, is one of the six, for which
    [print_phase_instructions] prints the block of the table; so through
    [main] the "Unknown phase" answer is never given. *)
Theorem parsed_phase_is_known :
  forall (argv : list pystr) (w w' : world) (args : Namespace),
    parse_args argv w = (Ok args, w') ->
    w' = w /\
    forall p, args.(phase) = Some p ->
      In p PHASES /\
      exists block,
        In (p, block) instructions /\
        forall w0, print_phase_instructions p w0 = (Ok tt, emit (Print block) w0).
Proof.
  intros argv w w' args Hp.
  pose proof (parse_args_outcome argv w) as Ho. rewrite Hp in Ho.
  destruct Ho as [-> Hphase]. split; [done|].
  intros p Hargs. specialize (Hphase p Hargs). split; [done|].
  destruct (instructions_block p Hphase) as (block & Hin & Hget).
  exists block. split; [done|]. intros w0.
  unfold print_phase_instructions, print. by rewrite Hget.
Qed.

Lemma parsed_phase_is_known_witness :
  exists args block,
    parse_args [str "--full"; str "--phase=analyze"] empty_world = (Ok args, empty_world) /\
    In (str "analyze", block) instructions /\
    print_phase_instructions (str "analyze") empty_world
    = (Ok tt, emit (Print block) empty_world).
Proof.
  pose (args := {| theme := None; instruments := None; sample := 50;
                   phase := Some (str "analyze"); full := true; status := false;
                   config := None |}).
  destruct (parsed_phase_is_known [str "--full"; str "--phase=analyze"] empty_world
              empty_world args) as [_ Hphase]; [vm_compute; reflexivity|].
  destruct (Hphase (str "analyze") eq_refl) as (_ & block & Hin & Hprint).
  exists args, block. split; [vm_compute; reflexivity|]. split; [exact Hin|apply Hprint].
Defined.

(** *** The status report *)

Lemma join_value_strs sep l : join_value sep (PyList (map PyStr l)) = Ok (join sep l).
Proof. cbn [join_value]. by rewrite all_strs_map. Qed.

Lemma append_output w events1 events2 :
  World w.(files) ((w.(output) ++ events1) ++ events2) w.(clock)
  = World w.(files) (w.(output) ++ events1 ++ events2) w.(clock).
Proof. by rewrite <- app_assoc. Qed.

Lemma print_status_statuses theme instruments sample_size created s1 s2 s3 s4 s5 s6 w :
  print_status (record_with_statuses theme instruments sample_size created
                  [s1; s2; s3; s4; s5; s6]) w
  = (Ok tt,
     World w.(files)
       (w.(output)
        ++ status_report theme (join (str ", ") instruments) (int_repr sample_size)
             [s1; s2; s3; s4; s5; s6])
       w.(clock)).
Proof.
  unfold print_status.
  set (config := record_with_statuses _ _ _ _ _).
  change (getitem config (str "theme")) with (Ok (PyStr theme)).
  change (getitem config (str "instruments")) with (Ok (PyList (map PyStr instruments))).
  change (getitem config (str "sample_size")) with (Ok (PyInt sample_size)).
  cbn [rbind]. rewrite join_value_strs.
  destruct w as [fs out now]. cbv -[app join int_repr].
  rewrite <- !app_assoc. reflexivity.
Qed.

(** X8. The status report of a record whose theme, instruments and
    statuses are texts the output can encode (no surrogate code point)
    and whose sample size has at most 4300 characters: after the
    heading, the theme, the instruments joined by a comma and a space,
    and the sample size, each of the six phases is listed in the fixed
    order with the status the record holds for it, whatever text that
    is; a phase whose status is exactly "pending" is indented by two
    more spaces, every other status is marked with a star.  Nothing but
    the output changes. *)
Theorem print_status_report :
  forall (theme : pystr) (instruments : list pystr) (sample_size : Z)
         (created : pystr) (statuses : list pystr) (w : world),
    encodable theme = true ->
    Forall (fun i => encodable i = true) instruments ->
    Forall (fun s => encodable s = true) statuses ->
    short_int sample_size = true ->
    length statuses = 6%nat ->
    print_status (record_with_statuses theme instruments sample_size created statuses) w
    = (Ok tt,
       World w.(files)
         (w.(output)
          ++ status_report theme (join (str ", ") instruments) (int_repr sample_size)
               statuses)
         w.(clock)).
Proof.
  intros theme instruments sample_size created statuses w _ _ _ _ Hlen.
  do 6 (destruct statuses as [|? statuses]; [discriminate Hlen|]).
  destruct statuses; [|discriminate Hlen].
  apply print_status_statuses.
Qed.

Lemma print_status_report_witness :
  (print_status
     (record_with_statuses (str "Burnout") [str "MBI"] 80 (str "2024-05-17T09:30:00")
        [str "done"; str "pending"; str "pending"; str "pending"; str "pending"; str "pending"])
     empty_world).2.(output)
  = [Print (str "
Current configuration:");
     Print (str "  Theme: Burnout");
     Print (str "  Instruments: MBI");
     Print (str "  Sample: 80");
     Print (str "
Phase status:");
     Print (str "  * research: done");
     Print (str "    feasibility-research: pending");
     Print (str "    simulate: pending");
     Print (str "    feasibility-data: pending");
     Print (str "    analyze: pending");
     Print (str "    write: pending")].
Proof.
  rewrite print_status_report;
    [vm_compute; reflexivity
    |reflexivity
    |repeat constructor
    |repeat constructor
    |reflexivity
    |reflexivity].
Defined.

(** X9. A configuration without a [phases] entry (a hand-written file
    with only the theme, the instruments and the sample size, say),
    whose theme and instruments are texts the output can encode and
    whose sample size has at most 4300 characters, is reported without
    error: every phase is listed with the status "unknown", marked with
    a star. *)
Theorem print_status_without_phases :
  forall (d : list (pystr * value)) (theme : pystr) (instruments : list pystr)
         (sample_size : Z) (w : world),
    encodable theme = true ->
    Forall (fun i => encodable i = true) instruments ->
    short_int sample_size = true ->
    dict_get d (str "theme") = Some (PyStr theme) ->
    dict_get d (str "instruments") = Some (PyList (map PyStr instruments)) ->
    dict_get d (str "sample_size") = Some (PyInt sample_size) ->
    dict_get d (str "phases") = None ->
    print_status (PyDict d) w
    = (Ok tt,
       World w.(files)
         (w.(output)
          ++ status_report theme (join (str ", ") instruments) (int_repr sample_size)
               (repeat (str "unknown") 6))
         w.(clock)).
Proof.
  intros d theme instruments sample_size w _ _ _ Ht Hi Hn Hp.
  unfold print_status. cbn [getitem get]. rewrite Ht, Hi, Hn, Hp.
  cbn [rbind]. rewrite join_value_strs.
  destruct w as [fs out now]. cbv -[app join int_repr].
  rewrite <- !app_assoc. reflexivity.
Qed.

Lemma print_status_without_phases_witness :
  (print_status
     (PyDict [(str "theme", PyStr (str "Burnout"));
              (str "instruments", PyList [PyStr (str "MBI")]);
              (str "sample_size", PyInt 80)])
     empty_world).2.(output)
  = [Print (str "
Current configuration:");
     Print (str "  Theme: Burnout");
     Print (str "  Instruments: MBI");
     Print (str "  Sample: 80");
     Print (str "
Phase status:");
     Print (str "  * research: unknown");
     Print (str "  * feasibility-research: unknown");
     Print (str "  * simulate: unknown");
     Print (str "  * feasibility-data: unknown");
     Print (str "  * analyze: unknown");
     Print (str "  * write: unknown")].
Proof.
  rewrite (print_status_without_phases _ (str "Burnout") [str "MBI"] 80);
    [vm_compute; reflexivity
    |reflexivity
    |repeat constructor
    |reflexivity
    |reflexivity|reflexivity|reflexivity|reflexivity].
Defined.

(** *** Configurations the reports cannot show *)

Lemma print_full_workflow_not_dict config w :
  (forall d, config <> PyDict d) -> print_full_workflow config w = (Raise TypeError, w).
Proof. intros Hd. destruct config; try reflexivity. by destruct (Hd items). Qed.

Lemma print_full_workflow_no_theme d w :
  dict_get d (str "theme") = None -> print_full_workflow (PyDict d) w = (Raise KeyError, w).
Proof. intros Ht. unfold print_full_workflow, bind, lift. cbn [getitem]. by rewrite Ht. Qed.

(** X10. The two reports check nothing before they index the
    configuration.  For a configuration that is not a JSON object (a
    list, a string, a number, [null]) the overview raises a type error
    and prints nothing, and the status report raises it after its
    heading; for an object without a theme both raise a key error in the
    same way. *)
Theorem reports_need_a_record :
  forall (config : value) (w : world),
    ((forall d, config <> PyDict d) ->
     print_full_workflow config w = (Raise TypeError, w) /\
     print_status config w
     = (Raise TypeError, emit (Print (str "
Current configuration:")) w)) /\
    (forall d, config = PyDict d -> dict_get d (str "theme") = None ->
     print_full_workflow config w = (Raise KeyError, w) /\
     print_status config w
     = (Raise KeyError, emit (Print (str "
Current configuration:")) w)).
Proof.
  intros config w. split.
  - intros Hd. split; [by apply print_full_workflow_not_dict|].
    destruct config; try reflexivity. by destruct (Hd items).
  - intros d -> Ht. split; [by apply print_full_workflow_no_theme|].
    unfold print_status, bind, lift, print. cbn [getitem]. by rewrite Ht.
Qed.

Lemma reports_need_a_record_witness :
  print_status (PyList [PyStr (str "Burnout")]) empty_world
  = (Raise TypeError, emit (Print (str "
Current configuration:")) empty_world).
Proof.
  apply (proj1 (reports_need_a_record (PyList [PyStr (str "Burnout")]) empty_world)).
  discriminate.
Defined.

(** X11. [--full] does not guard the overview: when the configuration
    file holds a falsy JSON value (an empty object, [null], zero, an
    empty list or string) and [--full] is given without [--status] or
    [--phase], [main] calls the overview on it and ends with a key error
    for the empty object and a type error otherwise, exit status 1,
    having printed nothing. *)
Theorem full_with_empty_configuration :
  forall (REPO_ROOT : path) (resolve : pystr -> path) (args : Namespace)
         (w w1 : world) (text : pystr) (cfg : value),
    truthy_opt args.(theme) && truthy_opt args.(instruments) = false ->
    truthy_opt args.(config) = false ->
    args.(status) = false -> truthy_opt args.(phase) = false -> args.(full) = true ->
    setup_directories REPO_ROOT w = (Ok tt, w1) ->
    stat w1.(files) (config_path REPO_ROOT) = StFile text ->
    loads text = Ok cfg ->
    truthy cfg = false ->
    main_body REPO_ROOT resolve args w
    = (Raise (match cfg with PyDict _ => KeyError | _ => TypeError end), w1) /\
    exit_status (main_body REPO_ROOT resolve args w).1 = 1 /\
    w1.(output) = w.(output).
Proof.
  intros REPO_ROOT resolve args w w1 text cfg Hti Hc Hst Hph Hfull Hs Hfile Hl Hcfg.
  assert (Hm : main_body REPO_ROOT resolve args w
               = (Raise (match cfg with PyDict _ => KeyError | _ => TypeError end), w1)).
  { unfold main_body. rewrite bind_eq, Hs, bind_eq.
    rewrite (handle_configuration_file _ _ _ _ text cfg) by done.
    unfold execute_action. rewrite Hst, Hph, Hfull. cbn [orb]. rewrite bind_eq.
    destruct cfg as [| | | |l|d]; try reflexivity.
    destruct d; [reflexivity|discriminate Hcfg]. }
  rewrite Hm. split_and!; [done|by destruct cfg|].
  by destruct (setup_output _ _ _ _ Hs).
Qed.

Lemma full_with_empty_configuration_witness :
  let w := set_files (<[config_path example_root := File (str "{}")]> example_files)
                     example_world in
  let args := {| theme := None; instruments := None; sample := 50; phase := None;
                 full := true; status := false; config := None |} in
  exists w1,
    main_body example_root (fun _ => []) args w = (Raise KeyError, w1) /\
    w1.(output) = [].
Proof.
  intros w args.
  destruct (full_with_empty_configuration example_root (fun _ => []) args w
              (setup_directories example_root w).2 (str "{}") (PyDict []))
    as (Hm & _ & Hout);
    [reflexivity|reflexivity|reflexivity|reflexivity|reflexivity
    |vm_compute; reflexivity|vm_compute; reflexivity|vm_compute; reflexivity
    |reflexivity|].
  eexists. split; [exact Hm|exact Hout].
Defined.

(** *** Errors [main] does not catch *)

Lemma load_config_directory REPO_ROOT w :
  stat w.(files) (config_path REPO_ROOT) = StDir ->
  load_config REPO_ROOT w = (Raise (OSError EISDIR), w).
Proof.
  intros Hdir. unfold load_config, bind, exists_, read_text. rewrite Hdir.
  cbn [negb]. by rewrite Hdir.
Qed.

(** X12. Only the missing file is caught.  When the configuration file
    exists but does not hold JSON, the decoding error leaves [main]
    uncaught, with [--status] as without it: exit status 1, none of the
    hints of the missing-file case is printed, and nothing on the disk
    changes after the bootstrap.  The same holds when a directory stands
    at the configuration path: opening it raises an operating-system
    error that is not the one [main] catches. *)
Theorem unreadable_configuration :
  forall (REPO_ROOT : path) (resolve : pystr -> path) (args : Namespace) (w w1 : world),
    truthy_opt args.(theme) && truthy_opt args.(instruments) = false ->
    truthy_opt args.(config) = false ->
    setup_directories REPO_ROOT w = (Ok tt, w1) ->
    (forall text,
       stat w1.(files) (config_path REPO_ROOT) = StFile text ->
       loads text = Raise JSONDecodeError ->
       main_body REPO_ROOT resolve args w = (Raise JSONDecodeError, w1)) /\
    (stat w1.(files) (config_path REPO_ROOT) = StDir ->
     main_body REPO_ROOT resolve args w = (Raise (OSError EISDIR), w1)) /\
    w1.(output) = w.(output).
Proof.
  intros REPO_ROOT resolve args w w1 Hti Hc Hs. split_and!.
  - intros text Hfile Hl. unfold main_body. rewrite bind_eq, Hs, bind_eq.
    unfold handle_configuration. rewrite Hti, Hc. unfold try_except.
    by rewrite (load_config_file _ _ _ Hfile), Hl.
  - intros Hdir. unfold main_body. rewrite bind_eq, Hs, bind_eq.
    unfold handle_configuration. rewrite Hti, Hc.
    unfold try_except. by rewrite (load_config_directory _ _ Hdir).
  - by destruct (setup_output _ _ _ _ Hs).
Qed.

Lemma unreadable_configuration_witness :
  let w := set_files (<[config_path example_root := File (str "{theme: Burnout}")]>
                        example_files) example_world in
  let args := {| theme := None; instruments := None; sample := 50; phase := None;
                 full := false; status := true; config := None |} in
  exists w1,
    main_body example_root (fun _ => []) args w = (Raise JSONDecodeError, w1) /\
    w1.(output) = [].
Proof.
  intros w args.
  destruct (unreadable_configuration example_root (fun _ => []) args w
              (setup_directories example_root w).2)
    as (Hjson & _ & Hout); [reflexivity|reflexivity|vm_compute; reflexivity|].
  eexists. split; [|exact Hout].
  apply (Hjson (str "{theme: Burnout}")); vm_compute; reflexivity.
Defined.



(** *** The run that creates the configuration *)

Lemma plain_argument_positional s :
  plain_argument s = true ->
  pystr_eqb s (str "--") = false /\ parse_optional s = Positional /\ truthy_opt (Some s) = true.
Proof.
  destruct s as [|c r]; [done|]. cbn [plain_argument]. intros Hc.
  split_and!; [|by cbn [parse_optional]; rewrite Hc|done].
  apply bool_decide_eq_false_2. intros [= -> _]. done.
Qed.

Lemma parse_theme_instruments t i w :
  plain_argument t = true -> plain_argument i = true ->
  parse_args [str "--theme"; t; str "--instruments"; i] w
  = (Ok {| theme := Some t; instruments := Some i; sample := 50; phase := None;
           full := false; status := false; config := None |}, w).
Proof.
  intros (Ht & Hpt & _)%plain_argument_positional (Hi & Hpi & _)%plain_argument_positional.
  unfold parse_args. cbn [classify].
  change (pystr_eqb (str "--theme") (str "--")) with false.
  change (pystr_eqb (str "--instruments") (str "--")) with false.
  rewrite Ht, Hi, Hpt, Hpi. cbv iota.
  change (parse_optional (str "--theme")) with (Optional (Some a_theme) (str "--theme") None).
  change (parse_optional (str "--instruments"))
    with (Optional (Some a_instruments) (str "--instruments") None).
  reflexivity.
Qed.

Lemma phase_commands_lines w :
  phase_commands w
  = (Ok tt, World w.(files) (w.(output) ++ phase_command_lines) w.(clock)).
Proof.
  destruct w as [fs out now]. cbv -[app]. rewrite <- !app_assoc. reflexivity.
Qed.

Lemma overview_and_commands theme instruments sample_size now w :
  (print_full_workflow (config_record theme instruments sample_size now) ;; phase_commands) w
  = (Ok tt,
     World w.(files)
       (w.(output)
        ++ Print (workflow_text (ljust 56 (firstn 56 theme))
                                (ljust 52 (join (str ", ") instruments))
                                (ljust 53 (int_repr sample_size)))
           :: phase_command_lines)
       w.(clock)).
Proof.
  rewrite bind_eq, print_full_workflow_record, phase_commands_lines.
  cbn [emit files output clock]. by rewrite <- app_assoc.
Qed.

Lemma main_creates :
  forall (REPO_ROOT : path) (resolve : pystr -> path) (t i : pystr) (w w1 : world),
    plain_argument t = true -> plain_argument i = true ->
    setup_directories REPO_ROOT w = (Ok tt, w1) ->
    w.(files) !! config_path REPO_ROOT <> Some Dir ->
    main REPO_ROOT resolve [str "--theme"; t; str "--instruments"; i] w
    = (Ok tt,
       World (<[config_path REPO_ROOT :=
                  File (dumps (config_record t (parse_instruments i) 50 w.(clock)))]>
                w1.(files))
         (w.(output)
          ++ Print (str "Configuration saved to " ++ path_str (config_path REPO_ROOT))
             :: Print (workflow_text (ljust 56 (firstn 56 t))
                         (ljust 52 (join (str ", ") (parse_instruments i)))
                         (ljust 53 (int_repr 50)))
             :: phase_command_lines)
         w.(clock)).
Proof.
  intros REPO_ROOT resolve t i w w1 Ht Hi Hs Hl.
  pose proof Hs as (_ & [Hout Hclock] & Hd & _)%setup_directories_post.
  destruct (Hd eq_refl) as [_ Hin].
  apply plain_argument_positional in Ht as Ht'. destruct Ht' as (_ & _ & Htt).
  apply plain_argument_positional in Hi as Hi'. destruct Hi' as (_ & _ & Hti).
  unfold main. rewrite bind_eq, parse_theme_instruments by done.
  unfold main_body. rewrite bind_eq, Hs, bind_eq.
  unfold handle_configuration. cbn [theme instruments sample]. rewrite Htt, Hti.
  cbn [andb default from_option id].
  rewrite bind_eq, create_config_eq, bind_eq.
  destruct (save_config_cases REPO_ROOT
              (config_record t (parse_instruments i) 50 (clock w1)) w1)
    as [(Hsave & _)|(_ & [Hno|Hno])].
  - rewrite Hsave. unfold ret, execute_action. cbn [status phase full truthy_opt orb].
    change (truthy (config_record t (parse_instruments i) 50 (clock w1))) with true.
    cbv iota.
    change (print (str "
To execute a phase, run:") ;;
            for_ PHASES (fun phase => print (str "  python run.py --phase " ++ phase)))
      with phase_commands.
    rewrite overview_and_commands. cbn [emit set_files files output clock].
    rewrite Hout, Hclock, <- app_assoc. reflexivity.
  - by destruct Hno.
  - destruct Hl.
    by rewrite <- (setup_directories_frame _ _ _ _ _ Hs (config_path_fresh REPO_ROOT)).
Qed.

(** X14. The run that creates the configuration.  For a theme and an
    instrument string that are not empty, do not start with a dash and
    are texts the output can encode (no surrogate code point), the
    bootstrap succeeding and no directory standing at the configuration
    path, [main] with [--theme] and [--instruments] returns normally:
    the configuration file holds the dump of the record made of the
    theme, the parsed instruments, the default sample size 50 and the
    time of the run, nothing else on the disk differs from what the
    bootstrap left, and the output is the line naming the saved file,
    the overview of the new record and the list of phase commands. *)
Theorem creating_run :
  forall (REPO_ROOT : path) (resolve : pystr -> path) (t i : pystr) (w w1 : world),
    plain_argument t = true -> plain_argument i = true ->
    encodable t = true -> encodable i = true ->
    setup_directories REPO_ROOT w = (Ok tt, w1) ->
    w.(files) !! config_path REPO_ROOT <> Some Dir ->
    main REPO_ROOT resolve [str "--theme"; t; str "--instruments"; i] w
    = (Ok tt,
       World (<[config_path REPO_ROOT :=
                  File (dumps (config_record t (parse_instruments i) 50 w.(clock)))]>
                w1.(files))
         (w.(output)
          ++ Print (str "Configuration saved to " ++ path_str (config_path REPO_ROOT))
             :: Print (workflow_text (ljust 56 (firstn 56 t))
                         (ljust 52 (join (str ", ") (parse_instruments i)))
                         (ljust 53 (int_repr 50)))
             :: phase_command_lines)
         w.(clock)).
Proof. intros REPO_ROOT resolve t i w w1 Ht Hi _ _. by apply main_creates. Qed.

Lemma creating_run_witness :
  exists w',
    main example_root (fun _ => [])
         [str "--theme"; str "Burnout"; str "--instruments"; str "MBI, EQ-i"] example_world
    = (Ok tt, w') /\
    w'.(files) !! config_path example_root
    = Some (File (dumps (config_record (str "Burnout") [str "MBI"; str "EQ-i"] 50
                           example_clock))).
Proof.
  eexists. split.
  - apply (creating_run example_root (fun _ => []) (str "Burnout") (str "MBI, EQ-i")
             example_world (setup_directories example_root example_world).2);
      [reflexivity|reflexivity|reflexivity|reflexivity
      |vm_compute; reflexivity|vm_compute; discriminate].
  - cbn [files]. by rewrite lookup_insert_eq.
Defined.

(** *** The parsed instruments are well formed *)

Lemma no_surrogate_pair_app a b :
  no_surrogate_pair (a ++ b) = true ->
  no_surrogate_pair a = true /\ no_surrogate_pair b = true.
Proof.
  induction a as [|c a IH]; [done|].
  cbn [app no_surrogate_pair]. intros [Hc Hr]%andb_prop.
  destruct (IH Hr) as [Ha Hb]. split; [|done].
  rewrite Ha, andb_true_r. by destruct a.
Qed.

Lemma wf_str_app a b : wf_str (a ++ b) = true -> wf_str a = true /\ wf_str b = true.
Proof.
  unfold wf_str. rewrite forallb_app. intros [[Ha Hb]%andb_prop Hn]%andb_prop.
  apply no_surrogate_pair_app in Hn as [Hna Hnb].
  by rewrite Ha, Hb, Hna, Hnb.
Qed.

Lemma join_infix sep pieces p :
  In p pieces -> exists pre post, join sep pieces = pre ++ p ++ post.
Proof.
  induction pieces as [|q qs IH]; [done|]. intros [->|Hp].
  - destruct qs as [|q' qs].
    + exists [], []. cbn [join app]. by rewrite app_nil_r.
    + rewrite join_cons. by exists [], (sep ++ join sep (q' :: qs)).
  - destruct qs as [|q' qs]; [done|].
    destruct (IH Hp) as (pre & post & Hj). rewrite join_cons, Hj.
    exists (q ++ sep ++ pre), post. by rewrite <- !app_assoc.
Qed.

Lemma parse_instruments_wf s :
  wf_str s = true -> Forall (fun i => wf_str i = true) (parse_instruments s).
Proof.
  intros Hs. unfold parse_instruments. apply List.Forall_forall.
  intros token (p & <- & Hp)%in_map_iff.
  destruct (join_infix [COMMA] _ _ Hp) as (pre & post & Hj).
  rewrite join_split in Hj. rewrite Hj in Hs.
  apply wf_str_app in Hs as [_ Hs]. apply wf_str_app in Hs as [Hs _].
  destruct (strip_spec p) as (l & r & Hstrip & _).
  rewrite Hstrip in Hs.
  apply wf_str_app in Hs as [_ Hs]. by apply wf_str_app in Hs as [Hs _].
Qed.

Lemma stat_insert_off_path (fs : FS) p n q :
  ~ p `suffix_of` q -> stat (<[p := n]> fs) q = stat fs q.
Proof.
  induction q as [|name q IH]; intros Hq; [done|].
  cbn [stat]. rewrite IH by (intros Hs; apply Hq; by apply suffix_cons_r).
  rewrite lookup_insert_ne; [done|]. intros ->. by apply Hq.
Qed.

(** *** The status after the creating run *)

Lemma main_status REPO_ROOT resolve w :
  main REPO_ROOT resolve [str "--status"] w
  = main_body REPO_ROOT resolve
      {| theme := None; instruments := None; sample := 50; phase := None;
         full := false; status := true; config := None |} w.
Proof. reflexivity. Qed.

Lemma directories_exist_insert REPO_ROOT fs out now n :
  directories_exist REPO_ROOT (World fs out now) ->
  directories_exist REPO_ROOT (World (<[config_path REPO_ROOT := n]> fs) out now).
Proof.
  intros [Hout Hin]. pose proof (config_path_fresh REPO_ROOT) as [Hfi Hfo]%Forall_cons.
  split; cbn [files] in *.
  - apply List.Forall_forall. intros subdir Hsub.
    rewrite stat_insert_off_path.
    + by apply (proj1 (List.Forall_forall _ _) Hout).
    + apply (proj1 (List.Forall_forall _ _) Hfo). by apply in_map.
  - by rewrite stat_insert_off_path.
Qed.

Lemma encodable_wf_str s : encodable s = true -> wf_str s = true.
Proof.
  intros Hs. unfold encodable in Hs. unfold wf_str. apply andb_true_intro. split.
  - apply forallb_forall. intros c Hc.
    rewrite forallb_forall in Hs. by destruct (andb_prop _ _ (Hs c Hc)).
  - induction s as [|c s IH]; [done|].
    cbn [forallb] in Hs. apply andb_prop in Hs as [Hc Hs].
    cbn [no_surrogate_pair]. rewrite (IH Hs), andb_true_r.
    destruct s as [|d s]; [done|].
    apply andb_prop in Hc as [_ Hc]. apply negb_true_iff in Hc.
    unfold surrogate in Hc. unfold high_surrogate.
    destruct ((55296 <=? c) && (c <=? 56319)) eqn:Hh; [|done]. lia.
Qed.

(** X15. What one run saves the next run reports.  After the creating
    run of X14 (theme and instrument string without a surrogate code
    point), a run with [--status] alone returns normally, leaves the
    disk as it is and prints the status report of the saved record: the
    theme as given, the parsed instruments, the sample size 50, and the
    six phases, all pending. *)
Theorem status_after_creation :
  forall (REPO_ROOT : path) (resolve : pystr -> path) (t i : pystr) (w w1 : world),
    plain_argument t = true -> plain_argument i = true ->
    encodable t = true -> encodable i = true ->
    setup_directories REPO_ROOT w = (Ok tt, w1) ->
    w.(files) !! config_path REPO_ROOT <> Some Dir ->
    let created :=
      (main REPO_ROOT resolve [str "--theme"; t; str "--instruments"; i] w).2 in
    main REPO_ROOT resolve [str "--status"] created
    = (Ok tt,
       World created.(files)
         (created.(output)
          ++ status_report t (join (str ", ") (parse_instruments i)) (int_repr 50)
               (repeat (str "pending") 6))
         created.(clock)).
Proof.
  intros REPO_ROOT resolve t i w w1 Ht Hi Hwt%encodable_wf_str Hwi%encodable_wf_str
         Hs Hl created.
  subst created.
  rewrite (main_creates REPO_ROOT resolve t i w w1) by done. cbn [snd].
  pose proof Hs as (_ & _ & Hd & _)%setup_directories_post. specialize (Hd eq_refl).
  set (record := config_record t (parse_instruments i) 50 (clock w)).
  set (out := output w ++ _).
  set (w2 := World _ out (clock w)).
  assert (Hd2 : directories_exist REPO_ROOT w2).
  { destruct w1 as [fs1 out1 now1]. apply directories_exist_insert.
    destruct Hd as [Ho Hin]. by split. }
  assert (Hfile : stat w2.(files) (config_path REPO_ROOT) = StFile (dumps record)).
  { destruct Hd2 as [_ Hin]. unfold w2 in *. cbn [files] in *.
    change (config_path REPO_ROOT) with ("config.json"%string :: INPUTS_DIR REPO_ROOT) in *.
    cbn [stat]. rewrite Hin. by rewrite lookup_insert_eq. }
  assert (Hload : loads (dumps record) = Ok record).
  { apply loads_dumps, config_record_wf; [done|by apply parse_instruments_wf]. }
  rewrite main_status. unfold main_body.
  rewrite bind_eq, (setup_directories_exist _ _ Hd2), bind_eq.
  rewrite (handle_configuration_file _ _ _ _ (dumps record) record) by done.
  unfold execute_action. cbn [status].
  change (truthy record) with true. cbv iota.
  change record
    with (record_with_statuses t (parse_instruments i) 50 (isoformat (clock w))
            [str "pending"; str "pending"; str "pending";
             str "pending"; str "pending"; str "pending"]).
  apply print_status_statuses.
Qed.

Lemma status_after_creation_witness :
  let created :=
    (main example_root (fun _ => [])
          [str "--theme"; str "Burnout"; str "--instruments"; str "MBI, EQ-i"]
          example_world).2 in
  (main example_root (fun _ => []) [str "--status"] created).1 = Ok tt.
Proof.
  intros created. subst created.
  rewrite (status_after_creation example_root (fun _ => []) (str "Burnout") (str "MBI, EQ-i")
             example_world (setup_directories example_root example_world).2);
    [reflexivity|reflexivity|reflexivity|reflexivity|reflexivity
    |vm_compute; reflexivity|vm_compute; discriminate].
Defined.

(** *** The sample size on the command line *)

Lemma strip_no_space s : forallb (fun c => negb (isspace c)) s = true -> strip s = s.
Proof.
  intros Hs.
  assert (Hl : forall t, forallb (fun c => negb (isspace c)) t = true -> lstrip t = t).
  { intros [|c t]; [done|]. cbn [forallb lstrip]. intros [Hc _]%andb_prop.
    by apply negb_true_iff in Hc as ->. }
  unfold strip, rstrip. rewrite (Hl s Hs), Hl; [apply rev_involutive|].
  rewrite forallb_forall in *. intros c Hc. by apply Hs, in_rev.
Qed.

Lemma int_digits_all ds (b : bool) :
  forallb is_digit ds = true -> ds <> [] \/ b = true -> int_digits ds b = Some ds.
Proof.
  revert b. induction ds as [|c r IH]; intros b Hds Hb.
  - destruct Hb as [?| ->]; done.
  - cbn [forallb] in Hds. apply andb_prop in Hds as [Hc Hr].
    cbn [int_digits]. rewrite Hc, (IH true Hr); [done|by right].
Qed.

Lemma digit_facts c :
  is_digit c = true ->
  printable c = true /\ isspace c = false /\
  c <> 45 /\ c <> 43 /\ c <> 61 /\ c <> 104.
Proof. unfold is_digit, printable, isspace. lia. Qed.

(** The decimal notation of an integer: an optional minus sign and at
    least one digit. *)
Lemma int_repr_shape n :
  exists (neg : bool) ds,
    int_repr n = (if neg then [45] else []) ++ ds /\
    ds <> [] /\ forallb is_digit ds = true /\ int_of_chars neg ds = n.
Proof.
  unfold int_repr, int_of_chars.
  pose proof (DecimalZ.of_to n) as Hn.
  destruct (Z.to_int n) as [u|u] eqn:E.
  - exists false, (uint_chars u). split_and!; [done| |apply uint_chars_digits|].
    + destruct n as [|p|p]; cbn [Z.to_int] in E; try discriminate.
      * by injection E as <-.
      * injection E as <-. by destruct (to_uint_head p) as (c & t & -> & _).
    + by rewrite chars_uint_chars.
  - exists true, (uint_chars u). split_and!; [done| |apply uint_chars_digits|].
    + destruct n as [|p|p]; cbn [Z.to_int] in E; try discriminate.
      injection E as <-. by destruct (to_uint_head p) as (c & t & -> & _).
    + by rewrite chars_uint_chars.
Qed.

Lemma option_strings_shape :
  Forall (fun oa : pystr * action =>
            exists d r, fst oa = 45 :: d :: r /\ (d = 45 \/ d = 104))
         option_string_actions.
Proof.
  repeat (apply Forall_cons; split;
          [eexists _, _; split; [reflexivity|(by left) || (by right)]|]).
  by apply Forall_nil.
Qed.

Lemma split_eq_none s : ~ In 61 s -> split_eq s = None.
Proof.
  induction s as [|c r IH]; [done|]. intros Hs. cbn [split_eq].
  destruct (Z.eqb_spec c 61) as [->|_]; [by destruct Hs; left|].
  rewrite IH; [done|]. intros ?. apply Hs. by right.
Qed.

(** A minus sign and digits is no option of the parser: it is read as
    an argument. *)
Lemma parse_optional_number (neg : bool) ds :
  ds <> [] -> forallb is_digit ds = true ->
  parse_optional ((if neg then [45] else []) ++ ds) = Positional /\
  pystr_eqb ((if neg then [45] else []) ++ ds) (str "--") = false.
Proof.
  intros Hne Hds. destruct ds as [|c t]; [done|]. clear Hne.
  pose proof Hds as Hall. cbn [forallb] in Hds. apply andb_prop in Hds as [Hc Ht].
  destruct (digit_facts c Hc) as (Hpr & _ & H45 & _ & _ & H104).
  destruct neg; cbn [app]; cycle 1.
  { split; [|apply bool_decide_eq_false_2; by intros [= ? _]].
    cbn [parse_optional]. by destruct (Z.eqb_spec c 45). }
  split; [|apply bool_decide_eq_false_2; by intros [= ? _]].
  assert (Hfind : forall l, Forall (fun oa : pystr * action =>
                      exists d r, fst oa = 45 :: d :: r /\ (d = 45 \/ d = 104)) l ->
                    List.find (fun oa => pystr_eqb (fst oa) (45 :: c :: t)) l = None /\
                    flat_map (fun oa =>
                       if pystr_eqb (fst oa) (firstn 2 (45 :: c :: t))
                       then [Optional (Some (snd oa)) (fst oa) (Some (skipn 2 (45 :: c :: t)))]
                       else if startswith (fst oa) (45 :: c :: t)
                       then [Optional (Some (snd oa)) (fst oa) None]
                       else []) l = []).
  { induction 1 as [|[o a] l (d & r & Ho & Hd) _ [IH1 IH2]]; [done|].
    cbn [fst snd] in Ho. subst o. cbn [List.find flat_map fst snd].
    assert (Hcd : c <> d) by (destruct Hd; congruence).
    rewrite IH1, IH2.
    unfold pystr_eqb. cbn [firstn].
    rewrite !bool_decide_eq_false_2 by (intros [= ?]; congruence).
    unfold startswith. cbn [strip_prefix]. rewrite Z.eqb_refl.
    by destruct (Z.eqb_spec c d). }
  destruct (Hfind _ option_strings_shape) as [Hf1 Hf2].
  cbn [parse_optional]. change (negb (45 =? 45)) with false. cbv iota.
  unfold lookup_option. rewrite Hf1.
  rewrite split_eq_none; cycle 1.
  { intros [[=]|Hin]. rewrite forallb_forall in Hall.
    specialize (Hall 61 Hin). discriminate Hall. }
  unfold get_option_tuples. destruct (Z.eqb_spec c 45); [done|].
  rewrite Hf2.
  assert (Hprint : forallb printable (45 :: c :: t) = true).
  { cbn [forallb]. rewrite Hpr. cbn [andb]. change (printable 45) with true. cbn [andb].
    apply forallb_forall. intros x Hx. rewrite forallb_forall in Ht.
    by destruct (digit_facts x (Ht x Hx)) as [? _]. }
  rewrite Hprint. cbn [negb].
  unfold negative_number. change (45 =? 45) with true. cbn [andb].
  pose proof (take_digits_app (c :: t) [] Hall eq_refl) as Htd.
  rewrite app_nil_r in Htd. rewrite Htd.
  by rewrite bool_decide_eq_false_2.
Qed.

Lemma py_int_repr n : py_int (int_repr n) = Ok (Some n).
Proof.
  destruct (int_repr_shape n) as (neg & ds & -> & Hne & Hds & Hn).
  assert (Hall : forall x, In x ((if neg then [45] else []) ++ ds) ->
                   printable x = true /\ isspace x = false).
  { intros x [Hx|Hx]%in_app_or.
    - destruct neg; [|done]. by destruct Hx as [<-|[]].
    - rewrite forallb_forall in Hds. by destruct (digit_facts x (Hds x Hx)) as (? & ? & _). }
  unfold py_int.
  replace (forallb printable ((if neg then [45] else []) ++ ds)) with true
    by (symmetry; apply forallb_forall; intros x Hx; by apply Hall).
  cbn [negb]. rewrite strip_no_space
    by (apply forallb_forall; intros x Hx; apply negb_true_iff; by apply Hall).
  destruct ds as [|c t]; [done|].
  cbn [forallb] in Hds. pose proof Hds as [Hc _]%andb_prop.
  destruct (digit_facts c Hc) as (_ & _ & H45 & H43 & _).
  destruct neg; cbn [app].
  - change (45 =? 45) with true. cbv iota. by rewrite int_digits_all, Hn by auto.
  - destruct (Z.eqb_spec c 45); [done|]. destruct (Z.eqb_spec c 43); [done|].
    by rewrite int_digits_all, Hn by auto.
Qed.

(** X16. The sample size is not checked beyond being an integer: for
    every integer, negative ones and zero included (of at most the 4300
    characters CPython converts), [--sample] followed by its decimal
    notation is accepted and gives that integer as the sample size, the
    other arguments keeping their defaults; nothing is written. *)
Theorem sample_any_integer :
  forall (n : Z) (w : world),
    (length (int_repr n) <= 4300)%nat ->
    parse_args [str "--sample"; int_repr n] w
    = (Ok {| theme := None; instruments := None; sample := n; phase := None;
             full := false; status := false; config := None |}, w).
Proof.
  intros n w _.
  destruct (int_repr_shape n) as (neg & ds & Hrepr & Hne & Hds & _).
  destruct (parse_optional_number neg ds Hne Hds) as [Hpos Hdashes].
  rewrite <- Hrepr in Hpos, Hdashes.
  unfold parse_args. cbn [classify].
  change (pystr_eqb (str "--sample") (str "--")) with false.
  rewrite Hdashes, Hpos. cbv iota.
  change (parse_optional (str "--sample"))
    with (Optional (Some a_sample) (str "--sample") None).
  cbn [existsb is_ambiguous is_outside orb consume takes_value take_action].
  unfold bind, lift. by rewrite py_int_repr.
Qed.

Lemma sample_any_integer_witness :
  parse_args [str "--sample"; str "-5"] empty_world
  = (Ok {| theme := None; instruments := None; sample := -5; phase := None;
           full := false; status := false; config := None |}, empty_world).
Proof.
  apply (sample_any_integer (-5) empty_world). vm_compute. lia.
Defined.

(** *** The saved text *)

Lemma hex_digit_ascii n : 0 <= n < 16 -> is_ascii (hex_digit n) = true.
Proof. intros Hn. unfold hex_digit, is_ascii. destruct (n <? 10); lia. Qed.

Lemma u_escape_ascii n : forallb is_ascii (u_escape n) = true.
Proof.
  unfold u_escape. cbn [forallb].
  rewrite !hex_digit_ascii by (apply Z.mod_pos_bound; lia). reflexivity.
Qed.

Lemma escape_char_ascii c : forallb is_ascii (escape_char c) = true.
Proof.
  unfold escape_char.
  repeat (match goal with |- context [if ?b then _ else _] =>
            destruct b eqn:? end; try reflexivity).
  - cbn [forallb]. unfold is_ascii. lia.
  - apply u_escape_ascii.
  - by rewrite forallb_app, !u_escape_ascii.
Qed.

Lemma encode_basestring_ascii_ascii s :
  forallb is_ascii (encode_basestring_ascii s) = true.
Proof.
  unfold encode_basestring_ascii. cbn [forallb]. rewrite forallb_app.
  change (forallb is_ascii [QUOTE]) with true. rewrite andb_true_r.
  change (is_ascii QUOTE) with true. cbn [andb].
  induction s as [|c s IH]; [done|].
  cbn [flat_map]. by rewrite forallb_app, escape_char_ascii, IH.
Qed.

Lemma newline_indent_ascii level : forallb is_ascii (newline_indent level) = true.
Proof.
  unfold newline_indent. cbn [forallb]. change (is_ascii NEWLINE) with true. cbn [andb].
  induction (2 * level)%nat as [|m IH]; [done|]. exact IH.
Qed.

Lemma forallb_flat_map {A} (p : Z -> bool) (f : A -> pystr) l :
  Forall (fun x => forallb p (f x) = true) l -> forallb p (flat_map f l) = true.
Proof.
  induction 1 as [|x l Hx _ IH]; [done|].
  cbn [flat_map]. by rewrite forallb_app, Hx, IH.
Qed.

Lemma iterencode_ascii v : forall level, forallb is_ascii (iterencode v level) = true.
Proof.
  induction v as [|b|n|s|l IH|d IH] using value_ind'; intros level.
  - reflexivity.
  - by destruct b.
  - apply int_repr_ascii.
  - apply encode_basestring_ascii_ascii.
  - destruct l as [|v vs]; [reflexivity|].
    apply Forall_cons in IH as [Hv Hvs].
    assert (Hitems : forallb is_ascii (encode_items level vs) = true).
    { apply forallb_flat_map. eapply Forall_impl; [exact Hvs|].
      intros x Hx. change (forallb is_ascii (COMMA :: ?t)) with (forallb is_ascii t).
      by rewrite forallb_app, newline_indent_ascii, Hx. }
    by rewrite iterencode_list, !forallb_app, !newline_indent_ascii, Hv, Hitems.
  - destruct d as [|[k v] kvs]; [reflexivity|].
    apply Forall_cons in IH as [Hv Hkvs]. cbn [snd] in Hv.
    assert (Hpair : forall kv : pystr * value,
               (forall level, forallb is_ascii (iterencode kv.2 level) = true) ->
               forallb is_ascii (encode_pair level kv) = true).
    { intros kv Hkv. unfold encode_pair.
      by rewrite !forallb_app, encode_basestring_ascii_ascii, Hkv. }
    assert (Hpairs : forallb is_ascii (encode_pairs level kvs) = true).
    { apply forallb_flat_map. eapply Forall_impl; [exact Hkvs|].
      intros kv Hkv. change (forallb is_ascii (COMMA :: ?t)) with (forallb is_ascii t).
      by rewrite forallb_app, newline_indent_ascii, Hpair. }
    by rewrite iterencode_dict, !forallb_app, !newline_indent_ascii, Hpair, Hpairs.
Qed.

(** X17. The configuration file is plain ASCII whatever the record
    holds: [save_config] writes every character outside printable ASCII
    as an escape, so a theme or an instrument name in any script is
    stored as ASCII text. *)
Theorem saved_text_is_ascii :
  forall (REPO_ROOT : path) (config : value) (w w' : world),
    save_config REPO_ROOT config w = (Ok tt, w') ->
    exists text,
      stat w'.(files) (config_path REPO_ROOT) = StFile text /\
      text = dumps config /\
      forallb is_ascii text = true.
Proof.
  intros REPO_ROOT config w w' [_ Hstat]%save_config_ok.
  exists (dumps config). split_and!; [exact Hstat|done|apply iterencode_ascii].
Qed.

Lemma saved_text_is_ascii_witness :
  let config := PyDict [(str "theme", PyStr [233; 116; 117; 100; 101; 128512])] in
  exists text,
    stat (save_config example_root config example_world).2.(files)
         (config_path example_root) = StFile text /\
    forallb is_ascii text = true.
Proof.
  intros config.
  destruct (saved_text_is_ascii example_root config example_world
              (save_config example_root config example_world).2)
    as (text & Hstat & _ & Hascii); [vm_compute; reflexivity|].
  exists text. split; [exact Hstat|exact Hascii].
Defined.

(** *** The overview does not cut the instruments *)

Lemma ljust_prefix width s : firstn (length s) (ljust width s) = s.
Proof. unfold ljust. by rewrite take_app_length. Qed.

Lemma ljust_width width s : length (ljust width s) = Nat.max width (length s).
Proof. unfold ljust. rewrite length_app, repeat_length. lia. Qed.

(** X18. Unlike the theme, the instruments and the sample size are
    never cut in the overview.  For a record whose theme and instruments
    are texts the output can encode (no surrogate code point) and whose
    sample size has at most 4300 characters, the overview is printed
    with fields that start with the whole text (the instrument names
    joined by a comma and a space, the decimal notation of the sample
    size) and are padded with spaces to 52 and 53 characters; a longer
    text is shown whole and makes its line longer than the box. *)
Theorem overview_fields_not_cut :
  forall (theme : pystr) (instruments : list pystr) (sample_size : Z)
         (now : datetime) (w : world),
    encodable theme = true ->
    Forall (fun i => encodable i = true) instruments ->
    short_int sample_size = true ->
    let joined := join (str ", ") instruments in
    let number := int_repr sample_size in
    exists instruments_field sample_field,
      print_full_workflow (config_record theme instruments sample_size now) w
      = (Ok tt,
         emit (Print (workflow_text (ljust 56 (firstn 56 theme))
                        instruments_field sample_field)) w) /\
      firstn (length joined) instruments_field = joined /\
      length instruments_field = Nat.max 52 (length joined) /\
      firstn (length number) sample_field = number /\
      length sample_field = Nat.max 53 (length number).
Proof.
  intros theme instruments sample_size now w _ _ _ joined number.
  exists (ljust 52 joined), (ljust 53 number). split_and!.
  - apply print_full_workflow_record.
  - apply ljust_prefix.
  - apply ljust_width.
  - apply ljust_prefix.
  - apply ljust_width.
Qed.

Lemma overview_fields_not_cut_witness :
  let instruments :=
    [str "Emotional Quotient Inventory"; str "Maslach Burnout Inventory"] in
  exists instruments_field sample_field,
    print_full_workflow (config_record (str "Burnout") instruments 100 example_clock)
                        empty_world
    = (Ok tt,
       emit (Print (workflow_text (ljust 56 (firstn 56 (str "Burnout")))
                      instruments_field sample_field)) empty_world) /\
    length instruments_field = 55%nat.
Proof.
  intros instruments.
  destruct (overview_fields_not_cut (str "Burnout") instruments 100 example_clock
              empty_world)
    as (instruments_field & sample_field & Hprint & _ & Hlen & _);
    [reflexivity|repeat constructor|reflexivity|].
  exists instruments_field, sample_field. split; [exact Hprint|exact Hlen].
Defined.

(** *** The bootstrap succeeds when nothing is in the way *)

Lemma fs_wf_mkdir fs name parent :
  fs_wf fs -> stat fs parent = StDir -> fs !! (name :: parent) = None ->
  fs_wf (<[name :: parent := Dir]> fs).
Proof.
  intros Hwf Hparent Hl name' parent' n Hn.
  assert (Hsub : fs ⊆ <[name :: parent := Dir]> fs) by by apply insert_subseteq.
  destruct (decide (name' :: parent' = name :: parent)) as [[= -> ->]|Hne].
  - by apply (stat_mono_dir _ _ _ Hsub).
  - rewrite lookup_insert_ne in Hn by done.
    apply (stat_mono_dir _ _ _ Hsub). by eapply Hwf.
Qed.

Lemma not_blocked_cases s : ~ blocked s -> s = StDir \/ s = StErr ENOENT.
Proof.
  intros Hb. destruct s as [|c|[]]; try (by left); try (by right);
    exfalso; apply Hb; by split.
Qed.

Lemma stat_missing (fs : FS) name parent :
  fs_wf fs -> stat fs (name :: parent) = StErr ENOENT ->
  fs !! (name :: parent) = None /\
  (stat fs parent = StDir \/ stat fs parent = StErr ENOENT).
Proof.
  intros Hwf Hs. cbn [stat] in Hs.
  destruct (fs !! (name :: parent)) as [n|] eqn:Hl.
  - rewrite (Hwf _ _ _ Hl) in Hs. by destruct n.
  - split; [done|]. destruct (stat fs parent) as [|c|e]; [by left|done|].
    right. congruence.
Qed.

Lemma mkdir_here_wf name parent w :
  fs_wf w.(files) -> stat w.(files) parent = StDir ->
  ~ blocked (stat w.(files) (name :: parent)) ->
  exists w', mkdir_here true (name :: parent) w = (Ok tt, w') /\ fs_wf w'.(files).
Proof.
  intros Hwf Hparent [Hd|Hm]%not_blocked_cases.
  - exists w. by rewrite mkdir_here_dir.
  - destruct (stat_missing _ _ _ Hwf Hm) as [Hl _].
    eexists. rewrite mkdir_here_create by done. split; [done|].
    by apply fs_wf_mkdir.
Qed.

Lemma Path_mkdir_wf p : forall parents w,
  fs_wf w.(files) -> ~ blocked (stat w.(files) p) ->
  (parents = true \/ match p with _ :: parent => stat w.(files) parent = StDir | [] => True end) ->
  exists w', Path_mkdir parents true p w = (Ok tt, w') /\ fs_wf w'.(files).
Proof.
  induction p as [|name parent IH]; intros parents w Hwf Hnb Hpar.
  - exists w. by rewrite Path_mkdir_dir.
  - rewrite Path_mkdir_cons.
    destruct (not_blocked_cases _ Hnb) as [Hd|Hm].
    + rewrite (stat_cons_dir _ _ _ Hd). by apply mkdir_here_wf; [|eapply stat_cons_dir|].
    + destruct (stat_missing _ _ _ Hwf Hm) as [Hl [Hpd|Hpm]].
      * rewrite Hpd. by apply mkdir_here_wf.
      * rewrite Hpm. destruct Hpar as [->|Hpar]; [|congruence].
        destruct (IH true w Hwf) as (w0 & H0 & Hwf0); [rewrite Hpm; by intros [_ ?]|by left|].
        unfold bind. rewrite H0.
        pose proof H0 as (_ & _ & Hok & _)%Path_mkdir_post. specialize (Hok eq_refl).
        apply mkdir_here_wf; [done|done|].
        assert (Hl0 : files w0 !! (name :: parent) = None).
        { rewrite (Path_mkdir_frame _ _ _ _ _ _ _ H0); [done|].
          intros Hs. apply suffix_length in Hs. cbn [length] in Hs. lia. }
        cbn [stat]. rewrite Hok, Hl0. by intros [_ ?].
Qed.

Lemma not_blocked_grows (fs fs' : FS) q :
  fs_wf fs -> fs ⊆ fs' -> only_new_directories fs fs' ->
  ~ blocked (stat fs q) -> ~ blocked (stat fs' q).
Proof.
  intros Hwf Hsub Hnew. induction q as [|name q IH]; [done|]. intros Hnb.
  destruct (not_blocked_cases _ Hnb) as [Hd|Hm].
  - rewrite (stat_mono_dir _ _ _ Hsub Hd). by intros [? _].
  - destruct (stat_missing _ _ _ Hwf Hm) as [Hl Hparent].
    assert (Hp : ~ blocked (stat fs q)).
    { destruct Hparent as [-> | ->]; [by intros [? _]|by intros [_ ?]]. }
    apply IH, not_blocked_cases in Hp. cbn [stat].
    destruct Hp as [-> | ->]; [|by intros [_ ?]].
    destruct (Hnew (name :: q)) as [Heq|[_ Hdir]].
    + rewrite Heq, Hl. by intros [_ ?].
    + rewrite Hdir. by intros [? _].
Qed.

Lemma for_mkdir_wf ps : forall w,
  fs_wf w.(files) -> Forall (fun p => ~ blocked (stat w.(files) p)) ps ->
  exists w', for_ ps (Path_mkdir true true) w = (Ok tt, w') /\ fs_wf w'.(files).
Proof.
  induction ps as [|p ps IH]; intros w Hwf Hps.
  - by exists w.
  - apply Forall_cons in Hps as [Hp Hps].
    destruct (Path_mkdir_wf p true w Hwf Hp) as (w0 & H0 & Hwf0); [by left|].
    pose proof H0 as (Hsub & _)%Path_mkdir_post.
    pose proof (Path_mkdir_adds _ _ _ _ _ _ H0) as Hnew.
    destruct (IH w0 Hwf0) as (w' & Hfor & Hwf').
    { eapply Forall_impl; [exact Hps|]. intros q Hq. by apply (not_blocked_grows (files w)). }
    exists w'. cbn [for_]. unfold bind. by rewrite H0.
Qed.

(** X19. On a well-formed disk on which nothing but directories stands
    at the paths the bootstrap asks for or above them (each is a
    directory already or is missing), [setup_directories] succeeds, even
    when the directory of run.py itself does not exist; afterwards the
    five output subdirectories and the input directory exist and the
    disk is well formed. *)
Theorem setup_directories_succeeds :
  forall (REPO_ROOT : path) (w : world),
    fs_wf w.(files) ->
    Forall (fun p => ~ blocked (stat w.(files) p)) (bootstrap_paths REPO_ROOT) ->
    exists w',
      setup_directories REPO_ROOT w = (Ok tt, w') /\
      directories_exist REPO_ROOT w' /\
      fs_wf w'.(files).
Proof.
  intros REPO_ROOT w Hwf [Hin Hout]%Forall_cons.
  destruct (for_mkdir_wf _ w Hwf Hout) as (w1 & Hfor & Hwf1).
  pose proof Hfor as (Hsub & _ & Hdirs & _)%for_mkdir_post. specialize (Hdirs eq_refl).
  pose proof (for_mkdir_adds _ _ _ _ Hfor) as Hnew.
  assert (Hroot : stat w1.(files) REPO_ROOT = StDir).
  { apply Forall_cons in Hdirs as [Hresearch _].
    by apply stat_cons_dir, stat_cons_dir in Hresearch. }
  destruct (Path_mkdir_wf (INPUTS_DIR REPO_ROOT) false w1 Hwf1) as (w' & Hm & Hwf').
  { by apply (not_blocked_grows (files w)). }
  { by right. }
  assert (Hs : setup_directories REPO_ROOT w = (Ok tt, w')).
  { rewrite setup_directories_eq. unfold bind. by rewrite Hfor. }
  exists w'. split; [exact Hs|]. split; [|exact Hwf'].
  by apply setup_directories_post in Hs as (_ & _ & Hd & _); apply Hd.
Qed.

Lemma setup_directories_succeeds_witness :
  exists w',
    setup_directories example_root empty_world = (Ok tt, w') /\
    directories_exist example_root w'.
Proof.
  destruct (setup_directories_succeeds example_root empty_world) as (w' & Hs & Hd & _).
  - intros name parent n Hn. cbn [empty_world files] in Hn. by rewrite lookup_empty in Hn.
  - repeat (apply Forall_cons; split; [intros [_ Hb]; apply Hb; vm_compute; reflexivity|]).
    by apply Forall_nil.
  - exists w'. split; [exact Hs|exact Hd].
Defined.

(** *** What a run can change on the disk *)



(** ** main, from the bootstrap to the requested action *)

(** When the bootstrap fails, [main] stops there. *)
Lemma main_body_bootstrap_fails REPO_ROOT resolve args w e w1 :
  setup_directories REPO_ROOT w = (Raise e, w1) ->
  main_body REPO_ROOT resolve args w = (Raise e, w1) /\
  exit_status (main_body REPO_ROOT resolve args w).1 = 1 /\
  w1.(output) = w.(output).
Proof.
  intros Hs. destruct (setup_directories_raises _ _ _ _ Hs) as [n ->].
  unfold main_body. rewrite bind_eq, Hs. split_and!; [done|done|].
  by destruct (setup_output _ _ _ _ Hs).
Qed.

(** C5 (amended). When no configuration file exists and the arguments
    give neither a theme with instruments nor a configuration path, what
    the program does depends on the directory bootstrap, which runs
    first.  When the bootstrap succeeds: with [--status] the program
    prints the "No configuration found..." line and returns normally,
    exit status zero; with any other arguments it prints an error that
    names the expected configuration path, the hint, and exits with
    status 1; the bootstrap apart, the disk is not changed.  When the
    bootstrap fails, the program stops with its operating-system error,
    exit status 1, with [--status] as without it, and prints nothing. *)
Theorem missing_configuration :
  forall (REPO_ROOT : path) (resolve : pystr -> path) (args : Namespace) (w : world),
    truthy_opt args.(theme) && truthy_opt args.(instruments) = false ->
    truthy_opt args.(config) = false ->
    w.(files) !! config_path REPO_ROOT = None ->
    (forall w1,
       setup_directories REPO_ROOT w = (Ok tt, w1) ->
       exists r w',
         main_body REPO_ROOT resolve args w = (r, w') /\
         w'.(files) = w1.(files) /\
         (args.(status) = true ->
          r = Ok tt /\ exit_status r = 0 /\
          w'.(output)
          = w.(output)
            ++ [Print (str "No configuration found. Initialize with --theme and --instruments.")]) /\
         (args.(status) = false ->
          r = Raise (SystemExit 1) /\ exit_status r = 1 /\
          w'.(output)
          = w.(output)
            ++ [Print (str "Error: No configuration found at "
                       ++ path_str (config_path REPO_ROOT)
                       ++ str ". Run with --theme and --instruments first.");
                Print (str "
Run with --theme and --instruments to initialize:");
                Print init_hint])) /\
    (forall e w1,
       setup_directories REPO_ROOT w = (Raise e, w1) ->
       main_body REPO_ROOT resolve args w = (Raise e, w1) /\
       exit_status (main_body REPO_ROOT resolve args w).1 = 1 /\
       w1.(output) = w.(output)).
Proof.
  intros REPO_ROOT resolve args w Hti Hc Hl. split.
  - intros w1 Hs. by apply main_body_no_config.
  - intros e w1 Hs. by apply main_body_bootstrap_fails.
Qed.

Lemma missing_configuration_witness :
  let args := {| theme := None; instruments := None; sample := 50; phase := None;
                 full := false; status := true; config := None |} in
  exists r w',
    main_body example_root (fun _ => []) args empty_world = (r, w') /\
    exit_status r = 0 /\
    w'.(output)
    = [Print (str "No configuration found. Initialize with --theme and --instruments.")].
Proof.
  intros args.
  destruct (missing_configuration example_root (fun _ => []) args empty_world)
    as [Hok _]; [reflexivity|reflexivity|reflexivity|].
  destruct (Hok (setup_directories example_root empty_world).2)
    as (r & w' & Hm & _ & Hstatus & _); [vm_compute; reflexivity|].
  exists r, w'. destruct (Hstatus eq_refl) as (_ & Hexit & Hout).
  split; [exact Hm|]. split; [exact Hexit|exact Hout].
Defined.

(** C5 as stated fails: with no configuration file and [--status], but a
    regular file where the bootstrap needs the directory [outputs], the
    program prints nothing, not the "No configuration found..." line,
    and its exit status is 1, not zero. *)
Lemma missing_configuration_blocked :
  let w := set_files (<[ ["outputs"; "paper-writer"; "home"]%string := File (str "notes") ]>
                        example_files) example_world in
  let run := main example_root (fun _ => []) [str "--status"] w in
  w.(files) !! config_path example_root = None /\
  run.1 = Raise (OSError ENOTDIR) /\
  exit_status run.1 = 1 /\
  run.2.(output) = [].
Proof.
  vm_compute. split_and!; reflexivity.
Qed.










(** ** The theme in the overview *)

(** C9. The overview shows the theme cut to its first 56 characters and
    padded with spaces to 56.  Whenever [print_full_workflow] returns
    for a configuration that holds a theme, be it a record of
    [create_config] or any other JSON object, what it has printed is
    the overview with that field; and for a record it does return when
    the theme and the instruments are texts the output can encode (no
    surrogate code point) and the sample size has at most 4300
    characters.  The field is always 56 characters wide and
    starts with the first 56 characters of the theme; for a theme longer
    than 56 characters it is exactly those characters, the rest is
    dropped without notice.  The record keeps the whole theme: the file
    [save_config] wrote holds the dump of the record, printing the
    overview leaves it as it is, and the dump reads back as the record
    (for strings without a surrogate pair and a sample size of at most
    4300 characters). *)
Theorem theme_truncated :
  forall (theme : pystr) (instruments : list pystr) (sample_size : Z)
         (now : datetime) (w : world),
    let config := config_record theme instruments sample_size now in
    let shown := ljust 56 (firstn 56 theme) in
    let overview :=
      Print (workflow_text shown
               (ljust 52 (join (str ", ") instruments))
               (ljust 53 (int_repr sample_size))) in
    (forall w', print_full_workflow config w = (Ok tt, w') -> w' = emit overview w) /\
    (forall d w0 w',
       dict_get d (str "theme") = Some (PyStr theme) ->
       print_full_workflow (PyDict d) w0 = (Ok tt, w') ->
       exists instruments_field sample_field,
         w' = emit (Print (workflow_text shown instruments_field sample_field)) w0) /\
    (encodable theme = true ->
     Forall (fun i => encodable i = true) instruments ->
     short_int sample_size = true ->
     print_full_workflow config w = (Ok tt, emit overview w)) /\
    length shown = 56%nat /\
    firstn (length (firstn 56 theme)) shown = firstn 56 theme /\
    ((56 < length theme)%nat -> shown = firstn 56 theme /\ shown <> theme) /\
    getitem config (str "theme") = Ok (PyStr theme) /\
    (forall REPO_ROOT w0 w1,
       save_config REPO_ROOT config w0 = (Ok tt, w1) ->
       stat (print_full_workflow config w1).2.(files) (config_path REPO_ROOT)
       = StFile (dumps config)) /\
    (wf_str theme = true -> Forall (fun i => wf_str i = true) instruments ->
     short_int sample_size = true ->
     loads (dumps config) = Ok config).
Proof.
  intros theme instruments sample_size now w config shown overview.
  subst config shown overview.
  split_and!.
  - intros w' Hp. rewrite print_full_workflow_record in Hp. by injection Hp as <-.
  - intros d w0 w' Ht. unfold print_full_workflow, bind, lift. cbn [getitem].
    rewrite Ht. cbn [rbind slice_to format_left].
    destruct (let* i := _ in _) as [instruments_field|e1]; [|discriminate].
    destruct (let* n := _ in _) as [sample_field|e2]; [|discriminate].
    unfold print. intros [= <-]. by exists instruments_field, sample_field.
  - intros _ _ _. apply print_full_workflow_record.
  - apply ljust_length. rewrite length_take. lia.
  - unfold ljust. by rewrite take_app_length.
  - intros Hlen. rewrite ljust_long by (rewrite length_take; lia).
    split; [done|]. intros Heq. apply (f_equal length) in Heq.
    rewrite length_take in Heq. lia.
  - reflexivity.
  - intros REPO_ROOT w0 w1 [_ Hstat]%save_config_ok.
    by rewrite print_full_workflow_record.
  - intros Ht Hi _. by apply loads_dumps, config_record_wf.
Qed.

Lemma theme_truncated_witness :
  let theme := str "Emotional Intelligence, Burnout and Job Performance among Nurses" in
  (56 < length theme)%nat /\
  ljust 56 (firstn 56 theme)
  = str "Emotional Intelligence, Burnout and Job Performance amon" /\
  exists w',
    print_full_workflow (config_record theme [str "EQ-i"; str "MBI"] 100 example_clock)
                        empty_world
    = (Ok tt, w').
Proof.
  intros theme. split; [vm_compute; lia|].
  destruct (theme_truncated theme [str "EQ-i"; str "MBI"] 100 example_clock empty_world)
    as (_ & _ & Hprint & _ & _ & Hlong & _).
  destruct Hlong as [-> _]; [vm_compute; lia|]. split; [reflexivity|].
  eexists. apply Hprint; [reflexivity|repeat constructor|reflexivity].
Defined.

(** ** Where the configuration comes from *)


